(** * Compound clouds: the tiled density grid of the microbe stage

    A shallow embedding of [src/microbe_stage/compound_cloud_system.cpp]
    ([CompoundCloudComponent] and [CompoundCloudSystem]) together with the
    properties of its tiling, recycling, neighbour linking and
    diffusion/advection passes.

    Conventions of the embedding.

    - [float] values are exact rationals ([Q]): rounding error, NaN and
      infinities are outside the model (a division by zero yields [0]
      here).  [static_cast<int>] is truncation toward zero, [std::floor]
      and [std::round] are the mathematical functions ([std::round]
      rounds halves away from zero); [int] and [size_t] are unbounded.
    - A [CompoundCloudComponent*] is the [ObjectID] of the entity that owns
      the component; [m_managedClouds] (an [unordered_map] from entity to
      component) is an association list in one fixed iteration order, and
      dereferencing a pointer is a lookup in it.
    - The header with the constants ([CLOUD_WIDTH], [CLOUD_RESOLUTION],
      ...) is not part of the sources: the constants are the fields of a
      record [Constants] that every function takes as a parameter.
    - The logger is outside the sources: [LOG_FATAL], [LOG_ERROR] and
      [LOG_WARNING] append their message to a log, and the code after
      them runs as it is written.
    - Only the non-graphical mode is embedded (no Ogre scene node, texture
      or material). *)

From Stdlib Require Import ZArith QArith Qround Qabs Lqa Lia List Bool String.
From stdpp Require Import base option list gmap.
Import ListNotations.

(** ** Arithmetic of [float] and its conversions *)

Definition fltb (a b : Q) : bool := negb (Qle_bool b a).
Definition fleb (a b : Q) : bool := Qle_bool a b.
Definition feqb (a b : Q) : bool := Qeq_bool a b.

(** [static_cast<int>(v)]: the fractional part is discarded. *)
Definition static_cast_int (v : Q) : Z := Z.quot (Qnum v) (Z.pos (Qden v)).

(** [std::floor(v)], as an integer. *)
Definition std_floor (v : Q) : Z := Qfloor v.

(** [std::round(v)]: nearest integer, halves away from zero. *)
Definition std_round (v : Q) : Z :=
  if fleb 0 v then Qfloor (v + (1 # 2)) else Qceiling (v - (1 # 2)).

(** [std::clamp(v, lo, hi)]. *)
Definition std_clamp (v lo hi : Q) : Q :=
  if fltb v lo then lo else if fltb hi v then hi else v.

(** [std::clamp(v, lo, hi)] on [int]. *)
Definition std_clamp_int (v lo hi : Z) : Z :=
  if (v <? lo)%Z then lo else if (hi <? v)%Z then hi else v.

(** [static_cast<uint8_t>(v)] of an [int]. *)
Definition static_cast_uint8 (v : Z) : Z := (v mod 256)%Z.

(** ** Constants of the cloud grid

    [CLOUD_WIDTH] and [CLOUD_HEIGHT] are the half extents of a tile in world
    units, [CLOUD_X_EXTENT] and [CLOUD_Y_EXTENT] the distance between the
    centres of adjacent tiles, [CLOUD_SIMULATION_WIDTH] by
    [CLOUD_SIMULATION_HEIGHT] the number of cells of a density field and
    [CLOUD_RESOLUTION] the world size of a cell. *)

Definition CompoundId := Z.
Definition ObjectID := Z.

Record Constants := mkConstants {
  CLOUD_WIDTH : Q;
  CLOUD_HEIGHT : Q;
  CLOUD_RESOLUTION : Q;
  CLOUD_X_EXTENT : Q;
  CLOUD_Y_EXTENT : Q;
  CLOUD_SIMULATION_WIDTH : nat;
  CLOUD_SIMULATION_HEIGHT : nat;
  EPSILON : Q;
  NULL_COMPOUND : CompoundId;
  TICKSPEED : Z
}.

(** The component constructor takes exactly four compounds. *)
Definition CLOUDS_IN_ONE : nat := 4.

(** The bytes of a pixel of the cloud texture. *)
Definition OGRE_CLOUD_TEXTURE_BYTES_PER_ELEMENT : nat := 4.

(** ** Vectors *)

Record Float3 := mkFloat3 { f3X : Q; f3Y : Q; f3Z : Q }.
Record Float2 := mkFloat2 { f2X : Q; f2Y : Q }.

(** [Int2]: a pair of [int], here the grid coordinate of a tile. *)
Definition Int2 := (Z * Z)%type.

Definition Float3_sub (a b : Float3) : Float3 :=
  mkFloat3 (f3X a - f3X b) (f3Y a - f3Y b) (f3Z a - f3Z b).

(** [Float3::HAddAbs]: the sum of the absolute values of the components. *)
Definition HAddAbs (a : Float3) : Q :=
  (Qabs (f3X a) + Qabs (f3Y a) + Qabs (f3Z a))%Q.

(** [Float3::operator!=]. *)
Definition Float3_neq (a b : Float3) : bool :=
  negb (feqb (f3X a) (f3X b)) || negb (feqb (f3Y a) (f3Y b))
  || negb (feqb (f3Z a) (f3Z b)).

(** ** Tiling arithmetic *)

Section Tiling.
Variable K : Constants.

Definition cloudContainsPosition (cloudPosition worldPosition : Float3)
  : bool :=
  negb (fltb (f3X worldPosition) (f3X cloudPosition - CLOUD_WIDTH K)
        || fleb (f3X cloudPosition + CLOUD_WIDTH K) (f3X worldPosition)
        || fltb (f3Z worldPosition) (f3Z cloudPosition - CLOUD_HEIGHT K)
        || fleb (f3Z cloudPosition + CLOUD_HEIGHT K) (f3Z worldPosition)).

(** The rectangle test for a circle around [worldPosition], by the
    bounding square of the circle. *)
Definition cloudContainsPositionWithRadius
  (cloudPosition worldPosition : Float3) (radius : Q) : bool :=
  negb (fltb (f3X worldPosition + radius) (f3X cloudPosition - CLOUD_WIDTH K)
        || fleb (f3X cloudPosition + CLOUD_WIDTH K)
                (f3X worldPosition - radius)
        || fltb (f3Z worldPosition + radius)
                (f3Z cloudPosition - CLOUD_HEIGHT K)
        || fleb (f3Z cloudPosition + CLOUD_HEIGHT K)
                (f3Z worldPosition - radius)).

(** [None] stands for the thrown [InvalidArgument] ("position not within
    cloud").  A negative quotient cannot be a [size_t]; the conversion is
    taken to land outside the field, where the safety check throws. *)
Definition convertWorldToCloudLocal (cloudPosition worldPosition : Float3)
  : option (nat * nat) :=
  let topLeftRelativeX :=
    (f3X worldPosition - (f3X cloudPosition - CLOUD_WIDTH K))%Q in
  let topLeftRelativeZ :=
    (f3Z worldPosition - (f3Z cloudPosition - CLOUD_HEIGHT K))%Q in
  let localX := std_floor (topLeftRelativeX / CLOUD_RESOLUTION K) in
  let localY := std_floor (topLeftRelativeZ / CLOUD_RESOLUTION K) in
  if (localX <? 0)%Z || (localY <? 0)%Z
     || (Z.of_nat (CLOUD_SIMULATION_WIDTH K) <=? localX)%Z
     || (Z.of_nat (CLOUD_SIMULATION_HEIGHT K) <=? localY)%Z
  then None
  else Some (Z.to_nat localX, Z.to_nat localY).

(** The same conversion without the cast and without the safety check:
    the floored quotients as [float]s, which may lie outside the field. *)
Definition convertWorldToCloudLocalForGrab
  (cloudPosition worldPosition : Float3) : Q * Q :=
  let topLeftRelativeX :=
    (f3X worldPosition - (f3X cloudPosition - CLOUD_WIDTH K))%Q in
  let topLeftRelativeZ :=
    (f3Z worldPosition - (f3Z cloudPosition - CLOUD_HEIGHT K))%Q in
  let localX := inject_Z (std_floor (topLeftRelativeX / CLOUD_RESOLUTION K)) in
  let localY := inject_Z (std_floor (topLeftRelativeZ / CLOUD_RESOLUTION K)) in
  (localX, localY).

Definition calculateGridCenterForPlayerPos (pos : Float3) : Float3 :=
  mkFloat3
    (inject_Z (static_cast_int
                 (inject_Z (std_round (f3X pos / CLOUD_X_EXTENT K))))
     * CLOUD_X_EXTENT K)
    0
    (inject_Z (static_cast_int
                 (inject_Z (std_round (f3Z pos / CLOUD_Y_EXTENT K))))
     * CLOUD_Y_EXTENT K).

(** Modelled from the spec: [calculateGridPositions] is declared in the
    header, which is not part of the sources.  It yields the nine centres
    of the 3x3 neighbourhood of the grid centre, each with its grid
    coordinate in [{-1,0,1} x {-1,0,1}]; adjacent centres are one tile
    extent apart. *)
Definition gridOffsets : list Int2 :=
  [(-1, -1); (0, -1); (1, -1);
   (-1, 0); (0, 0); (1, 0);
   (-1, 1); (0, 1); (1, 1)]%Z.

Definition calculateGridPositions (center : Float3)
  : list (Int2 * Float3) :=
  map (fun g : Int2 =>
         (g, mkFloat3 (f3X center + inject_Z (fst g) * CLOUD_X_EXTENT K)
                      (f3Y center)
                      (f3Z center + inject_Z (snd g) * CLOUD_Y_EXTENT K)))
      gridOffsets.
End Tiling.

(** ** Failure of a call

  [std::runtime_error] escapes from the functions that raise it and
  [LEVIATHAN_ASSERT] aborts; both end the call without a result. *)

Inductive Failure := RuntimeError | AssertionFailed.

Inductive Outcome (A : Type) :=
| Done (a : A)
| Aborted (why : Failure).
Arguments Done {A} a.
Arguments Aborted {A} why.

#[global] Instance Outcome_ret : MRet Outcome := fun A a => Done a.
#[global] Instance Outcome_bind : MBind Outcome := fun A B k o =>
match o with
| Done a => k a
| Aborted why => Aborted why
end.

(** A loop whose body may fail: the first failure ends the loop. *)
Fixpoint forEachO {A S : Type} (body : S -> A -> Outcome S) (s : S)
(l : list A) : Outcome S :=
match l with
| [] => Done s
| a :: rest => s' ← body s a; forEachO body s' rest
end.

(** ** Density fields

  [density[x][y]] with [x] below the width and [y] below the height.
  Indexing outside a field is undefined in C++; here a read outside
  yields [0] and a write outside is dropped.  Every access of the
  embedded code is guarded by the field size. *)

Abbreviation Field := (list (list Q)).

Definition fieldGet (f : Field) (x y : nat) : Q :=
default 0%Q (f !! x ≫= (.!! y)).

Definition fieldSet (f : Field) (x y : nat) (v : Q) : Field :=
alter (<[y := v]>) x f.

Definition zeroField (w h : nat) : Field := replicate w (replicate h 0%Q).

(** [for (x = 0; x < w; x++) for (y = 0; y < h; y++) body(x, y)]. *)
Definition forCells {S : Type} (w h : nat) (body : S -> nat -> nat -> S)
(s : S) : S :=
foldl (fun s x => foldl (fun s y => body s x y) s (seq 0 h)) s (seq 0 w).

(** The double loop over [density.size()] and [density[x].size()] that
  clears both fields of a slot. *)
Definition clearFields (dens old : Field) : Field * Field :=
foldl (fun fs x =>
         foldl (fun fs y => (fieldSet (fst fs) x y 0%Q,
                             fieldSet (snd fs) x y 0%Q))
               fs (seq 0 (length (default [] (dens !! x)))))
      (dens, old) (seq 0 (length dens)).

(** ** Data of a tile *)

Record Compound := mkCompound {
compound_id : CompoundId;
compound_viscosity : Q
}.

Record CloudData := mkCloudData {
cloud_id : CompoundId;
cloud_viscosity : Q;
density : Field;
oldDensity : Field
}.

Record CompoundCloudComponent := mkComponent {
clouds : list CloudData;
m_position : Float3;
m_initialized : bool;
m_upperCloud : option ObjectID;
m_lowerCloud : option ObjectID;
m_leftCloud : option ObjectID;
m_rightCloud : option ObjectID
}.

Definition setDensity (f : Field) (cd : CloudData) : CloudData :=
mkCloudData (cloud_id cd) (cloud_viscosity cd) f (oldDensity cd).

Definition setOldDensity (f : Field) (cd : CloudData) : CloudData :=
mkCloudData (cloud_id cd) (cloud_viscosity cd) (density cd) f.

Definition setClouds (l : list CloudData) (c : CompoundCloudComponent)
: CompoundCloudComponent :=
mkComponent l (m_position c) (m_initialized c) (m_upperCloud c)
  (m_lowerCloud c) (m_leftCloud c) (m_rightCloud c).

Definition setPosition (pos : Float3) (c : CompoundCloudComponent)
: CompoundCloudComponent :=
mkComponent (clouds c) pos (m_initialized c) (m_upperCloud c)
  (m_lowerCloud c) (m_leftCloud c) (m_rightCloud c).

Definition setInitialized (b : bool) (c : CompoundCloudComponent)
: CompoundCloudComponent :=
mkComponent (clouds c) (m_position c) b (m_upperCloud c)
  (m_lowerCloud c) (m_leftCloud c) (m_rightCloud c).

Definition setLinks (upper lower left right : option ObjectID)
(c : CompoundCloudComponent) : CompoundCloudComponent :=
mkComponent (clouds c) (m_position c) (m_initialized c)
  upper lower left right.

Definition alterSlot (f : CloudData -> CloudData) (slot : nat)
(c : CompoundCloudComponent) : CompoundCloudComponent :=
setClouds (alter f slot (clouds c)) c.

(** ** CompoundCloudComponent *)

Module Component.
Section Component.
Variable K : Constants.

(** Modelled from the spec: the default member initialisers of
    [CloudData] are in the header, which is not part of the sources.  A
    slot that is given no compound carries the empty sentinel and fields
    of [CLOUD_SIMULATION_WIDTH] by [CLOUD_SIMULATION_HEIGHT] zero cells.
    (The default viscosity is immaterial: no code path reads it from an
    empty slot.) *)
Definition emptyCloudData : CloudData :=
  mkCloudData (NULL_COMPOUND K) 1
    (zeroField (CLOUD_SIMULATION_WIDTH K) (CLOUD_SIMULATION_HEIGHT K))
    (zeroField (CLOUD_SIMULATION_WIDTH K) (CLOUD_SIMULATION_HEIGHT K)).

(** The constructor; a null [first] throws. *)
Definition create (first second third fourth : option Compound)
  : Outcome CompoundCloudComponent :=
  match first with
  | None => Aborted RuntimeError
  | Some _ =>
      Done (mkComponent
              (map (fun aux : option Compound =>
                      match aux with
                      | Some c =>
                          mkCloudData (compound_id c)
                            (compound_viscosity c)
                            (density emptyCloudData)
                            (oldDensity emptyCloudData)
                      | None => emptyCloudData
                      end)
                   [first; second; third; fourth])
              (mkFloat3 0 0 0) false None None None None)
  end.

Definition getSlotForCompound (c : CompoundCloudComponent)
  (compound : CompoundId) : Outcome nat :=
  match list_find (fun cd => compound = cloud_id cd)
                  (take CLOUDS_IN_ONE (clouds c)) with
  | Some (i, _) => Done i
  | None => Aborted RuntimeError
  end.

Definition handlesCompound (c : CompoundCloudComponent)
  (compound : CompoundId) : bool :=
  existsb (fun cd => Z.eqb compound (cloud_id cd))
          (take CLOUDS_IN_ONE (clouds c)).

Definition slotDensity (c : CompoundCloudComponent) (slot x y : nat) : Q :=
  match clouds c !! slot with
  | Some cd => fieldGet (density cd) x y
  | None => 0%Q
  end.

Definition slotOldDensity (c : CompoundCloudComponent) (slot x y : nat)
  : Q :=
  match clouds c !! slot with
  | Some cd => fieldGet (oldDensity cd) x y
  | None => 0%Q
  end.

Definition setSlotDensity (slot x y : nat) (v : Q)
  (c : CompoundCloudComponent) : CompoundCloudComponent :=
  alterSlot (fun cd => setDensity (fieldSet (density cd) x y v) cd) slot c.

Definition setSlotOldDensity (slot x y : nat) (v : Q)
  (c : CompoundCloudComponent) : CompoundCloudComponent :=
  alterSlot (fun cd => setOldDensity (fieldSet (oldDensity cd) x y v) cd)
            slot c.

Definition addCloud (c : CompoundCloudComponent) (compound : CompoundId)
  (dens : Q) (x y : nat) : Outcome CompoundCloudComponent :=
  slot ← getSlotForCompound c compound;
  Done (setSlotDensity slot x y (slotDensity c slot x y + dens)%Q c).

Definition takeCompound (c : CompoundCloudComponent)
  (compound : CompoundId) (x y : nat) (rate : Q)
  : Outcome (Z * CompoundCloudComponent) :=
  slot ← getSlotForCompound c compound;
  let amountToGive := static_cast_int (slotDensity c slot x y * rate) in
  let c1 :=
    setSlotDensity slot x y
      (slotDensity c slot x y - inject_Z amountToGive)%Q c in
  let c2 :=
    if fltb (slotDensity c1 slot x y) 1
    then setSlotDensity slot x y 0%Q c1
    else c1 in
  Done (amountToGive, c2).

Definition amountAvailable (c : CompoundCloudComponent)
  (compound : CompoundId) (x y : nat) (rate : Q) : Outcome Z :=
  slot ← getSlotForCompound c compound;
  Done (static_cast_int (slotDensity c slot x y * rate)).

Definition getCompoundsAt (c : CompoundCloudComponent) (x y : nat)
  (result : list (CompoundId * Q)) : list (CompoundId * Q) :=
  foldl (fun result cloudData =>
           if negb (Z.eqb (cloud_id cloudData) (NULL_COMPOUND K))
           then
             let amount := fieldGet (density cloudData) x y in
             if fltb 0 amount
             then result ++ [(cloud_id cloudData, amount)]
             else result
           else result)
        result (clouds c).

Definition clearCloudData (cloudData : CloudData) : CloudData :=
  if negb (Z.eqb (cloud_id cloudData) (NULL_COMPOUND K))
  then
    let fs := clearFields (density cloudData) (oldDensity cloudData) in
    mkCloudData (cloud_id cloudData) (cloud_viscosity cloudData)
      (fst fs) (snd fs)
  else cloudData.

Definition recycleToPosition (newPosition : Float3)
  (c : CompoundCloudComponent) : CompoundCloudComponent :=
  setClouds (map clearCloudData (clouds c)) (setPosition newPosition c).
End Component.
End Component.

(** ** The tiles of a system and the pointers between them *)

Abbreviation Store := (list (ObjectID * CompoundCloudComponent)).

(** Following a [CompoundCloudComponent*]. *)
Definition deref (m : Store) (p : ObjectID) : option CompoundCloudComponent :=
snd <$> find (fun e => Z.eqb (fst e) p) m.

(** Writing through a [CompoundCloudComponent*]. *)
Definition update (f : CompoundCloudComponent -> CompoundCloudComponent)
(p : ObjectID) (m : Store) : Store :=
map (fun e => if Z.eqb (fst e) p then (fst e, f (snd e)) else e) m.

Record CompoundCloudSystem := mkSystem {
m_cloudTypes : list Compound;
m_managedClouds : Store;
m_cloudGridCenter : Float3;
m_tooFarAwayClouds : list (option ObjectID);
(** the entity counter of the world behind [CreateEntity] *)
nextEntity : ObjectID;
(** what [LOG_FATAL], [LOG_ERROR] and [LOG_WARNING] have written *)
logged : list string
}.

Definition setCloudTypes (t : list Compound) (s : CompoundCloudSystem) :=
mkSystem t (m_managedClouds s) (m_cloudGridCenter s)
  (m_tooFarAwayClouds s) (nextEntity s) (logged s).

Definition setManagedClouds (m : Store) (s : CompoundCloudSystem) :=
mkSystem (m_cloudTypes s) m (m_cloudGridCenter s)
  (m_tooFarAwayClouds s) (nextEntity s) (logged s).

Definition setCloudGridCenter (c : Float3) (s : CompoundCloudSystem) :=
mkSystem (m_cloudTypes s) (m_managedClouds s) c
  (m_tooFarAwayClouds s) (nextEntity s) (logged s).

Definition setTooFarAwayClouds (l : list (option ObjectID))
(s : CompoundCloudSystem) :=
mkSystem (m_cloudTypes s) (m_managedClouds s) (m_cloudGridCenter s)
  l (nextEntity s) (logged s).

Definition setNextEntity (n : ObjectID) (s : CompoundCloudSystem) :=
mkSystem (m_cloudTypes s) (m_managedClouds s) (m_cloudGridCenter s)
  (m_tooFarAwayClouds s) n (logged s).

Definition log (msg : string) (s : CompoundCloudSystem) :=
mkSystem (m_cloudTypes s) (m_managedClouds s) (m_cloudGridCenter s)
  (m_tooFarAwayClouds s) (nextEntity s) (logged s ++ [msg]).

(** A system before [registerCloudTypes]. *)
Definition emptySystem : CompoundCloudSystem :=
mkSystem [] [] (mkFloat3 0 0 0) [] 1%Z [].

(** [for (size_t i = start; i < stop; i += step)]: the values of [i]. *)
Fixpoint strideFrom (fuel i stop step : nat) : list nat :=
match fuel with
| O => []
| S fuel' =>
    if (i <? stop)%nat then i :: strideFrom fuel' (i + step) stop step
    else []
end.

(** [vector::resize]: cut, or filled up with null pointers. *)
Definition resize (n : nat) (l : list (option ObjectID))
: list (option ObjectID) :=
take n l ++ replicate (n - length l) None.

(** The [unordered_map] from (grid coordinate, group) to tile built by
  [applyNewCloudPositioning].  [clouds[key]] on an absent key inserts a
  null pointer and yields it: such a lookup is [None].  (Whether the
  running loop of [setUpCloudLinks] then visits the inserted null entry
  is unspecified; the loop here visits the entries present at its
  start.) *)
Abbreviation CloudIndex := (gmap (Z * Z * Z) ObjectID).

Definition firstCloudId (K : Constants) (c : CompoundCloudComponent)
: CompoundId :=
match clouds c !! 0%nat with
| Some cd => cloud_id cd
| None => NULL_COMPOUND K
end.

(** ** CompoundCloudSystem *)

Module System.
Section System.
Variable K : Constants.

Local Abbreviation W := (CLOUD_SIMULATION_WIDTH K).
Local Abbreviation H := (CLOUD_SIMULATION_HEIGHT K).

(** *** Queries *)

(** The loop of [addCloud]: the first tile that contains the position
    and handles the compound decides. *)
Fixpoint addCloudScan (m : Store) (compound : CompoundId) (dens : Q)
  (worldPosition : Float3) : Outcome (bool * Store * list string) :=
  match m with
  | [] => Done (false, [], [])
  | (e, c) :: rest =>
      if cloudContainsPosition K (m_position c) worldPosition
         && Component.handlesCompound c compound
      then
        match convertWorldToCloudLocal K (m_position c) worldPosition with
        | Some (x, y) =>
            c' ← Component.addCloud c compound dens x y;
            Done (true, (e, c') :: rest, [])
        | None =>
            Done (false, (e, c) :: rest,
                  ["CompoundCloudSystem: can't place cloud because the cloud math is wrong"%string])
        end
      else
        r ← addCloudScan rest compound dens worldPosition;
        Done (fst (fst r), (e, c) :: snd (fst r), snd r)
  end.

Definition addCloud (s : CompoundCloudSystem) (compound : CompoundId)
  (dens : Q) (worldPosition : Float3)
  : Outcome (bool * CompoundCloudSystem) :=
  r ← addCloudScan (m_managedClouds s) compound dens worldPosition;
  Done (fst (fst r),
        fold_left (fun s msg => log msg s) (snd r)
          (setManagedClouds (snd (fst r)) s)).

(** The loop of [takeCompound]; the caught [InvalidArgument] makes the
    function return [false], that is [0]. *)
Fixpoint takeCompoundScan (m : Store) (compound : CompoundId)
  (worldPosition : Float3) (rate : Q)
  : Outcome (Q * Store * list string) :=
  match m with
  | [] => Done (0%Q, [], [])
  | (e, c) :: rest =>
      if cloudContainsPosition K (m_position c) worldPosition
         && Component.handlesCompound c compound
      then
        match convertWorldToCloudLocal K (m_position c) worldPosition with
        | Some (x, y) =>
            r ← Component.takeCompound c compound x y rate;
            Done (inject_Z (fst r), (e, snd r) :: rest, [])
        | None =>
            Done (0%Q, (e, c) :: rest,
                  ["CompoundCloudSystem: can't take from cloud because the cloud math is wrong"%string])
        end
      else
        r ← takeCompoundScan rest compound worldPosition rate;
        Done (fst (fst r), (e, c) :: snd (fst r), snd r)
  end.

Definition takeCompound (s : CompoundCloudSystem) (compound : CompoundId)
  (worldPosition : Float3) (rate : Q)
  : Outcome (Q * CompoundCloudSystem) :=
  r ← takeCompoundScan (m_managedClouds s) compound worldPosition rate;
  Done (fst (fst r),
        fold_left (fun s msg => log msg s) (snd r)
          (setManagedClouds (snd (fst r)) s)).

Fixpoint amountAvailableScan (m : Store) (compound : CompoundId)
  (worldPosition : Float3) (rate : Q) : Outcome (Q * list string) :=
  match m with
  | [] => Done (0%Q, [])
  | (e, c) :: rest =>
      if cloudContainsPosition K (m_position c) worldPosition
         && Component.handlesCompound c compound
      then
        match convertWorldToCloudLocal K (m_position c) worldPosition with
        | Some (x, y) =>
            r ← Component.amountAvailable c compound x y rate;
            Done (inject_Z r, [])
        | None =>
            Done (0%Q,
                  ["CompoundCloudSystem: can't get available compounds from cloud because the cloud math is wrong"%string])
        end
      else amountAvailableScan rest compound worldPosition rate
  end.

Definition amountAvailable (s : CompoundCloudSystem)
  (compound : CompoundId) (worldPosition : Float3) (rate : Q)
  : Outcome (Q * CompoundCloudSystem) :=
  r ← amountAvailableScan (m_managedClouds s) compound worldPosition rate;
  Done (fst r, fold_left (fun s msg => log msg s) (snd r) s).

Definition getAllAvailableAt (s : CompoundCloudSystem)
  (worldPosition : Float3) : list (CompoundId * Q) * CompoundCloudSystem :=
  foldl (fun acc (entry : ObjectID * CompoundCloudComponent) =>
           let c := snd entry in
           if cloudContainsPosition K (m_position c) worldPosition
           then
             match convertWorldToCloudLocal K (m_position c)
                     worldPosition with
             | Some (x, y) =>
                 (Component.getCompoundsAt K c x y (fst acc), snd acc)
             | None =>
                 (fst acc,
                  log "CompoundCloudSystem: can't get available compounds from cloud because the cloud math is wrong"
                      (snd acc))
             end
           else acc)
        ([], s) (m_managedClouds s).

(** *** The solver *)

Definition readOld (m : Store) (p : ObjectID) (slot x y : nat) : Q :=
  match deref m p with
  | Some c => Component.slotOldDensity c slot x y
  | None => 0%Q
  end.

Definition readDensity (m : Store) (p : ObjectID) (slot x y : nat) : Q :=
  match deref m p with
  | Some c => Component.slotDensity c slot x y
  | None => 0%Q
  end.

Definition writeOld (m : Store) (p : ObjectID) (slot x y : nat) (v : Q)
  : Store :=
  update (Component.setSlotOldDensity slot x y v) p m.

Definition writeDensity (m : Store) (p : ObjectID) (slot x y : nat) (v : Q)
  : Store :=
  update (Component.setSlotDensity slot x y v) p m.

(** [neighbour->clouds[slot].oldDensity[x][y]] behind a null check. *)
Definition neighbourOld (m : Store) (neighbour : option ObjectID)
  (slot x y : nat) : Q :=
  match neighbour with
  | Some q => readOld m q slot x y
  | None => 0%Q
  end.

(** The body of the double loop of [diffuse]. *)
Definition diffuseCell (a : Q) (cloudComponent : ObjectID) (slot : nat)
  (m : Store) (x y : nat) : Store :=
  let link sel := deref m cloudComponent ≫= sel in
  let upperDensity :=
    if (0 <? y)%nat then readOld m cloudComponent slot x (y - 1)
    else neighbourOld m (link m_upperCloud) slot x (H - 1) in
  let lowerDensity :=
    if (y <? H - 1)%nat then readOld m cloudComponent slot x (y + 1)
    else neighbourOld m (link m_lowerCloud) slot x 0 in
  let leftDensity :=
    if (0 <? x)%nat then readOld m cloudComponent slot (x - 1) y
    else neighbourOld m (link m_leftCloud) slot (W - 1) y in
  let rightDensity :=
    if (x <? W - 1)%nat then readOld m cloudComponent slot (x + 1) y
    else neighbourOld m (link m_rightCloud) slot 0 y in
  writeOld m cloudComponent slot x y
    (readDensity m cloudComponent slot x y * (1 - a)
     + (upperDensity + lowerDensity + leftDensity + rightDensity) * a / 4)%Q.

Definition diffuse (diffRate : Q) (cloudComponent : ObjectID) (slot : nat)
  (dt : Z) (m : Store) : Store :=
  let a := (inject_Z dt * diffRate)%Q in
  forCells W H (diffuseCell a cloudComponent slot) m.

(** [target->clouds[slot].density[x][y] += value]. *)
Definition deposit (m : Store) (target : ObjectID) (slot x y : nat)
  (value : Q) : Store :=
  writeDensity m target slot x y (readDensity m target slot x y + value)%Q.

Definition addCloudDensity (cloudComponent : ObjectID) (slot : nat)
  (x y : Z) (value : Q) (m : Store) : Store :=
  let '(x, xComponent) :=
    if (x <? 0)%Z
    then (Z.of_nat W - 1, deref m cloudComponent ≫= m_leftCloud)%Z
    else if (Z.of_nat W <=? x)%Z
         then (0%Z, deref m cloudComponent ≫= m_rightCloud)
         else (x, Some cloudComponent) in
  match xComponent with
  | None => m
  | Some xc =>
      let '(y, yComponent) :=
        if (y <? 0)%Z
        then (Z.of_nat H - 1, deref m xc ≫= m_upperCloud)%Z
        else if (Z.of_nat H <=? y)%Z
             then (0%Z, deref m xc ≫= m_lowerCloud)
             else (y, Some xc) in
      match yComponent with
      | None => m
      | Some yc =>
          deposit m yc slot (Z.to_nat x) (Z.to_nat y) value
      end
  end.

(** The clamped destination [(dx, dy)] of the mass of cell [(x, y)]. *)
Definition destination (x y : nat) (dt : Z) (velocity : Float2) : Q * Q :=
  let dx := (inject_Z (Z.of_nat x) + inject_Z dt * f2X velocity)%Q in
  let dy := (inject_Z (Z.of_nat y) + inject_Z dt * f2Y velocity)%Q in
  (std_clamp dx (1 # 2) (inject_Z (Z.of_nat W) - (3 # 2)),
   std_clamp dy (1 # 2) (inject_Z (Z.of_nat H) - (3 # 2)))%Q.

Section Advection.
(** [fluidSystem.getVelocityAt]. *)
Variable getVelocityAt : Float2 -> Float2.

Definition velocityAt (m : Store) (cloudComponent : ObjectID) (slot : nat)
  (pos : Float2) (x y : nat) : Float2 :=
  let viscosity :=
    match deref m cloudComponent ≫= (fun c => clouds c !! slot) with
    | Some cloudData => cloud_viscosity cloudData
    | None => 0%Q
    end in
  let v :=
    getVelocityAt
      (mkFloat2 (f2X pos + inject_Z (Z.of_nat x) * CLOUD_RESOLUTION K)
                (f2Y pos + inject_Z (Z.of_nat y) * CLOUD_RESOLUTION K)) in
  mkFloat2 (f2X v / viscosity) (f2Y v / viscosity).

(** The body of the second double loop of [advect]. *)
Definition advectCell (dt : Z) (pos : Float2) (cloudComponent : ObjectID)
  (slot : nat) (m : Store) (x y : nat) : Store :=
  if fltb 1 (readOld m cloudComponent slot x y)
  then
    let velocity := velocityAt m cloudComponent slot pos x y in
    let d := destination x y dt velocity in
    let x0 := static_cast_int (fst d) in
    let x1 := (x0 + 1)%Z in
    let y0 := static_cast_int (snd d) in
    let y1 := (y0 + 1)%Z in
    let s1 := (fst d - inject_Z x0)%Q in
    let s0 := (1 - s1)%Q in
    let t1 := (snd d - inject_Z y0)%Q in
    let t0 := (1 - t1)%Q in
    let m1 :=
      addCloudDensity cloudComponent slot x0 y0
        (readOld m cloudComponent slot x y * s0 * t0)%Q m in
    let m2 :=
      addCloudDensity cloudComponent slot x0 y1
        (readOld m1 cloudComponent slot x y * s0 * t1)%Q m1 in
    let m3 :=
      addCloudDensity cloudComponent slot x1 y0
        (readOld m2 cloudComponent slot x y * s1 * t0)%Q m2 in
    addCloudDensity cloudComponent slot x1 y1
      (readOld m3 cloudComponent slot x y * s1 * t1)%Q m3
  else m.

(** The first double loop of [advect]. *)
Definition clearDensity (cloudComponent : ObjectID) (slot : nat) (m : Store)
  : Store :=
  forCells W H (fun m x y => writeDensity m cloudComponent slot x y 0%Q) m.

Definition advect (cloudComponent : ObjectID) (slot : nat) (dt : Z)
  (pos : Float2) (m : Store) : Store :=
  forCells W H (advectCell dt pos cloudComponent slot)
    (clearDensity cloudComponent slot m).

(** The simulation part of [processCloud]; the upload of the densities to
    the texture is left out. *)
Definition processCloud (cloud : ObjectID) (renderTime : Z) (m : Store)
  : Store :=
  let renderTime := Z.quot renderTime 10 in
  let size c := length (clouds c) in
  foldl (fun m slot =>
           match deref m cloud with
           | Some c =>
               let pos := mkFloat2 (f3X (m_position c)) (f3Z (m_position c)) in
               match clouds c !! slot with
               | Some cloudData =>
                   if negb (Z.eqb (cloud_id cloudData) (NULL_COMPOUND K))
                   then advect cloud slot renderTime pos
                          (diffuse (7 # 1000) cloud slot renderTime m)
                   else m
               | None => m
               end
           | None => m
           end)
        m (seq 0 (default 0%nat (size <$> deref m cloud))).
End Advection.

(** *** The texture of a tile

    [fillCloudChannel] writes one channel of the locked pixel buffer
    [pDest], here the list of its bytes (a write past its end is
    undefined in C++ and dropped here).  [std::atan] is not a rational
    function: it is a parameter, and what is proved of the buffer holds
    for every function in its place. *)

Section Texture.
Variable std_atan : Q -> Q.

(** The intensity of a cell: [255 * 2 * atan(0.003f * density)] as an
    [int], clamped to a byte. *)
Definition cellIntensity (density : Q) : Z :=
  let intensity :=
    static_cast_int (inject_Z (255 * 2) * std_atan ((3 # 1000) * density)) in
  std_clamp_int intensity 0 255.

Definition fillCloudChannel (cloudData : CloudData) (index rowBytes : nat)
  (pDest : list Z) : list Z :=
  foldl (fun pDest i =>
           foldl (fun pDest j =>
                    <[(rowBytes * j
                       + i * OGRE_CLOUD_TEXTURE_BYTES_PER_ELEMENT
                       + index)%nat
                      := static_cast_uint8
                           (cellIntensity
                              (fieldGet (density cloudData) i j))]> pDest)
                 pDest
                 (seq 0 (length (default [] (density cloudData !! i)))))
        pDest (seq 0 (length (density cloudData))).
End Texture.

(** *** Neighbour links *)

(** The offsets are the ones of the source: the lines for [m_leftCloud]
    and [m_rightCloud] add [Int2(0, -1)] and [Int2(0, 1)], as the lines
    for [m_upperCloud] and [m_lowerCloud] do. *)
Definition setUpCloudLinks (clouds : CloudIndex) (m : Store) : Store :=
  foldl (fun m (entry : (Z * Z * Z) * ObjectID) =>
           let tile : Int2 := fst (fst entry) in
           let groupId := snd (fst entry) in
           let cloudComponent := snd entry in
           update
             (setLinks
                (if (snd tile =? -1)%Z then None
                 else clouds !! ((fst tile + 0, snd tile + -1), groupId)%Z)
                (if (snd tile =? 1)%Z then None
                 else clouds !! ((fst tile + 0, snd tile + 1), groupId)%Z)
                (if (fst tile =? -1)%Z then None
                 else clouds !! ((fst tile + 0, snd tile + -1), groupId)%Z)
                (if (fst tile =? 1)%Z then None
                 else clouds !! ((fst tile + 0, snd tile + 1), groupId)%Z))
             cloudComponent m)
        m (map_to_list clouds).

(** *** Spawning and recycling *)

(** [(pos - requiredPos).HAddAbs() < Leviathan::EPSILON]. *)
Definition atPosition (pos requiredPos : Float3) : bool :=
  fltb (HAddAbs (Float3_sub pos requiredPos)) (EPSILON K).

(** First loop of [applyNewCloudPositioning]: a tile at a required
    position is entered in [clouds], every other tile in
    [m_tooFarAwayClouds]. *)
Fixpoint collectFarAway (required : list (Int2 * Float3))
  (MAX_FAR_CLOUDS : nat) (todo : Store) (clouds : CloudIndex)
  (tooFar : list (option ObjectID)) (farAwayIndex : nat)
  : CloudIndex * list (option ObjectID) * nat * list string :=
  match todo with
  | [] => (clouds, tooFar, farAwayIndex, [])
  | (e, cloudComponent) :: rest =>
      match find (fun requiredPos : Int2 * Float3 =>
                    atPosition (m_position cloudComponent) (snd requiredPos))
                 required with
      | Some requiredPos =>
          collectFarAway required MAX_FAR_CLOUDS rest
            (<[(fst requiredPos, firstCloudId K cloudComponent) := e]> clouds)
            tooFar farAwayIndex
      | None =>
          if (MAX_FAR_CLOUDS <=? farAwayIndex)%nat
          then (clouds, tooFar, farAwayIndex,
                ["CompoundCloudSystem: Logic error in calculating far away clouds that need to move"%string])
          else collectFarAway required MAX_FAR_CLOUDS rest clouds
                 (<[farAwayIndex := Some e]> tooFar) (S farAwayIndex)
      end
  end.

(** "Didn't we just do all this?": is a tile of the group at the
    position. *)
Definition hasCloud (m : Store) (groupType : CompoundId)
  (requiredPos : Float3) : bool :=
  existsb (fun e : ObjectID * CompoundCloudComponent =>
             atPosition (m_position (snd e)) requiredPos
             && Z.eqb groupType (firstCloudId K (snd e)))
          m.

(** [p->clouds[0].id] for a tile pointer [p]. *)
Definition groupOf (m : Store) (p : ObjectID) : CompoundId :=
  default (NULL_COMPOUND K) (firstCloudId K <$> deref m p).

(** The scan for a stray tile of the group, from index [checkReposition]
    on: its index in [m_tooFarAwayClouds] and the tile. *)
Fixpoint findCandidateFrom (m : Store) (groupType : CompoundId)
  (checkReposition : nat) (tooFar : list (option ObjectID))
  : option (nat * ObjectID) :=
  match tooFar with
  | [] => None
  | Some p :: rest =>
      if Z.eqb (groupOf m p) groupType then Some (checkReposition, p)
      else findCandidateFrom m groupType (S checkReposition) rest
  | None :: rest => findCandidateFrom m groupType (S checkReposition) rest
  end.

Definition findCandidate (m : Store) (tooFar : list (option ObjectID))
  (farAwayIndex : nat) (groupType : CompoundId) : option (nat * ObjectID) :=
  findCandidateFrom m groupType 0 (take farAwayIndex tooFar).

(** The loop over the required positions for one group; the [break] after
    the fatal message leaves this loop only. *)
Fixpoint fillPositions (required : list (Int2 * Float3))
  (groupType : CompoundId) (farAwayIndex : nat)
  (st : Store * CloudIndex * list (option ObjectID) * list string)
  : Store * CloudIndex * list (option ObjectID) * list string :=
  match required with
  | [] => st
  | requiredPos :: rest =>
      let '(m, clouds, tooFar, msgs) := st in
      if hasCloud m groupType (snd requiredPos)
      then fillPositions rest groupType farAwayIndex st
      else
        match findCandidate m tooFar farAwayIndex groupType with
        | Some (checkReposition, p) =>
            let m' :=
              update (Component.recycleToPosition K (snd requiredPos)) p m in
            fillPositions rest groupType farAwayIndex
              (m',
               <[(fst requiredPos, groupOf m' p) := p]> clouds,
               <[checkReposition := None]> tooFar,
               msgs)
        | None =>
            (m, clouds, tooFar,
             msgs ++ ["CompoundCloudSystem: Logic error in moving far clouds, didn't find any to use for needed pos"%string])
        end
  end.

Definition groupStarts (s : CompoundCloudSystem) : list nat :=
  strideFrom (length (m_cloudTypes s)) 0 (length (m_cloudTypes s))
    CLOUDS_IN_ONE.

(** The loop over the cloud groups that moves stray tiles to the
    positions without a tile. *)
Definition moveFarClouds (s : CompoundCloudSystem)
  (required : list (Int2 * Float3)) (farAwayIndex : nat)
  (st : Store * CloudIndex * list (option ObjectID) * list string)
  : Store * CloudIndex * list (option ObjectID) * list string :=
  foldl (fun st c =>
           match m_cloudTypes s !! c with
           | Some compound =>
               fillPositions required (compound_id compound) farAwayIndex st
           | None => st
           end)
        st (groupStarts s).

(** The final loop: a message for every stray tile that was not moved. *)
Definition reportUnmoved (farAwayIndex : nat)
  (tooFar : list (option ObjectID)) (msgs : list string) : list string :=
  foldl (fun msgs (o : option ObjectID) =>
           match o with
           | Some _ =>
               msgs ++ ["CompoundCloudSystem: Logic error in moving far clouds, a cloud that should have been moved wasn't moved"%string]
           | None => msgs
           end)
        msgs (take farAwayIndex tooFar).

Definition applyNewCloudPositioning (s : CompoundCloudSystem)
  : CompoundCloudSystem :=
  let requiredCloudPositions :=
    calculateGridPositions K (m_cloudGridCenter s) in
  let MAX_FAR_CLOUDS := length (m_managedClouds s) in
  let tooFar0 :=
    if negb (length (m_tooFarAwayClouds s) =? MAX_FAR_CLOUDS)%nat
    then resize MAX_FAR_CLOUDS (m_tooFarAwayClouds s)
    else m_tooFarAwayClouds s in
  let '(clouds1, tooFar1, farAwayIndex, msgs1) :=
    collectFarAway requiredCloudPositions MAX_FAR_CLOUDS
      (m_managedClouds s) ∅ tooFar0 0 in
  let '(m2, clouds2, tooFar2, msgs2) :=
    moveFarClouds s requiredCloudPositions farAwayIndex
      (m_managedClouds s, clouds1, tooFar1, msgs1) in
  mkSystem (m_cloudTypes s) (setUpCloudLinks clouds2 m2)
    (m_cloudGridCenter s) tooFar2 (nextEntity s)
    (logged s ++ reportUnmoved farAwayIndex tooFar2 msgs2).

(** [initializeCloud] without graphics. *)
Definition initializeCloud (cloud : CompoundCloudComponent)
  : CompoundCloudComponent :=
  setInitialized true
    (setClouds (map (Component.clearCloudData K) (clouds cloud)) cloud).

Definition _spawnCloud (s : CompoundCloudSystem) (pos : Float3)
  (startIndex : nat) : Outcome CompoundCloudSystem :=
  let entity := nextEntity s in
  let aux i := m_cloudTypes s !! (startIndex + i)%nat in
  cloud ← Component.create K (aux 0%nat) (aux 1%nat) (aux 2%nat) (aux 3%nat);
  Done (setNextEntity (entity + 1)%Z
          (setManagedClouds
             (m_managedClouds s
              ++ [(entity, initializeCloud (setPosition pos cloud))])
             s)).

(** The number of tiles the assertion of [doSpawnCycle] asks for. *)
Definition expectedCloudCount (s : CompoundCloudSystem) : nat :=
  ((length (m_cloudTypes s) + 4 - 1) / 4 * 4) / 4 * 9.

(** The first part of [doSpawnCycle]: "Initial spawning if everything is
    empty". *)
Definition initialSpawn (s : CompoundCloudSystem)
  : Outcome CompoundCloudSystem :=
  let s0 := setCloudGridCenter (mkFloat3 0 0 0) s in
  let requiredCloudPositions :=
    calculateGridPositions K (m_cloudGridCenter s0) in
  s' ← forEachO
         (fun s i =>
            forEachO (fun s (pos : Int2 * Float3) =>
                        _spawnCloud s (snd pos) i)
                     s requiredCloudPositions)
         s0 (groupStarts s0);
  Done (applyNewCloudPositioning s').

(** The second part of [doSpawnCycle]: the assertion on the number of
    tiles, then the move of the grid centre. *)
Definition recenter (s : CompoundCloudSystem) (playerPos : Float3)
  : Outcome CompoundCloudSystem :=
  if negb (length (m_managedClouds s) =? expectedCloudCount s)%nat
  then Aborted AssertionFailed
  else
    let targetCenter := calculateGridCenterForPlayerPos K playerPos in
    if Float3_neq (m_cloudGridCenter s) targetCenter
    then Done (applyNewCloudPositioning (setCloudGridCenter targetCenter s))
    else Done s.

Definition doSpawnCycle (s : CompoundCloudSystem) (playerPos : Float3)
  : Outcome CompoundCloudSystem :=
  s1 ← match m_managedClouds s with
       | [] => initialSpawn s
       | _ :: _ => Done s
       end;
  recenter s1 playerPos.

Definition registerCloudTypes (s : CompoundCloudSystem)
  (clouds : list Compound) : Outcome CompoundCloudSystem :=
  doSpawnCycle (setCloudTypes clouds s) (mkFloat3 0 0 0).

(** [cloudReportDestroyed]: the destructor of a tile takes it out of
    [m_managedClouds]. *)
Fixpoint eraseCloud (cloud : ObjectID) (m : Store) : option Store :=
  match m with
  | [] => None
  | e :: rest =>
      if Z.eqb (fst e) cloud then Some rest
      else (fun rest' => e :: rest') <$> eraseCloud cloud rest
  end.

Definition cloudReportDestroyed (s : CompoundCloudSystem) (cloud : ObjectID)
  : CompoundCloudSystem :=
  match eraseCloud cloud (m_managedClouds s) with
  | Some m => setManagedClouds m s
  | None =>
      log "CompoundCloudSystem: non-registered CompoundCloudComponent reported that it was destroyed" s
  end.

(** [Run] on the authoritative side, with the position of the player
    entity already looked up ([position] is the origin when there is
    none). *)
Definition Run (getVelocityAt : Float2 -> Float2) (s : CompoundCloudSystem)
  (position : Float3) : Outcome CompoundCloudSystem :=
  let renderTime := TICKSPEED K in
  s1 ← doSpawnCycle s position;
  m ← forEachO
        (fun m (value : ObjectID * CompoundCloudComponent) =>
           match deref m (fst value) with
           | Some c =>
               if m_initialized c
               then Done (processCloud getVelocityAt (fst value)
                            renderTime m)
               else Aborted AssertionFailed
           | None => Done m
           end)
        (m_managedClouds s1) (m_managedClouds s1);
  Done (setManagedClouds m s1).
End System.
End System.

(** * Vocabulary of the properties *)

(** ** Cells that exist *)

(** The cell [(x, y)] exists in the field. *)
Definition inField (f : Field) (x y : nat) : Prop :=
  exists col, f !! x = Some col /\ (y < length col)%nat.

(** Slot [slot] of the tile has the cell [(x, y)] in its history field. *)
Definition oldCell (c : CompoundCloudComponent) (slot x y : nat) : Prop :=
  exists cd, clouds c !! slot = Some cd /\ inField (oldDensity cd) x y.

(** Slot [slot] of the tile has the cell [(x, y)] in its live field. *)
Definition densityCell (c : CompoundCloudComponent) (slot x y : nat) : Prop :=
  exists cd, clouds c !! slot = Some cd /\ inField (density cd) x y.

Definition storeOldCell (m : Store) (p : ObjectID) (slot x y : nat) : Prop :=
  exists c, deref m p = Some c /\ oldCell c slot x y.

Definition storeDensityCell (m : Store) (p : ObjectID) (slot x y : nat)
  : Prop :=
  exists c, deref m p = Some c /\ densityCell c slot x y.

(** ** The order of the double loops *)

(** The cells in the order in which [forCells] visits them. *)
Definition cellsOf (w h : nat) : list (nat * nat) :=
  flat_map (fun x => map (pair x) (seq 0 h)) (seq 0 w).

(** The cells visited before [(x, y)] and after it. *)
Definition cellsBefore (h x y : nat) : list (nat * nat) :=
  flat_map (fun x => map (pair x) (seq 0 h)) (seq 0 x)
  ++ map (pair x) (seq 0 y).

Definition cellsAfter (w h x y : nat) : list (nat * nat) :=
  map (pair x) (seq (S y) (h - S y))
  ++ flat_map (fun x => map (pair x) (seq 0 h)) (seq (S x) (w - S x)).

(** The loop bodies of [diffuse] and [advect] on a cell given as a pair. *)
Definition diffuseStep (K : Constants) (a : Q) (p : ObjectID) (slot : nat)
  (m : Store) (c : nat * nat) : Store :=
  System.diffuseCell K a p slot m (fst c) (snd c).

Definition advectStep (K : Constants) (getVelocityAt : Float2 -> Float2)
  (dt : Z) (pos : Float2) (p : ObjectID) (slot : nat) (m : Store)
  (c : nat * nat) : Store :=
  System.advectCell K getVelocityAt dt pos p slot m (fst c) (snd c).

Definition clearStep (p : ObjectID) (slot : nat) (m : Store) (c : nat * nat)
  : Store :=
  System.writeDensity m p slot (fst c) (snd c) 0%Q.

(** ** Diffusion *)

(** The value that one pass of [diffuse] leaves in the history field at
    [(x, y)]: the live density of the cell and the history values of its
    four neighbours as the pass finds them.  The pass runs in place, [x]
    ascending and [y] ascending within: the upper and the left neighbour
    inside the field already hold the values of this pass ([m'], the
    store after the pass), the lower and the right one still hold the
    values from before ([m]).  On an edge the value is the one of the
    adjacent tile, or [0] without one. *)
Definition inPlaceDiffusionValue (K : Constants) (a : Q) (m m' : Store)
  (p : ObjectID) (slot : nat) (c : CompoundCloudComponent) (x y : nat) : Q :=
  let up :=
    if (0 <? y)%nat then System.readOld m' p slot x (y - 1)
    else System.neighbourOld m (m_upperCloud c) slot x
           (CLOUD_SIMULATION_HEIGHT K - 1) in
  let down :=
    if (y <? CLOUD_SIMULATION_HEIGHT K - 1)%nat
    then System.readOld m p slot x (y + 1)
    else System.neighbourOld m (m_lowerCloud c) slot x 0 in
  let left :=
    if (0 <? x)%nat then System.readOld m' p slot (x - 1) y
    else System.neighbourOld m (m_leftCloud c) slot
           (CLOUD_SIMULATION_WIDTH K - 1) y in
  let right :=
    if (x <? CLOUD_SIMULATION_WIDTH K - 1)%nat
    then System.readOld m p slot (x + 1) y
    else System.neighbourOld m (m_rightCloud c) slot 0 y in
  (System.readDensity m p slot x y * (1 - a)
   + (up + down + left + right) * a / 4)%Q.

(** The diffusion formula in the words of the specification, for
    comparison with the code: the cell's own term and its four neighbours
    are all read from the history field as it is before the pass ([m]). *)
Definition historyDiffusionValue (K : Constants) (a : Q) (m : Store)
  (p : ObjectID) (slot x y : nat) : Q :=
  let link sel := deref m p ≫= sel in
  let up :=
    if (0 <? y)%nat then System.readOld m p slot x (y - 1)
    else System.neighbourOld m (link m_upperCloud) slot x
           (CLOUD_SIMULATION_HEIGHT K - 1) in
  let down :=
    if (y <? CLOUD_SIMULATION_HEIGHT K - 1)%nat
    then System.readOld m p slot x (y + 1)
    else System.neighbourOld m (link m_lowerCloud) slot x 0 in
  let left :=
    if (0 <? x)%nat then System.readOld m p slot (x - 1) y
    else System.neighbourOld m (link m_leftCloud) slot
           (CLOUD_SIMULATION_WIDTH K - 1) y in
  let right :=
    if (x <? CLOUD_SIMULATION_WIDTH K - 1)%nat
    then System.readOld m p slot (x + 1) y
    else System.neighbourOld m (link m_rightCloud) slot 0 y in
  (System.readOld m p slot x y * (1 - a)
   + (up + down + left + right) * a / 4)%Q.

(** ** Tiles of a system *)

(** The four neighbour links of a tile. *)
Definition linksOf (c : CompoundCloudComponent) :=
  (m_upperCloud c, m_lowerCloud c, m_leftCloud c, m_rightCloud c).


(** One projection of every tile, by owning entity. *)
Definition tileView {A : Type} (g : CompoundCloudComponent -> A) (m : Store)
  : list (ObjectID * A) :=
  map (fun e => (fst e, g (snd e))) m.

(** A projection that does not look at the slots of the tile. *)
Definition ignoresClouds {A : Type} (g : CompoundCloudComponent -> A)
  : Prop :=
  forall l c, g (setClouds l c) = g c.

(** What no pass of the solver and no recycling changes: which entities
    own a tile and whether the tile has been initialised. *)
Definition roster (m : Store) : list (ObjectID * bool) :=
  tileView m_initialized m.

Definition allInitialized (m : Store) : Prop :=
  Forall (fun e => snd e = true) (roster m).

(** Where the tiles are and which compounds their slots carry. *)
Definition placement (m : Store) : list (Float3 * list CompoundId) :=
  map (fun e => (m_position (snd e), map cloud_id (clouds (snd e)))) m.

(** The slot ids of the group that starts at index [i] of the types. *)
Definition groupIds (K : Constants) (types : list Compound) (i : nat)
  : list CompoundId :=
  map (fun aux : option Compound =>
         match aux with
         | Some c => compound_id c
         | None => NULL_COMPOUND K
         end)
      [types !! (i + 0)%nat; types !! (i + 1)%nat; types !! (i + 2)%nat;
       types !! (i + 3)%nat].

(** The placement that the start-up loops of [doSpawnCycle] produce: for
    every group, one tile at each required position around the origin. *)
Definition spawnedPlacement (K : Constants) (types : list Compound)
  : list (Float3 * list CompoundId) :=
  flat_map (fun i =>
              map (fun pos : Int2 * Float3 => (snd pos, groupIds K types i))
                  (calculateGridPositions K (mkFloat3 0 0 0)))
           (strideFrom (length types) 0 (length types) CLOUDS_IN_ONE).

(** What holds of the state after any spawn cycle that ends normally. *)
Definition settled (K : Constants) (s : CompoundCloudSystem)
  (playerPos : Float3) : Prop :=
  length (m_managedClouds s) = System.expectedCloudCount s /\
  Float3_neq (m_cloudGridCenter s)
    (calculateGridCenterForPlayerPos K playerPos) = false.


(** ** Fields of the right size *)

(** The field has [CLOUD_SIMULATION_WIDTH] columns of
    [CLOUD_SIMULATION_HEIGHT] cells. *)
Definition fieldSized (K : Constants) (f : Field) : bool :=
  (length f =? CLOUD_SIMULATION_WIDTH K)%nat
  && forallb (fun col : list Q =>
                (length col =? CLOUD_SIMULATION_HEIGHT K)%nat) f.

Definition tileSized (K : Constants) (c : CompoundCloudComponent) : bool :=
  forallb (fun cd => fieldSized K (density cd) && fieldSized K (oldDensity cd))
          (clouds c).

Definition storeSized (K : Constants) (m : Store) : bool :=
  forallb (fun e : ObjectID * CompoundCloudComponent => tileSized K (snd e)) m.

(** The cells of a field, in the order of the double loop over
    [f.size()] and [f[x].size()]. *)
Definition fieldCells (f : Field) : list (nat * nat) :=
  flat_map (fun x => map (pair x) (seq 0 (length (default [] (f !! x)))))
           (seq 0 (length f)).

(** The tile holds no compound: the live field of every slot that
    carries a compound is zero everywhere. *)
Definition holdsNothing (K : Constants) (c : CompoundCloudComponent) : Prop :=
  forall cd, In cd (clouds c) -> cloud_id cd <> NULL_COMPOUND K ->
             forall x y, fieldGet (density cd) x y = 0%Q.

(** ** Densities that are not negative *)

Definition fieldNonNegative (f : Field) : bool :=
  forallb (forallb (Qle_bool 0)) f.

Definition tileNonNegative (c : CompoundCloudComponent) : bool :=
  forallb (fun cd => fieldNonNegative (density cd)
                     && fieldNonNegative (oldDensity cd))
          (clouds c).

Definition storeNonNegative (m : Store) : bool :=
  forallb (fun e : ObjectID * CompoundCloudComponent =>
             tileNonNegative (snd e)) m.

(** ** Mass *)




(** ** Strays and gaps of the grid *)

(** The tile is at none of the required positions. *)
Definition isStray (K : Constants) (required : list (Int2 * Float3))
  (c : CompoundCloudComponent) : bool :=
  forallb (fun r : Int2 * Float3 =>
             negb (System.atPosition K (m_position c) (snd r)))
          required.

(** The stray tiles of a group, and the required positions that have no
    tile of the group. *)
Definition strays (K : Constants) (required : list (Int2 * Float3))
  (m : Store) (g : CompoundId) : list ObjectID :=
  map fst
    (List.filter (fun e : ObjectID * CompoundCloudComponent =>
                    isStray K required (snd e)
                    && Z.eqb (firstCloudId K (snd e)) g)
                 m).

Definition gaps (K : Constants) (required : list (Int2 * Float3))
  (m : Store) (g : CompoundId) : list (Int2 * Float3) :=
  List.filter (fun r : Int2 * Float3 => negb (System.hasCloud K m g (snd r)))
              required.

(** A property of every group of the cloud types, by the id of its first
    type. *)
Definition forGroups (s : CompoundCloudSystem) (f : CompoundId -> bool)
  : bool :=
  forallb (fun c => match m_cloudTypes s !! c with
                    | Some compound => f (compound_id compound)
                    | None => true
                    end)
          (System.groupStarts s).

(** Every group has a tile at every required position. *)
Definition gridComplete (K : Constants) (s : CompoundCloudSystem) : bool :=
  forGroups s
    (fun g =>
       forallb (fun r : Int2 * Float3 =>
                  System.hasCloud K (m_managedClouds s) g (snd r))
               (calculateGridPositions K (m_cloudGridCenter s))).

(** Every group has at least as many stray tiles as gaps. *)
Definition enoughStrays (K : Constants) (s : CompoundCloudSystem) : bool :=
  forGroups s
    (fun g =>
       (length (gaps K (calculateGridPositions K (m_cloudGridCenter s))
                  (m_managedClouds s) g)
        <=? length (strays K (calculateGridPositions K (m_cloudGridCenter s))
                      (m_managedClouds s) g))%nat).

(** The state of the second loop of [applyNewCloudPositioning]: the
    entries of the stray list below [farAwayIndex] that are not null are
    distinct tiles of the system, each still away from every required
    position. *)
Definition straysListed (K : Constants) (required : list (Int2 * Float3))
  (farAwayIndex : nat) (m : Store) (tooFar : list (option ObjectID)) : Prop :=
  NoDup (map fst m) /\
  NoDup (omap id (take farAwayIndex tooFar)) /\
  forall q, In q (omap id (take farAwayIndex tooFar)) ->
            exists c, deref m q = Some c /\ isStray K required c = true.

(** The listed strays of a group: the candidates for its gaps. *)
Definition candidates (K : Constants) (farAwayIndex : nat) (m : Store)
  (tooFar : list (option ObjectID)) (g : CompoundId) : list ObjectID :=
  List.filter (fun q => Z.eqb (System.groupOf K m q) g)
              (omap id (take farAwayIndex tooFar)).

(** * A small world

    A grid with fields of 2 x 2 cells of world size 2, tiles of half
    extent 2 that are 4 apart, and one compound type.  [started] is the
    system after [registerCloudTypes]: nine tiles, the entities 1 to 9,
    entity 5 at the origin.  [fed] has 8 units of the compound added at
    the origin, [ticked] is [fed] after one [Run] with the player at
    [(1, 0, 0)], and [abandoned] is [started] after all nine tiles were
    reported destroyed. *)

Module Example.
Definition K : Constants :=
  mkConstants 2 2 2 4 4 2 2 (1 # 100000000) 65535%Z 50%Z.

Definition compoundA : Compound := mkCompound 1%Z 1.

Definition origin : Float3 := mkFloat3 0 0 0.

Definition drift (_ : Float2) : Float2 := mkFloat2 (1 # 10) 0.

Definition orDefault (o : Outcome CompoundCloudSystem)
  : CompoundCloudSystem :=
  match o with
  | Done s => s
  | Aborted _ => emptySystem
  end.

Definition started : CompoundCloudSystem :=
  orDefault (System.registerCloudTypes K emptySystem [compoundA]).

Definition fed : CompoundCloudSystem :=
  match System.addCloud K started 1%Z 8 origin with
  | Done (_, s) => s
  | Aborted _ => started
  end.

Definition centreTile (s : CompoundCloudSystem) : CompoundCloudComponent :=
  default (mkComponent [] origin false None None None None)
    (deref (m_managedClouds s) 5%Z).


Definition ticked : CompoundCloudSystem :=
  orDefault (System.Run K drift fed (mkFloat3 1 0 0)).

(** [fed] after a spawn cycle with the player at [(5, 0, 0)], which moves
    the grid centre to [(4, 0, 0)]. *)
Definition moved : CompoundCloudSystem :=
  orDefault (System.doSpawnCycle K fed (mkFloat3 5 0 0)).
End Example.

(** * Properties *)

(** ** Arithmetic *)

Lemma fltb_lt a b : fltb a b = true <-> (a < b)%Q.
Proof.
  unfold fltb. rewrite negb_true_iff.
  destruct (Qle_bool b a) eqn:E.
  - apply Qle_bool_iff in E. split; [discriminate | intros; lra].
  - split; [intros _ | reflexivity].
    destruct (Qlt_le_dec a b) as [?|Hle]; [assumption|].
    apply Qle_bool_iff in Hle. congruence.
Qed.

Lemma fltb_ge a b : fltb a b = false <-> (b <= a)%Q.
Proof.
  unfold fltb. rewrite negb_false_iff. apply Qle_bool_iff.
Qed.




(** ** Containment *)

Lemma fleb_gt a b : fleb a b = false <-> (b < a)%Q.
Proof.
  unfold fleb. split; intros H.
  - destruct (Qlt_le_dec b a) as [?|Hle]; [assumption|].
    apply Qle_bool_iff in Hle. congruence.
  - destruct (Qle_bool a b) eqn:E; [|reflexivity].
    apply Qle_bool_iff in E. lra.
Qed.

Lemma cloudContainsPosition_spec K c p :
  cloudContainsPosition K c p = true <->
  (f3X c - CLOUD_WIDTH K <= f3X p)%Q /\ (f3X p < f3X c + CLOUD_WIDTH K)%Q /\
  (f3Z c - CLOUD_HEIGHT K <= f3Z p)%Q /\ (f3Z p < f3Z c + CLOUD_HEIGHT K)%Q.
Proof.
  unfold cloudContainsPosition.
  rewrite negb_true_iff, !orb_false_iff.
  rewrite !fltb_ge, !fleb_gt. tauto.
Qed.

Lemma Q_multiple_apart (k : Z) (w : Q) :
  k <> 0%Z -> (0 < w)%Q ->
  (2 * w <= inject_Z k * (2 * w))%Q \/ (inject_Z k * (2 * w) <= - (2 * w))%Q.
Proof.
  intros Hk Hw.
  destruct (Z_lt_le_dec k 0) as [Hneg|Hpos].
  - right. assert (inject_Z k <= -1)%Q.
    { assert (k <= -1)%Z as Hle by lia. rewrite Zle_Qle in Hle. exact Hle. }
    nra.
  - left. assert (1 <= inject_Z k)%Q.
    { assert (1 <= k)%Z as Hle by lia. rewrite Zle_Qle in Hle. exact Hle. }
    nra.
Qed.

(** C5.  [cloudContainsPosition] is the half-open rectangle test
    [c.X - CLOUD_WIDTH <= p.X < c.X + CLOUD_WIDTH], likewise on Z.  With
    the tile extent twice the half extent, two tiles whose centres differ
    by a non-zero multiple of the extent on an axis never both contain a
    point, and a point on the boundary that two adjacent tiles share is in
    the tile whose lower bound it is and not in the other. *)
Theorem containsPosition_half_open_exclusive (K : Constants) :
  (CLOUD_X_EXTENT K == 2 * CLOUD_WIDTH K)%Q ->
  (CLOUD_Y_EXTENT K == 2 * CLOUD_HEIGHT K)%Q ->
  (forall c p,
     cloudContainsPosition K c p = true <->
     (f3X c - CLOUD_WIDTH K <= f3X p)%Q /\
     (f3X p < f3X c + CLOUD_WIDTH K)%Q /\
     (f3Z c - CLOUD_HEIGHT K <= f3Z p)%Q /\
     (f3Z p < f3Z c + CLOUD_HEIGHT K)%Q) /\
  (forall c1 c2 p (k : Z),
     k <> 0%Z ->
     (f3X c2 == f3X c1 + inject_Z k * CLOUD_X_EXTENT K)%Q \/
     (f3Z c2 == f3Z c1 + inject_Z k * CLOUD_Y_EXTENT K)%Q ->
     cloudContainsPosition K c1 p = true ->
     cloudContainsPosition K c2 p = false) /\
  (forall c1 c2 p,
     (f3X c2 == f3X c1 + CLOUD_X_EXTENT K)%Q ->
     (f3Z c2 == f3Z c1)%Q ->
     (f3X p == f3X c2 - CLOUD_WIDTH K)%Q ->
     (0 < CLOUD_WIDTH K)%Q ->
     (f3Z c2 - CLOUD_HEIGHT K <= f3Z p)%Q ->
     (f3Z p < f3Z c2 + CLOUD_HEIGHT K)%Q ->
     cloudContainsPosition K c1 p = false /\
     cloudContainsPosition K c2 p = true) /\
  (forall c1 c2 p,
     (f3Z c2 == f3Z c1 + CLOUD_Y_EXTENT K)%Q ->
     (f3X c2 == f3X c1)%Q ->
     (f3Z p == f3Z c2 - CLOUD_HEIGHT K)%Q ->
     (0 < CLOUD_HEIGHT K)%Q ->
     (f3X c2 - CLOUD_WIDTH K <= f3X p)%Q ->
     (f3X p < f3X c2 + CLOUD_WIDTH K)%Q ->
     cloudContainsPosition K c1 p = false /\
     cloudContainsPosition K c2 p = true).
Proof.
  intros HX HY. split; [apply cloudContainsPosition_spec|].
  split; [|split].
  - intros c1 c2 p k Hk Hc H1. apply cloudContainsPosition_spec in H1.
    destruct H1 as (Ha & Hb & Hc' & Hd).
    apply not_true_is_false. intros H2.
    apply cloudContainsPosition_spec in H2.
    destruct H2 as (Ha2 & Hb2 & Hc2 & Hd2).
    destruct Hc as [Hc|Hc].
    + assert (0 < CLOUD_WIDTH K)%Q as Hw by lra.
      destruct (Q_multiple_apart k _ Hk Hw) as [Hm|Hm];
        rewrite Hc, HX in *; lra.
    + assert (0 < CLOUD_HEIGHT K)%Q as Hw by lra.
      destruct (Q_multiple_apart k _ Hk Hw) as [Hm|Hm];
        rewrite Hc, HY in *; lra.
  - intros c1 c2 p Hc2 Hz Hp Hw Hz1 Hz2. split.
    + apply not_true_is_false. intros H1.
      apply cloudContainsPosition_spec in H1. lra.
    + apply cloudContainsPosition_spec. lra.
  - intros c1 c2 p Hc2 Hx Hp Hw Hx1 Hx2. split.
    + apply not_true_is_false. intros H1.
      apply cloudContainsPosition_spec in H1. lra.
    + apply cloudContainsPosition_spec. lra.
Qed.

(** ** World position to cell *)



(** ** Fields, pointers and cells *)

(** *** Fields *)

Lemma fieldGet_fieldSet_eq f x y v :
  inField f x y -> fieldGet (fieldSet f x y v) x y = v.
Proof.
  intros (col & Hcol & Hy). unfold fieldGet, fieldSet.
  rewrite list_lookup_alter_eq, Hcol. cbn.
  rewrite list_lookup_insert_eq by assumption. reflexivity.
Qed.

Lemma fieldGet_fieldSet_ne f x y v x' y' :
  (x, y) <> (x', y') -> fieldGet (fieldSet f x y v) x' y' = fieldGet f x' y'.
Proof.
  intros Hne. unfold fieldGet, fieldSet.
  destruct (decide (x = x')) as [->|Hx].
  - rewrite list_lookup_alter_eq.
    destruct (f !! x') as [col|]; cbn; [|reflexivity].
    rewrite list_lookup_insert_ne by congruence. reflexivity.
  - rewrite list_lookup_alter_ne by assumption. reflexivity.
Qed.

Lemma inField_fieldSet f x y v x' y' :
  inField (fieldSet f x y v) x' y' <-> inField f x' y'.
Proof.
  unfold inField, fieldSet.
  destruct (decide (x = x')) as [->|Hx].
  - rewrite list_lookup_alter_eq.
    destruct (f !! x') as [col|]; cbn.
    + split; intros (col' & Heq & Hlen); inversion Heq; subst.
      * rewrite length_insert in Hlen. eauto.
      * eexists; split; [reflexivity|]. rewrite length_insert. assumption.
    + split; intros (col' & Heq & _); discriminate.
  - rewrite list_lookup_alter_ne by assumption. reflexivity.
Qed.

(** *** Pointers *)

Lemma deref_update f p q m :
  deref (update f p m) q
  = if Z.eqb q p then f <$> deref m q else deref m q.
Proof.
  unfold deref, update. induction m as [|[e c] m IH]; cbn.
  - destruct (Z.eqb q p); reflexivity.
  - destruct (Z.eqb e p) eqn:Ep; cbn.
    + destruct (Z.eqb e q) eqn:Eq; cbn.
      * apply Z.eqb_eq in Ep, Eq. subst. rewrite Z.eqb_refl. reflexivity.
      * exact IH.
    + destruct (Z.eqb e q) eqn:Eq; cbn.
      * apply Z.eqb_eq in Eq. subst. rewrite Ep. reflexivity.
      * exact IH.
Qed.

Lemma deref_update_eq f p m : deref (update f p m) p = f <$> deref m p.
Proof. rewrite deref_update, Z.eqb_refl. reflexivity. Qed.

(** A projection of a tile that an update leaves alone is read the same
    through every pointer. *)
Lemma deref_update_proj {A} (g : CompoundCloudComponent -> A) f p q m :
  (forall c, g (f c) = g c) ->
  g <$> deref (update f p m) q = g <$> deref m q.
Proof.
  intros Hg. rewrite deref_update.
  destruct (Z.eqb q p); [|reflexivity].
  destruct (deref m q); cbn; [rewrite Hg|]; reflexivity.
Qed.

(** *** Cells of a tile *)

Lemma slotOld_setOld_eq c slot x y v :
  oldCell c slot x y ->
  Component.slotOldDensity (Component.setSlotOldDensity slot x y v c) slot x y
  = v.
Proof.
  intros (cd & Hcd & Hin).
  unfold Component.slotOldDensity, Component.setSlotOldDensity, alterSlot.
  cbn. rewrite list_lookup_alter_eq, Hcd. cbn.
  apply fieldGet_fieldSet_eq. assumption.
Qed.

Lemma slotOld_setOld_ne c slot x y v slot' x' y' :
  (slot, x, y) <> (slot', x', y') ->
  Component.slotOldDensity (Component.setSlotOldDensity slot x y v c)
    slot' x' y'
  = Component.slotOldDensity c slot' x' y'.
Proof.
  intros Hne.
  unfold Component.slotOldDensity, Component.setSlotOldDensity, alterSlot.
  cbn. destruct (decide (slot = slot')) as [->|Hs].
  - rewrite list_lookup_alter_eq.
    destruct (clouds c !! slot') as [cd|]; cbn; [|reflexivity].
    apply fieldGet_fieldSet_ne. congruence.
  - rewrite list_lookup_alter_ne by assumption. reflexivity.
Qed.

Lemma slotDensity_setOld c slot x y v slot' x' y' :
  Component.slotDensity (Component.setSlotOldDensity slot x y v c) slot' x' y'
  = Component.slotDensity c slot' x' y'.
Proof.
  unfold Component.slotDensity, Component.setSlotOldDensity, alterSlot.
  cbn. destruct (decide (slot = slot')) as [->|Hs].
  - rewrite list_lookup_alter_eq.
    destruct (clouds c !! slot') as [cd|]; reflexivity.
  - rewrite list_lookup_alter_ne by assumption. reflexivity.
Qed.

Lemma slotDensity_setDensity_eq c slot x y v :
  densityCell c slot x y ->
  Component.slotDensity (Component.setSlotDensity slot x y v c) slot x y = v.
Proof.
  intros (cd & Hcd & Hin).
  unfold Component.slotDensity, Component.setSlotDensity, alterSlot.
  cbn. rewrite list_lookup_alter_eq, Hcd. cbn.
  apply fieldGet_fieldSet_eq. assumption.
Qed.

Lemma slotDensity_setDensity_ne c slot x y v slot' x' y' :
  (slot, x, y) <> (slot', x', y') ->
  Component.slotDensity (Component.setSlotDensity slot x y v c) slot' x' y'
  = Component.slotDensity c slot' x' y'.
Proof.
  intros Hne.
  unfold Component.slotDensity, Component.setSlotDensity, alterSlot.
  cbn. destruct (decide (slot = slot')) as [->|Hs].
  - rewrite list_lookup_alter_eq.
    destruct (clouds c !! slot') as [cd|]; cbn; [|reflexivity].
    apply fieldGet_fieldSet_ne. congruence.
  - rewrite list_lookup_alter_ne by assumption. reflexivity.
Qed.

Lemma slotOld_setDensity c slot x y v slot' x' y' :
  Component.slotOldDensity (Component.setSlotDensity slot x y v c) slot' x' y'
  = Component.slotOldDensity c slot' x' y'.
Proof.
  unfold Component.slotOldDensity, Component.setSlotDensity, alterSlot.
  cbn. destruct (decide (slot = slot')) as [->|Hs].
  - rewrite list_lookup_alter_eq.
    destruct (clouds c !! slot') as [cd|]; reflexivity.
  - rewrite list_lookup_alter_ne by assumption. reflexivity.
Qed.

Lemma oldCell_setOld c slot x y v slot' x' y' :
  oldCell (Component.setSlotOldDensity slot x y v c) slot' x' y'
  <-> oldCell c slot' x' y'.
Proof.
  unfold oldCell, Component.setSlotOldDensity, alterSlot. cbn.
  destruct (decide (slot = slot')) as [->|Hs].
  - rewrite list_lookup_alter_eq.
    destruct (clouds c !! slot') as [cd|]; cbn.
    + split; intros (cd' & Heq & Hin); inversion Heq; subst; cbn in *.
      * apply inField_fieldSet in Hin. eauto.
      * eexists; split; [reflexivity|]. cbn. apply inField_fieldSet. assumption.
    + split; intros (cd' & Heq & _); discriminate.
  - rewrite list_lookup_alter_ne by assumption. reflexivity.
Qed.

Lemma densityCell_setDensity c slot x y v slot' x' y' :
  densityCell (Component.setSlotDensity slot x y v c) slot' x' y'
  <-> densityCell c slot' x' y'.
Proof.
  unfold densityCell, Component.setSlotDensity, alterSlot. cbn.
  destruct (decide (slot = slot')) as [->|Hs].
  - rewrite list_lookup_alter_eq.
    destruct (clouds c !! slot') as [cd|]; cbn.
    + split; intros (cd' & Heq & Hin); inversion Heq; subst; cbn in *.
      * apply inField_fieldSet in Hin. eauto.
      * eexists; split; [reflexivity|]. cbn. apply inField_fieldSet. assumption.
    + split; intros (cd' & Heq & _); discriminate.
  - rewrite list_lookup_alter_ne by assumption. reflexivity.
Qed.

(** ** The order of the cells *)

Lemma foldl_map {A B C} (f : A -> C -> A) (g : B -> C) (l : list B) (a : A) :
  foldl f a (map g l) = foldl (fun a b => f a (g b)) a l.
Proof.
  revert a. induction l as [|b l IH]; intros a; cbn; [reflexivity|apply IH].
Qed.

Lemma forCells_cellsOf {S} w h (body : S -> nat -> nat -> S) (s : S) :
  forCells w h body s
  = foldl (fun s c => body s (fst c) (snd c)) s (cellsOf w h).
Proof.
  unfold forCells, cellsOf. generalize (seq 0 w) as xs. intros xs. revert s.
  induction xs as [|x xs IH]; intros s; cbn; [reflexivity|].
  rewrite foldl_app, foldl_map. cbn. apply IH.
Qed.

Lemma seq_split_at (n k : nat) :
  (k < n)%nat -> seq 0 n = seq 0 k ++ k :: seq (S k) (n - S k).
Proof.
  intros Hk. replace n with (k + S (n - S k))%nat at 1 by lia.
  rewrite seq_app. cbn. reflexivity.
Qed.

Lemma cellsOf_split w h x y :
  (x < w)%nat -> (y < h)%nat ->
  cellsOf w h = cellsBefore h x y ++ (x, y) :: cellsAfter w h x y.
Proof.
  intros Hx Hy. unfold cellsOf, cellsBefore, cellsAfter.
  assert (map (pair x) (seq 0 h)
          = map (pair x) (seq 0 y)
            ++ (x, y) :: map (pair x) (seq (S y) (h - S y))) as E.
  { rewrite (seq_split_at h y Hy), map_app. reflexivity. }
  rewrite (seq_split_at w x Hx), flat_map_app. cbn [flat_map].
  rewrite E, <- !app_assoc. reflexivity.
Qed.

Lemma In_cellsBefore h x y x' y' :
  In (x', y') (cellsBefore h x y) <->
  ((x' < x)%nat /\ (y' < h)%nat) \/ (x' = x /\ (y' < y)%nat).
Proof.
  unfold cellsBefore. rewrite in_app_iff, in_flat_map.
  split.
  - intros [(x0 & Hx0 & Hin)|Hin].
    + apply in_map_iff in Hin. destruct Hin as (y0 & Heq & Hy0).
      inversion Heq; subst. apply in_seq in Hx0, Hy0. left. lia.
    + apply in_map_iff in Hin. destruct Hin as (y0 & Heq & Hy0).
      inversion Heq; subst. apply in_seq in Hy0. right. lia.
  - intros [[Hx Hy]|[-> Hy]].
    + left. exists x'. split; [apply in_seq; lia|].
      apply in_map. apply in_seq. lia.
    + right. apply in_map. apply in_seq. lia.
Qed.

Lemma In_cellsAfter w h x y x' y' :
  In (x', y') (cellsAfter w h x y) <->
  (x' = x /\ (y < y' < h)%nat) \/ ((x < x' < w)%nat /\ (y' < h)%nat).
Proof.
  unfold cellsAfter. rewrite in_app_iff, in_flat_map.
  split.
  - intros [Hin|(x0 & Hx0 & Hin)].
    + apply in_map_iff in Hin. destruct Hin as (y0 & Heq & Hy0).
      inversion Heq; subst. apply in_seq in Hy0. left. lia.
    + apply in_map_iff in Hin. destruct Hin as (y0 & Heq & Hy0).
      inversion Heq; subst. apply in_seq in Hx0, Hy0. right. lia.
  - intros [[-> Hy]|[Hx Hy]].
    + left. apply in_map. apply in_seq. lia.
    + right. exists x'. split; [apply in_seq; lia|].
      apply in_map. apply in_seq. lia.
Qed.

(** ** Reads and writes through the store *)

Lemma readOld_writeOld_eq m p slot x y v :
  storeOldCell m p slot x y ->
  System.readOld (System.writeOld m p slot x y v) p slot x y = v.
Proof.
  intros (c & Hc & Hcell). unfold System.readOld, System.writeOld.
  rewrite deref_update_eq, Hc. cbn. apply slotOld_setOld_eq. assumption.
Qed.

Lemma readOld_writeOld_ne m p slot x y v p' slot' x' y' :
  (p, slot, x, y) <> (p', slot', x', y') ->
  System.readOld (System.writeOld m p slot x y v) p' slot' x' y'
  = System.readOld m p' slot' x' y'.
Proof.
  intros Hne. unfold System.readOld, System.writeOld.
  rewrite deref_update. destruct (Z.eqb p' p) eqn:E; [|reflexivity].
  apply Z.eqb_eq in E. subst p'.
  destruct (deref m p) as [c|]; cbn; [|reflexivity].
  apply slotOld_setOld_ne. congruence.
Qed.

Lemma readDensity_writeOld m p slot x y v p' slot' x' y' :
  System.readDensity (System.writeOld m p slot x y v) p' slot' x' y'
  = System.readDensity m p' slot' x' y'.
Proof.
  unfold System.readDensity, System.writeOld.
  rewrite deref_update. destruct (Z.eqb p' p); [|reflexivity].
  destruct (deref m p') as [c|]; cbn; [|reflexivity].
  apply slotDensity_setOld.
Qed.

Lemma readOld_writeDensity m p slot x y v p' slot' x' y' :
  System.readOld (System.writeDensity m p slot x y v) p' slot' x' y'
  = System.readOld m p' slot' x' y'.
Proof.
  unfold System.readOld, System.writeDensity.
  rewrite deref_update. destruct (Z.eqb p' p); [|reflexivity].
  destruct (deref m p') as [c|]; cbn; [|reflexivity].
  apply slotOld_setDensity.
Qed.

Lemma readDensity_writeDensity_eq m p slot x y v :
  storeDensityCell m p slot x y ->
  System.readDensity (System.writeDensity m p slot x y v) p slot x y = v.
Proof.
  intros (c & Hc & Hcell). unfold System.readDensity, System.writeDensity.
  rewrite deref_update_eq, Hc. cbn. apply slotDensity_setDensity_eq.
  assumption.
Qed.

Lemma readDensity_writeDensity_ne m p slot x y v p' slot' x' y' :
  (p, slot, x, y) <> (p', slot', x', y') ->
  System.readDensity (System.writeDensity m p slot x y v) p' slot' x' y'
  = System.readDensity m p' slot' x' y'.
Proof.
  intros Hne. unfold System.readDensity, System.writeDensity.
  rewrite deref_update. destruct (Z.eqb p' p) eqn:E; [|reflexivity].
  apply Z.eqb_eq in E. subst p'.
  destruct (deref m p) as [c|]; cbn; [|reflexivity].
  apply slotDensity_setDensity_ne. congruence.
Qed.

Lemma storeOldCell_writeOld m p slot x y v p' slot' x' y' :
  storeOldCell (System.writeOld m p slot x y v) p' slot' x' y'
  <-> storeOldCell m p' slot' x' y'.
Proof.
  unfold storeOldCell, System.writeOld. rewrite deref_update.
  destruct (Z.eqb p' p); [|reflexivity].
  destruct (deref m p') as [c|]; cbn.
  - split; intros (c' & Heq & Hcell); inversion Heq; subst.
    + apply oldCell_setOld in Hcell. eauto.
    + eexists; split; [reflexivity|]. apply oldCell_setOld. assumption.
  - split; intros (c' & Heq & _); discriminate.
Qed.

Lemma storeDensityCell_writeDensity m p slot x y v p' slot' x' y' :
  storeDensityCell (System.writeDensity m p slot x y v) p' slot' x' y'
  <-> storeDensityCell m p' slot' x' y'.
Proof.
  unfold storeDensityCell, System.writeDensity. rewrite deref_update.
  destruct (Z.eqb p' p); [|reflexivity].
  destruct (deref m p') as [c|]; cbn.
  - split; intros (c' & Heq & Hcell); inversion Heq; subst.
    + apply densityCell_setDensity in Hcell. eauto.
    + eexists; split; [reflexivity|]. apply densityCell_setDensity.
      assumption.
  - split; intros (c' & Heq & _); discriminate.
Qed.

Lemma links_writeOld m p slot x y v q :
  linksOf <$> deref (System.writeOld m p slot x y v) q
  = linksOf <$> deref m q.
Proof. apply deref_update_proj. reflexivity. Qed.

(** ** Diffusion *)

Lemma links_bind (o1 o2 : option CompoundCloudComponent) :
  linksOf <$> o1 = linksOf <$> o2 ->
  o1 ≫= m_upperCloud = o2 ≫= m_upperCloud /\
  o1 ≫= m_lowerCloud = o2 ≫= m_lowerCloud /\
  o1 ≫= m_leftCloud = o2 ≫= m_leftCloud /\
  o1 ≫= m_rightCloud = o2 ≫= m_rightCloud.
Proof.
  destruct o1 as [c1|], o2 as [c2|]; cbn; intros H; try discriminate;
    [|repeat split].
  unfold linksOf in H. inversion H. repeat split; congruence.
Qed.

Section DiffusionSweep.
Variable K : Constants.
Variable a : Q.
Variable p : ObjectID.
Variable slot : nat.

Lemma readOld_diffuseSweep_other l m q slot' x' y' :
  (forall c, In c l -> (p, slot, fst c, snd c) <> (q, slot', x', y')) ->
  System.readOld (foldl (diffuseStep K a p slot) m l) q slot' x' y'
  = System.readOld m q slot' x' y'.
Proof.
  revert m. induction l as [|c l IH]; intros m Hne; cbn [foldl]; [reflexivity|].
  rewrite IH by (intros; apply Hne; right; assumption).
  unfold diffuseStep, System.diffuseCell.
  apply readOld_writeOld_ne. apply Hne. left. reflexivity.
Qed.

Lemma readDensity_diffuseSweep l m q slot' x' y' :
  System.readDensity (foldl (diffuseStep K a p slot) m l) q slot' x' y'
  = System.readDensity m q slot' x' y'.
Proof.
  revert m. induction l as [|c l IH]; intros m; cbn [foldl]; [reflexivity|].
  rewrite IH. unfold diffuseStep, System.diffuseCell.
  apply readDensity_writeOld.
Qed.

Lemma links_diffuseSweep l m q :
  linksOf <$> deref (foldl (diffuseStep K a p slot) m l) q
  = linksOf <$> deref m q.
Proof.
  revert m. induction l as [|c l IH]; intros m; cbn [foldl]; [reflexivity|].
  rewrite IH. unfold diffuseStep, System.diffuseCell.
  apply links_writeOld.
Qed.

Lemma storeOldCell_diffuseSweep l m q slot' x' y' :
  storeOldCell (foldl (diffuseStep K a p slot) m l) q slot' x' y'
  <-> storeOldCell m q slot' x' y'.
Proof.
  revert m. induction l as [|c l IH]; intros m; cbn [foldl]; [reflexivity|].
  rewrite IH. unfold diffuseStep, System.diffuseCell.
  apply storeOldCell_writeOld.
Qed.

Lemma neighbourOld_diffuseSweep l m n slot' x' y' :
  n <> Some p ->
  System.neighbourOld (foldl (diffuseStep K a p slot) m l) n slot' x' y'
  = System.neighbourOld m n slot' x' y'.
Proof.
  intros Hn. destruct n as [q|]; cbn; [|reflexivity].
  apply readOld_diffuseSweep_other. intros c _ Heq.
  inversion Heq. congruence.
Qed.
End DiffusionSweep.

(** C1, as amended.  One pass of [diffuse] over a slot writes, for every
    cell [(x, y)], the value
    [density[x][y] * (1 - a) + (up + down + left + right) * a / 4]
    with [a = dt * diffRate] into the history field, where the cell's own
    term is its live density and the neighbours are history values read
    during the in-place sweep ([inPlaceDiffusionValue]); the live field is
    not written. *)
Theorem diffuse_writes_history_in_place (K : Constants) (diffRate : Q)
  (dt : Z) (m : Store) (p : ObjectID) (slot : nat)
  (c : CompoundCloudComponent) (x y : nat) :
  deref m p = Some c ->
  (forall x y, (x < CLOUD_SIMULATION_WIDTH K)%nat ->
               (y < CLOUD_SIMULATION_HEIGHT K)%nat -> oldCell c slot x y) ->
  m_upperCloud c <> Some p -> m_lowerCloud c <> Some p ->
  m_leftCloud c <> Some p -> m_rightCloud c <> Some p ->
  (x < CLOUD_SIMULATION_WIDTH K)%nat ->
  (y < CLOUD_SIMULATION_HEIGHT K)%nat ->
  System.readOld (System.diffuse K diffRate p slot dt m) p slot x y
  = inPlaceDiffusionValue K (inject_Z dt * diffRate) m
      (System.diffuse K diffRate p slot dt m) p slot c x y
  /\ (forall q slot' x' y',
        System.readDensity (System.diffuse K diffRate p slot dt m)
          q slot' x' y'
        = System.readDensity m q slot' x' y').
Proof.
  intros Hc Hcells Hup Hlow Hleft Hright Hx Hy.
  unfold inPlaceDiffusionValue.
  set (a := (inject_Z dt * diffRate)%Q).
  set (m' := System.diffuse K diffRate p slot dt m).
  set (up := if (0 <? y)%nat then System.readOld m' p slot x (y - 1)
             else System.neighbourOld m (m_upperCloud c) slot x
                    (CLOUD_SIMULATION_HEIGHT K - 1)).
  set (down := if (y <? CLOUD_SIMULATION_HEIGHT K - 1)%nat
               then System.readOld m p slot x (y + 1)
               else System.neighbourOld m (m_lowerCloud c) slot x 0).
  set (left := if (0 <? x)%nat then System.readOld m' p slot (x - 1) y
               else System.neighbourOld m (m_leftCloud c) slot
                      (CLOUD_SIMULATION_WIDTH K - 1) y).
  set (right := if (x <? CLOUD_SIMULATION_WIDTH K - 1)%nat
                then System.readOld m p slot (x + 1) y
                else System.neighbourOld m (m_rightCloud c) slot 0 y).
  assert (m' = foldl (diffuseStep K a p slot)
                 (diffuseStep K a p slot
                    (foldl (diffuseStep K a p slot) m
                       (cellsBefore (CLOUD_SIMULATION_HEIGHT K) x y))
                    (x, y))
                 (cellsAfter (CLOUD_SIMULATION_WIDTH K)
                    (CLOUD_SIMULATION_HEIGHT K) x y)) as Hm'.
  { subst m'. unfold System.diffuse. rewrite forCells_cellsOf.
    rewrite (cellsOf_split _ _ x y Hx Hy), foldl_app. reflexivity. }
  split.
  2:{ intros q slot' x' y'. subst m'. unfold System.diffuse.
      rewrite forCells_cellsOf. apply readDensity_diffuseSweep. }
  set (m1 := foldl (diffuseStep K a p slot) m
               (cellsBefore (CLOUD_SIMULATION_HEIGHT K) x y)) in *.
  assert (forall x' y',
            ~ In (x', y') (cellsAfter (CLOUD_SIMULATION_WIDTH K)
                             (CLOUD_SIMULATION_HEIGHT K) x y) ->
            (x', y') <> (x, y) ->
            System.readOld m' p slot x' y' = System.readOld m1 p slot x' y')
    as Hdone.
  { intros x' y' Hnotin Hne. rewrite Hm'.
    rewrite readOld_diffuseSweep_other.
    - unfold diffuseStep, System.diffuseCell. cbn [fst snd].
      apply readOld_writeOld_ne. congruence.
    - intros [cx cy] Hin Heq. cbn in Heq. inversion Heq; subst.
      contradiction. }
  assert (forall x' y',
            ~ In (x', y') (cellsBefore (CLOUD_SIMULATION_HEIGHT K) x y) ->
            System.readOld m1 p slot x' y' = System.readOld m p slot x' y')
    as Hfresh.
  { intros x' y' Hnotin. subst m1. apply readOld_diffuseSweep_other.
    intros [cx cy] Hin Heq. cbn in Heq. inversion Heq; subst.
    contradiction. }
  assert (linksOf <$> deref m1 p = Some (linksOf c)) as Hlinks.
  { subst m1. rewrite links_diffuseSweep, Hc. reflexivity. }
  destruct (links_bind (deref m1 p) (Some c)) as (Lu & Ll & Lle & Lr);
    [exact Hlinks|]. cbn in Lu, Ll, Lle, Lr.
  rewrite Hm'. rewrite readOld_diffuseSweep_other.
  2:{ intros [cx cy] Hin Heq. cbn in Heq. inversion Heq; subst.
      apply In_cellsAfter in Hin. lia. }
  unfold diffuseStep at 1. unfold System.diffuseCell. cbn [fst snd].
  rewrite readOld_writeOld_eq.
  2:{ subst m1. apply storeOldCell_diffuseSweep. exists c. split;
        [assumption|]. apply Hcells; assumption. }
  rewrite Lu, Ll, Lle, Lr.
  assert (System.readDensity m1 p slot x y = System.readDensity m p slot x y)
    as -> by (subst m1; apply readDensity_diffuseSweep).
  assert ((if (0 <? y)%nat then System.readOld m1 p slot x (y - 1)
           else System.neighbourOld m1 (m_upperCloud c) slot x
                  (CLOUD_SIMULATION_HEIGHT K - 1)) = up) as ->.
  { subst up. destruct (0 <? y)%nat eqn:E.
    - apply Nat.ltb_lt in E. symmetry. apply Hdone.
      + rewrite In_cellsAfter. lia.
      + intros Heq. inversion Heq. lia.
    - subst m1. apply neighbourOld_diffuseSweep. assumption. }
  assert ((if (y <? CLOUD_SIMULATION_HEIGHT K - 1)%nat
           then System.readOld m1 p slot x (y + 1)
           else System.neighbourOld m1 (m_lowerCloud c) slot x 0) = down)
    as ->.
  { subst down. destruct (y <? CLOUD_SIMULATION_HEIGHT K - 1)%nat eqn:E.
    - apply Hfresh. rewrite In_cellsBefore. lia.
    - subst m1. apply neighbourOld_diffuseSweep. assumption. }
  assert ((if (0 <? x)%nat then System.readOld m1 p slot (x - 1) y
           else System.neighbourOld m1 (m_leftCloud c) slot
                  (CLOUD_SIMULATION_WIDTH K - 1) y) = left) as ->.
  { subst left. destruct (0 <? x)%nat eqn:E.
    - apply Nat.ltb_lt in E. symmetry. apply Hdone.
      + rewrite In_cellsAfter. lia.
      + intros Heq. inversion Heq. lia.
    - subst m1. apply neighbourOld_diffuseSweep. assumption. }
  assert ((if (x <? CLOUD_SIMULATION_WIDTH K - 1)%nat
           then System.readOld m1 p slot (x + 1) y
           else System.neighbourOld m1 (m_rightCloud c) slot 0 y) = right)
    as ->.
  { subst right. destruct (x <? CLOUD_SIMULATION_WIDTH K - 1)%nat eqn:E.
    - apply Hfresh. rewrite In_cellsBefore. lia.
    - subst m1. apply neighbourOld_diffuseSweep. assumption. }
  reflexivity.
Qed.

(** ** Advection *)

Lemma filter_none {A} (f : A -> bool) (l : list A) :
  (forall a, In a l -> f a = false) -> List.filter f l = [].
Proof.
  induction l as [|a l IH]; intros H; cbn; [reflexivity|].
  rewrite (H a) by (left; reflexivity).
  apply IH. intros b Hb. apply H. right. assumption.
Qed.

Lemma readOld_deposit m q slot x y v p' slot' x' y' :
  System.readOld (System.deposit m q slot x y v) p' slot' x' y'
  = System.readOld m p' slot' x' y'.
Proof. apply readOld_writeDensity. Qed.

Lemma readOld_addCloudDensity K p slot x y v m p' slot' x' y' :
  System.readOld (System.addCloudDensity K p slot x y v m) p' slot' x' y'
  = System.readOld m p' slot' x' y'.
Proof.
  unfold System.addCloudDensity.
  repeat (match goal with
          | |- context [if ?b then _ else _] => destruct b
          end; cbv beta iota zeta);
    repeat (match goal with
            | |- context [match ?o with Some _ => _ | None => _ end] =>
                destruct o; cbv beta iota zeta
            end);
    try reflexivity; apply readOld_deposit.
Qed.

Section AdvectionSweep.
Variable K : Constants.
Variable getVelocityAt : Float2 -> Float2.
Variable dt : Z.
Variable pos : Float2.
Variable p : ObjectID.
Variable slot : nat.

Lemma readOld_advectCell m x y p' slot' x' y' :
  System.readOld (System.advectCell K getVelocityAt dt pos p slot m x y)
    p' slot' x' y'
  = System.readOld m p' slot' x' y'.
Proof.
  unfold System.advectCell.
  destruct (fltb 1 (System.readOld m p slot x y)); [|reflexivity].
  cbv zeta. rewrite !readOld_addCloudDensity. reflexivity.
Qed.

Lemma advectCell_skips m x y :
  (System.readOld m p slot x y <= 1)%Q ->
  System.advectCell K getVelocityAt dt pos p slot m x y = m.
Proof.
  intros Hle. unfold System.advectCell.
  apply fltb_ge in Hle. rewrite Hle. reflexivity.
Qed.

Lemma readOld_clearSweep l m p' slot' x' y' :
  System.readOld (foldl (clearStep p slot) m l) p' slot' x' y'
  = System.readOld m p' slot' x' y'.
Proof.
  revert m. induction l as [|c l IH]; intros m; cbn [foldl]; [reflexivity|].
  rewrite IH. apply readOld_writeDensity.
Qed.

Lemma readDensity_clearSweep l m x y :
  storeDensityCell m p slot x y ->
  In (x, y) l \/ System.readDensity m p slot x y = 0%Q ->
  System.readDensity (foldl (clearStep p slot) m l) p slot x y = 0%Q.
Proof.
  revert m. induction l as [|c l IH]; intros m Hcell Hor; cbn [foldl].
  - destruct Hor as [[]|H]. exact H.
  - apply IH.
    + apply storeDensityCell_writeDensity. assumption.
    + destruct (decide (c = (x, y))) as [->|Hne].
      * right. unfold clearStep. cbn [fst snd].
        apply readDensity_writeDensity_eq. assumption.
      * destruct Hor as [[Heq|Hin]|Hz]; [contradiction|left; assumption|].
        right. unfold clearStep.
        rewrite readDensity_writeDensity_ne; [assumption|].
        destruct c as [cx cy]. cbn. congruence.
Qed.

(** Only the cells whose history value exceeds 1 take part in the sweep. *)
Lemma advectSweep_filter (m0 : Store) l m :
  (forall x y, System.readOld m p slot x y = System.readOld m0 p slot x y) ->
  foldl (advectStep K getVelocityAt dt pos p slot) m l
  = foldl (advectStep K getVelocityAt dt pos p slot) m
      (List.filter
         (fun c => fltb 1 (System.readOld m0 p slot (fst c) (snd c))) l).
Proof.
  revert m. induction l as [|c l IH]; intros m Hsame; cbn [foldl List.filter];
    [reflexivity|].
  assert (forall x y,
            System.readOld (advectStep K getVelocityAt dt pos p slot m c)
              p slot x y
            = System.readOld m0 p slot x y) as Hsame'.
  { intros x y. unfold advectStep. rewrite readOld_advectCell. apply Hsame. }
  destruct (fltb 1 (System.readOld m0 p slot (fst c) (snd c))) eqn:E.
  - cbn [foldl]. apply IH. assumption.
  - rewrite <- IH by assumption. f_equal.
    unfold advectStep. apply advectCell_skips.
    rewrite Hsame. apply fltb_ge. assumption.
Qed.
End AdvectionSweep.

(** C10.  [advect] first clears the live field of the slot and then runs
    the deposit of exactly those cells whose history value exceeds 1: the
    result is the sweep over the filtered cells, a cell at or below 1
    changes nothing anywhere, and if no cell exceeds 1 the live field is
    zero afterwards. *)
Theorem advect_deposits_only_above_one (K : Constants)
  (getVelocityAt : Float2 -> Float2) (p : ObjectID) (slot : nat) (dt : Z)
  (pos : Float2) (m : Store) :
  System.advect K getVelocityAt p slot dt pos m
  = foldl (advectStep K getVelocityAt dt pos p slot)
      (System.clearDensity K p slot m)
      (List.filter
         (fun c => fltb 1 (System.readOld m p slot (fst c) (snd c)))
         (cellsOf (CLOUD_SIMULATION_WIDTH K) (CLOUD_SIMULATION_HEIGHT K)))
  /\ (forall x y,
        (x < CLOUD_SIMULATION_WIDTH K)%nat ->
        (y < CLOUD_SIMULATION_HEIGHT K)%nat ->
        storeDensityCell m p slot x y ->
        System.readDensity (System.clearDensity K p slot m) p slot x y = 0%Q)
  /\ (forall m1 x y,
        (System.readOld m1 p slot x y <= 1)%Q ->
        System.advectCell K getVelocityAt dt pos p slot m1 x y = m1)
  /\ ((forall x y,
         (x < CLOUD_SIMULATION_WIDTH K)%nat ->
         (y < CLOUD_SIMULATION_HEIGHT K)%nat ->
         (System.readOld m p slot x y <= 1)%Q) ->
      forall x y,
        (x < CLOUD_SIMULATION_WIDTH K)%nat ->
        (y < CLOUD_SIMULATION_HEIGHT K)%nat ->
        storeDensityCell m p slot x y ->
        System.readDensity (System.advect K getVelocityAt p slot dt pos m)
          p slot x y = 0%Q).
Proof.
  assert (forall x y,
            (x < CLOUD_SIMULATION_WIDTH K)%nat ->
            (y < CLOUD_SIMULATION_HEIGHT K)%nat ->
            storeDensityCell m p slot x y ->
            System.readDensity (System.clearDensity K p slot m) p slot x y
            = 0%Q) as Hclear.
  { intros x y Hx Hy Hcell. unfold System.clearDensity.
    rewrite forCells_cellsOf.
    apply (readDensity_clearSweep p slot); [assumption|].
    left. rewrite (cellsOf_split _ _ x y Hx Hy). apply in_elt. }
  assert (System.advect K getVelocityAt p slot dt pos m
          = foldl (advectStep K getVelocityAt dt pos p slot)
              (System.clearDensity K p slot m)
              (List.filter
                 (fun c => fltb 1 (System.readOld m p slot (fst c) (snd c)))
                 (cellsOf (CLOUD_SIMULATION_WIDTH K)
                    (CLOUD_SIMULATION_HEIGHT K)))) as Hfilter.
  { unfold System.advect. rewrite forCells_cellsOf.
    apply (advectSweep_filter K getVelocityAt dt pos p slot m).
    intros x y. unfold System.clearDensity. rewrite forCells_cellsOf.
    apply (readOld_clearSweep p slot). }
  split; [exact Hfilter|]. split; [exact Hclear|]. split.
  - intros m1 x y. apply advectCell_skips.
  - intros Hall x y Hx Hy Hcell. rewrite Hfilter.
    replace (List.filter _ _) with (@nil (nat * nat)).
    + cbn [foldl]. apply Hclear; assumption.
    + symmetry. apply filter_none. intros [cx cy] Hin. cbn [fst snd].
      apply fltb_ge. apply Hall.
      * unfold cellsOf in Hin. apply in_flat_map in Hin.
        destruct Hin as (x0 & Hx0 & Hin). apply in_map_iff in Hin.
        destruct Hin as (y0 & Heq & _). inversion Heq; subst.
        apply in_seq in Hx0. lia.
      * unfold cellsOf in Hin. apply in_flat_map in Hin.
        destruct Hin as (x0 & _ & Hin). apply in_map_iff in Hin.
        destruct Hin as (y0 & Heq & Hy0). inversion Heq; subst.
        apply in_seq in Hy0. lia.
Qed.

(** ** Deposits across the edge of a field *)





(** ** Taking compounds *)

Lemma handlesCompound_slot c compound :
  Component.handlesCompound c compound = true ->
  exists slot cd,
    Component.getSlotForCompound c compound = Done slot /\
    take CLOUDS_IN_ONE (clouds c) !! slot = Some cd /\
    cloud_id cd = compound.
Proof.
  unfold Component.handlesCompound, Component.getSlotForCompound.
  intros H. apply existsb_exists in H. destruct H as (cd & Hin & Heq).
  apply Z.eqb_eq in Heq.
  destruct (list_find (fun cd => compound = cloud_id cd)
              (take CLOUDS_IN_ONE (clouds c))) as [[i cd']|] eqn:E.
  - apply list_find_Some in E. destruct E as (Hi & Hcd & _).
    exists i, cd'. repeat split; [assumption|congruence].
  - apply list_find_None in E. rewrite Forall_forall in E.
    exfalso. apply (E cd); [|assumption].
    apply list_elem_of_In. assumption.
Qed.




(** ** What the solver leaves alone *)

Section TileView.
Context {A : Type}.
Variable g : CompoundCloudComponent -> A.

Lemma tileView_length m m' :
  tileView g m' = tileView g m -> length m' = length m.
Proof.
  unfold tileView. intros H. apply (f_equal (@length _)) in H.
  rewrite !length_map in H. exact H.
Qed.

Lemma tileView_update f p m :
  (forall c, g (f c) = g c) -> tileView g (update f p m) = tileView g m.
Proof.
  intros Hf. unfold tileView, update. rewrite map_map. apply map_ext.
  intros [e c]; cbn. destruct (Z.eqb e p); cbn; [rewrite Hf|]; reflexivity.
Qed.

Lemma tileView_forCells w h (body : Store -> nat -> nat -> Store) m :
  (forall m x y, tileView g (body m x y) = tileView g m) ->
  tileView g (forCells w h body m) = tileView g m.
Proof.
  intros Hbody. rewrite forCells_cellsOf.
  generalize (cellsOf w h) as l. intros l. revert m.
  induction l as [|c l IH]; intros m; cbn [foldl]; [reflexivity|].
  rewrite IH. apply Hbody.
Qed.

Hypothesis g_ignores_clouds : ignoresClouds g.

Lemma tileView_writeOld m p slot x y v :
  tileView g (System.writeOld m p slot x y v) = tileView g m.
Proof. apply tileView_update. intros c. apply g_ignores_clouds. Qed.

Lemma tileView_writeDensity m p slot x y v :
  tileView g (System.writeDensity m p slot x y v) = tileView g m.
Proof. apply tileView_update. intros c. apply g_ignores_clouds. Qed.

Lemma tileView_diffuse K r p slot dt m :
  tileView g (System.diffuse K r p slot dt m) = tileView g m.
Proof.
  unfold System.diffuse. apply tileView_forCells.
  intros. unfold System.diffuseCell. apply tileView_writeOld.
Qed.

Lemma tileView_addCloudDensity K p slot x y v m :
  tileView g (System.addCloudDensity K p slot x y v m) = tileView g m.
Proof.
  unfold System.addCloudDensity.
  repeat (match goal with
          | |- context [if ?b then _ else _] => destruct b
          end; cbv beta iota zeta);
    repeat (match goal with
            | |- context [match ?o with Some _ => _ | None => _ end] =>
                destruct o; cbv beta iota zeta
            end);
    try reflexivity; apply tileView_writeDensity.
Qed.

Lemma tileView_advect K vel p slot dt pos m :
  tileView g (System.advect K vel p slot dt pos m) = tileView g m.
Proof.
  unfold System.advect, System.clearDensity.
  rewrite tileView_forCells.
  - apply tileView_forCells. intros. apply tileView_writeDensity.
  - intros m' x y. unfold System.advectCell.
    destruct (fltb 1 _); [|reflexivity]. cbv zeta.
    rewrite !tileView_addCloudDensity. reflexivity.
Qed.

Lemma tileView_processCloud K vel cloud renderTime m :
  tileView g (System.processCloud K vel cloud renderTime m) = tileView g m.
Proof.
  unfold System.processCloud.
  generalize (seq 0 (default 0%nat
                       ((fun c => length (clouds c)) <$> deref m cloud))).
  intros l. revert m. induction l as [|slot l IH]; intros m; cbn [foldl];
    [reflexivity|].
  rewrite IH.
  destruct (deref m cloud) as [c|]; [|reflexivity].
  destruct (clouds c !! slot) as [cd|]; [|reflexivity].
  destruct (negb _); [|reflexivity].
  rewrite tileView_advect. apply tileView_diffuse.
Qed.

(** The simulation loop of [Run], when it ends normally. *)
Lemma process_all_view K vel rt (todo : Store) m m' :
  forEachO
    (fun m (value : ObjectID * CompoundCloudComponent) =>
       match deref m (fst value) with
       | Some c =>
           if m_initialized c
           then Done (System.processCloud K vel (fst value) rt m)
           else Aborted AssertionFailed
       | None => Done m
       end) m todo = Done m' ->
  tileView g m' = tileView g m.
Proof.
  revert m. induction todo as [|[e c0] todo IH]; intros m; cbn [forEachO].
  - intros H. inversion H. reflexivity.
  - cbn [fst]. destruct (deref m e) as [c|] eqn:Ec.
    + destruct (m_initialized c); cbn; [|discriminate].
      intros H. apply IH in H. rewrite H. apply tileView_processCloud.
    + cbn. apply IH.
Qed.
End TileView.

Lemma roster_length m m' : roster m' = roster m -> length m' = length m.
Proof. apply tileView_length. Qed.

Lemma roster_update f p m :
  (forall c, m_initialized (f c) = m_initialized c) ->
  roster (update f p m) = roster m.
Proof. apply tileView_update. Qed.

Lemma roster_processCloud K vel cloud renderTime m :
  roster (System.processCloud K vel cloud renderTime m) = roster m.
Proof. apply tileView_processCloud. intros l c. reflexivity. Qed.

Lemma deref_In m p c : deref m p = Some c -> In (p, c) m.
Proof.
  unfold deref.
  destruct (find (fun e => Z.eqb (fst e) p) m) as [[e c']|] eqn:E; cbn;
    [|discriminate].
  intros H. inversion H; subst. apply find_some in E.
  destruct E as [Hin Heq]. cbn in Heq. apply Z.eqb_eq in Heq. subst.
  assumption.
Qed.



Lemma process_all_roster K vel rt (todo : Store) m m' :
  forEachO
    (fun m (value : ObjectID * CompoundCloudComponent) =>
       match deref m (fst value) with
       | Some c =>
           if m_initialized c
           then Done (System.processCloud K vel (fst value) rt m)
           else Aborted AssertionFailed
       | None => Done m
       end) m todo = Done m' ->
  roster m' = roster m.
Proof. apply process_all_view. intros l c. reflexivity. Qed.

(** ** The loop counter of the groups *)

Lemma strideFrom_lt fuel i stop step j :
  In j (strideFrom fuel i stop step) -> (j < stop)%nat.
Proof.
  revert i. induction fuel as [|fuel IH]; intros i; cbn [strideFrom].
  - intros [].
  - destruct (i <? stop)%nat eqn:E; [|intros []].
    apply Nat.ltb_lt in E. intros [<-|Hin]; [assumption|].
    eapply IH; eassumption.
Qed.

Lemma strideFrom_length fuel i stop :
  (stop - i <= fuel)%nat ->
  length (strideFrom fuel i stop CLOUDS_IN_ONE) = ((stop - i + 3) / 4)%nat.
Proof.
  unfold CLOUDS_IN_ONE. revert i.
  induction fuel as [|fuel IH]; intros i Hfuel; cbn [strideFrom].
  - replace (stop - i + 3)%nat with 3%nat by lia. reflexivity.
  - destruct (i <? stop)%nat eqn:E.
    + apply Nat.ltb_lt in E. cbn [length]. rewrite IH by lia.
      pose proof (Nat.div_mod_eq (stop - i + 3) 4) as H1.
      pose proof (Nat.mod_upper_bound (stop - i + 3) 4) as H2.
      pose proof (Nat.div_mod_eq (stop - (i + 4) + 3) 4) as H3.
      pose proof (Nat.mod_upper_bound (stop - (i + 4) + 3) 4) as H4.
      lia.
    + apply Nat.ltb_ge in E.
      replace (stop - i + 3)%nat with 3%nat by lia. reflexivity.
Qed.

Lemma groupStarts_length s :
  length (System.groupStarts s) = ((length (m_cloudTypes s) + 3) / 4)%nat.
Proof.
  unfold System.groupStarts. rewrite strideFrom_length by lia.
  rewrite Nat.sub_0_r. reflexivity.
Qed.

Lemma expectedCloudCount_groups s :
  System.expectedCloudCount s = (length (System.groupStarts s) * 9)%nat.
Proof.
  unfold System.expectedCloudCount. rewrite groupStarts_length.
  replace (length (m_cloudTypes s) + 4 - 1)%nat
    with (length (m_cloudTypes s) + 3)%nat by lia.
  rewrite Nat.div_mul by lia. reflexivity.
Qed.


(** ** Recycling keeps the roster *)


Lemma roster_setUpCloudLinks clouds m :
  roster (System.setUpCloudLinks clouds m) = roster m.
Proof.
  unfold System.setUpCloudLinks. generalize (map_to_list clouds).
  intros l. revert m. induction l as [|entry l IH]; intros m; cbn [foldl];
    [reflexivity|].
  rewrite IH. apply roster_update. reflexivity.
Qed.


Lemma clearCloudData_id K cd :
  cloud_id (Component.clearCloudData K cd) = cloud_id cd.
Proof.
  unfold Component.clearCloudData. destruct (negb _); reflexivity.
Qed.

Lemma roster_fillPositions K required g idx st :
  roster (fst (fst (fst (System.fillPositions K required g idx st))))
  = roster (fst (fst (fst st))).
Proof.
  revert st. induction required as [|r required IH]; intros st;
    cbn [System.fillPositions]; [reflexivity|].
  destruct st as [[[m clouds] tooFar] msgs]. cbn [fst].
  destruct (System.hasCloud K m g (snd r)).
  - rewrite IH. reflexivity.
  - destruct (System.findCandidate K m tooFar idx g) as [[k p]|].
    + rewrite IH. cbn [fst]. apply roster_update. reflexivity.
    + reflexivity.
Qed.




Lemma roster_moveFarClouds K s required idx st :
  roster (fst (fst (fst (System.moveFarClouds K s required idx st))))
  = roster (fst (fst (fst st))).
Proof.
  unfold System.moveFarClouds. generalize (System.groupStarts s) as starts.
  intros starts. revert st.
  induction starts as [|c starts IH]; intros st; cbn [foldl]; [reflexivity|].
  rewrite IH. destruct (m_cloudTypes s !! c); [|reflexivity].
  apply roster_fillPositions.
Qed.


Lemma applyNew_frame K s :
  m_cloudTypes (System.applyNewCloudPositioning K s) = m_cloudTypes s /\
  m_cloudGridCenter (System.applyNewCloudPositioning K s)
  = m_cloudGridCenter s /\
  nextEntity (System.applyNewCloudPositioning K s) = nextEntity s /\
  roster (m_managedClouds (System.applyNewCloudPositioning K s))
  = roster (m_managedClouds s).
Proof.
  unfold System.applyNewCloudPositioning. cbv zeta.
  destruct (System.collectFarAway K _ _ _ _ _ _)
    as [[[clouds1 tooFar1] idx] msgs1].
  pose proof (roster_moveFarClouds K s
                (calculateGridPositions K (m_cloudGridCenter s)) idx
                (m_managedClouds s, clouds1, tooFar1, msgs1)) as Hr.
  destruct (System.moveFarClouds K s _ idx _) as [[[m2 clouds2] tooFar2] msgs2].
  cbn [fst] in Hr. cbn.
  repeat split. rewrite roster_setUpCloudLinks. exact Hr.
Qed.

Lemma applyNew_length K s :
  length (m_managedClouds (System.applyNewCloudPositioning K s))
  = length (m_managedClouds s).
Proof. apply roster_length. apply applyNew_frame. Qed.

Lemma applyNew_expected K s :
  System.expectedCloudCount (System.applyNewCloudPositioning K s)
  = System.expectedCloudCount s.
Proof.
  unfold System.expectedCloudCount.
  destruct (applyNew_frame K s) as (-> & _). reflexivity.
Qed.


(** ** Spawning *)

Lemma allInitialized_app m m' :
  allInitialized m -> allInitialized m' -> allInitialized (m ++ m').
Proof.
  unfold allInitialized, roster, tileView. rewrite map_app.
  apply Forall_app_2.
Qed.

Lemma spawnCloud_ok K s pos i c0 :
  m_cloudTypes s !! i = Some c0 ->
  exists tile,
    System._spawnCloud K s pos i
    = Done (setNextEntity (nextEntity s + 1)%Z
              (setManagedClouds (m_managedClouds s ++ [(nextEntity s, tile)])
                 s))
    /\ m_position tile = pos
    /\ map cloud_id (clouds tile) = groupIds K (m_cloudTypes s) i
    /\ m_initialized tile = true.
Proof.
  intros Hi. unfold System._spawnCloud, Component.create.
  rewrite Nat.add_0_r, Hi. cbn [mbind Outcome_bind].
  eexists. split; [reflexivity|]. cbn.
  rewrite !clearCloudData_id. unfold groupIds. cbn [map].
  rewrite Nat.add_0_r, Hi. cbn.
  split; [reflexivity|]. split; [|reflexivity].
  repeat f_equal;
    match goal with
    | |- context [m_cloudTypes s !! ?k] => destruct (m_cloudTypes s !! k)
    end; reflexivity.
Qed.

Lemma spawnRow K i c0 poss s :
  m_cloudTypes s !! i = Some c0 ->
  exists s',
    forEachO (fun s (pos : Int2 * Float3) => System._spawnCloud K s (snd pos) i)
      s poss = Done s'
    /\ m_cloudTypes s' = m_cloudTypes s
    /\ m_cloudGridCenter s' = m_cloudGridCenter s
    /\ m_tooFarAwayClouds s' = m_tooFarAwayClouds s
    /\ logged s' = logged s
    /\ placement (m_managedClouds s')
       = placement (m_managedClouds s)
         ++ map (fun pos : Int2 * Float3 =>
                   (snd pos, groupIds K (m_cloudTypes s) i)) poss
    /\ (allInitialized (m_managedClouds s) ->
        allInitialized (m_managedClouds s')).
Proof.
  revert s. induction poss as [|pos poss IH]; intros s Hi; cbn [forEachO].
  - exists s. rewrite app_nil_r. repeat split; auto.
  - destruct (spawnCloud_ok K s (snd pos) i c0 Hi)
      as (tile & -> & Hpos & Hids & Hinit).
    cbn [mbind Outcome_bind].
    match goal with
    | |- context [forEachO _ ?s1 poss] =>
        destruct (IH s1) as (s' & Hrun & Ht & Hc & Hf & Hl & Hp & Hi');
          [exact Hi|]
    end.
    exists s'. split; [exact Hrun|].
    cbn in Ht, Hc, Hf, Hl, Hp, Hi'.
    repeat split; try assumption.
    + rewrite Hp. unfold placement at 1. rewrite map_app. cbn [map snd fst].
      rewrite Hpos, Hids, <- app_assoc. reflexivity.
    + intros Hall. apply Hi'. apply allInitialized_app; [assumption|].
      unfold allInitialized, roster, tileView. cbn. rewrite Hinit.
      repeat constructor.
Qed.

Lemma spawnAll K poss starts s :
  Forall (fun i => (i < length (m_cloudTypes s))%nat) starts ->
  exists s',
    forEachO
      (fun s i =>
         forEachO (fun s (pos : Int2 * Float3) =>
                     System._spawnCloud K s (snd pos) i) s poss)
      s starts = Done s'
    /\ m_cloudTypes s' = m_cloudTypes s
    /\ m_cloudGridCenter s' = m_cloudGridCenter s
    /\ m_tooFarAwayClouds s' = m_tooFarAwayClouds s
    /\ logged s' = logged s
    /\ placement (m_managedClouds s')
       = placement (m_managedClouds s)
         ++ flat_map (fun i =>
                        map (fun pos : Int2 * Float3 =>
                               (snd pos, groupIds K (m_cloudTypes s) i)) poss)
                     starts
    /\ (allInitialized (m_managedClouds s) ->
        allInitialized (m_managedClouds s')).
Proof.
  revert s. induction starts as [|i starts IH]; intros s Hlt; cbn [forEachO].
  - exists s. rewrite app_nil_r. repeat split; auto.
  - inversion Hlt as [|? ? Hi Hrest]; subst.
    apply lookup_lt_is_Some_2 in Hi. destruct Hi as [c0 Hi].
    destruct (spawnRow K i c0 poss s Hi)
      as (s1 & -> & Ht & Hc & Hf & Hl & Hp & Hinit).
    cbn [mbind Outcome_bind].
    destruct (IH s1) as (s' & Hrun & Ht' & Hc' & Hf' & Hl' & Hp' & Hinit').
    { rewrite Ht. assumption. }
    exists s'. split; [exact Hrun|].
    repeat split; try congruence.
    + rewrite Hp', Hp, Ht. cbn [flat_map]. rewrite <- app_assoc. reflexivity.
    + auto.
Qed.

(** ** The spawn cycle *)

Lemma placement_length m : length (placement m) = length m.
Proof. unfold placement. apply length_map. Qed.

Lemma flat_map_rows_length {A B} (f : A -> list B) (l : list A) (n : nat) :
  (forall a, length (f a) = n) -> length (flat_map f l) = (length l * n)%nat.
Proof.
  intros Hf. induction l as [|a l IH]; cbn [flat_map length]; [reflexivity|].
  rewrite length_app, Hf, IH. lia.
Qed.

Lemma groupStarts_lt s :
  Forall (fun i => (i < length (m_cloudTypes s))%nat) (System.groupStarts s).
Proof.
  apply Forall_forall. intros i Hin. apply list_elem_of_In in Hin.
  eapply strideFrom_lt. exact Hin.
Qed.

Lemma Float3_neq_refl a : Float3_neq a a = false.
Proof.
  unfold Float3_neq, feqb. rewrite !Qeq_bool_refl. reflexivity.
Qed.

(** The start-up branch of [doSpawnCycle]. *)
Lemma spawn_from_nothing K s :
  m_managedClouds s = [] ->
  exists s',
    forEachO
      (fun s i =>
         forEachO (fun s (pos : Int2 * Float3) =>
                     System._spawnCloud K s (snd pos) i) s
           (calculateGridPositions K (mkFloat3 0 0 0)))
      (setCloudGridCenter (mkFloat3 0 0 0) s)
      (System.groupStarts (setCloudGridCenter (mkFloat3 0 0 0) s))
    = Done s'
    /\ m_cloudTypes s' = m_cloudTypes s
    /\ m_cloudGridCenter s' = mkFloat3 0 0 0
    /\ m_tooFarAwayClouds s' = m_tooFarAwayClouds s
    /\ logged s' = logged s
    /\ placement (m_managedClouds s') = spawnedPlacement K (m_cloudTypes s)
    /\ allInitialized (m_managedClouds s')
    /\ length (m_managedClouds s') = System.expectedCloudCount s.
Proof.
  intros Hempty.
  destruct (spawnAll K (calculateGridPositions K (mkFloat3 0 0 0))
              (System.groupStarts (setCloudGridCenter (mkFloat3 0 0 0) s))
              (setCloudGridCenter (mkFloat3 0 0 0) s))
    as (s' & Hrun & Ht & Hc & Hf & Hl & Hp & Hinit).
  { apply groupStarts_lt. }
  cbn [m_cloudTypes m_managedClouds m_cloudGridCenter m_tooFarAwayClouds
       logged setCloudGridCenter] in *.
  rewrite Hempty in Hp, Hinit. cbn [placement map app] in Hp.
  exists s'. split; [exact Hrun|].
  repeat split; try assumption.
  - apply Hinit. constructor.
  - rewrite <- placement_length, Hp.
    rewrite (flat_map_rows_length _ _ 9) by reflexivity.
    rewrite expectedCloudCount_groups. reflexivity.
Qed.

Lemma recenter_ok K s1 playerPos :
  length (m_managedClouds s1) = System.expectedCloudCount s1 ->
  System.recenter K s1 playerPos
  = Done (if Float3_neq (m_cloudGridCenter s1)
               (calculateGridCenterForPlayerPos K playerPos)
          then System.applyNewCloudPositioning K
                 (setCloudGridCenter
                    (calculateGridCenterForPlayerPos K playerPos) s1)
          else s1).
Proof.
  intros Hcount. unfold System.recenter.
  apply Nat.eqb_eq in Hcount. rewrite Hcount. cbn.
  destruct (Float3_neq _ _); reflexivity.
Qed.

Lemma retarget_settled K s1 playerPos :
  length (m_managedClouds s1) = System.expectedCloudCount s1 ->
  settled K
    (if Float3_neq (m_cloudGridCenter s1)
          (calculateGridCenterForPlayerPos K playerPos)
     then System.applyNewCloudPositioning K
            (setCloudGridCenter
               (calculateGridCenterForPlayerPos K playerPos) s1)
     else s1) playerPos.
Proof.
  intros Hcount. unfold settled.
  destruct (Float3_neq (m_cloudGridCenter s1) _) eqn:E.
  - rewrite applyNew_length, applyNew_expected.
    destruct (applyNew_frame K
                (setCloudGridCenter
                   (calculateGridCenterForPlayerPos K playerPos) s1))
      as (_ & -> & _).
    split; [exact Hcount|]. apply Float3_neq_refl.
  - split; assumption.
Qed.

Lemma retarget_frame K s1 playerPos :
  let s' :=
    if Float3_neq (m_cloudGridCenter s1)
         (calculateGridCenterForPlayerPos K playerPos)
    then System.applyNewCloudPositioning K
           (setCloudGridCenter
              (calculateGridCenterForPlayerPos K playerPos) s1)
    else s1 in
  m_cloudTypes s' = m_cloudTypes s1 /\
  roster (m_managedClouds s') = roster (m_managedClouds s1).
Proof.
  cbv zeta. destruct (Float3_neq _ _); [|split; reflexivity].
  destruct (applyNew_frame K
              (setCloudGridCenter
                 (calculateGridCenterForPlayerPos K playerPos) s1))
    as (Ht & _ & _ & Hr).
  split; assumption.
Qed.

(** A spawn cycle on a system without tiles ends normally with the full
    set of tiles. *)
Lemma doSpawnCycle_populates K s playerPos :
  m_managedClouds s = [] ->
  exists s',
    System.doSpawnCycle K s playerPos = Done s'
    /\ length (m_managedClouds s') = System.expectedCloudCount s
    /\ m_cloudTypes s' = m_cloudTypes s
    /\ allInitialized (m_managedClouds s')
    /\ settled K s' playerPos.
Proof.
  intros Hempty.
  destruct (spawn_from_nothing K s Hempty)
    as (s1 & Hrun & Ht & Hc & Hf & Hl & Hp & Hinit & Hlen).
  unfold System.doSpawnCycle, System.initialSpawn. rewrite Hempty.
  cbn [m_cloudGridCenter setCloudGridCenter]. rewrite Hrun.
  cbn [mbind Outcome_bind].
  set (s2 := System.applyNewCloudPositioning K s1).
  assert (length (m_managedClouds s2) = System.expectedCloudCount s2) as H2.
  { subst s2. rewrite applyNew_length, applyNew_expected, Hlen.
    unfold System.expectedCloudCount. rewrite Ht. reflexivity. }
  rewrite (recenter_ok K s2 playerPos H2).
  eexists. split; [reflexivity|].
  destruct (retarget_frame K s2 playerPos) as [Ht2 Hr2].
  pose proof (retarget_settled K s2 playerPos H2) as Hs.
  cbv zeta in Ht2, Hr2.
  destruct (applyNew_frame K s1) as (Ht1 & _ & _ & Hr1). fold s2 in Ht1, Hr1.
  repeat split.
  - rewrite (roster_length _ _ Hr2), (roster_length _ _ Hr1). exact Hlen.
  - congruence.
  - unfold allInitialized. rewrite Hr2, Hr1. exact Hinit.
  - apply Hs.
  - apply Hs.
Qed.

(** A spawn cycle on a system with tiles. *)
Lemma doSpawnCycle_keeps K s playerPos :
  m_managedClouds s <> [] ->
  length (m_managedClouds s) = System.expectedCloudCount s ->
  System.doSpawnCycle K s playerPos
  = Done (if Float3_neq (m_cloudGridCenter s)
               (calculateGridCenterForPlayerPos K playerPos)
          then System.applyNewCloudPositioning K
                 (setCloudGridCenter
                    (calculateGridCenterForPlayerPos K playerPos) s)
          else s).
Proof.
  intros Hne Hcount. unfold System.doSpawnCycle.
  destruct (m_managedClouds s) as [|e rest] eqn:E; [contradiction|].
  cbn [mbind Outcome_bind]. apply recenter_ok. rewrite E. assumption.
Qed.

Lemma doSpawnCycle_deviation K s playerPos :
  m_managedClouds s <> [] ->
  length (m_managedClouds s) <> System.expectedCloudCount s ->
  System.doSpawnCycle K s playerPos = Aborted AssertionFailed.
Proof.
  intros Hne Hcount. unfold System.doSpawnCycle.
  destruct (m_managedClouds s) as [|e rest] eqn:E; [contradiction|].
  cbn [mbind Outcome_bind]. unfold System.recenter. rewrite E.
  apply Nat.eqb_neq in Hcount. rewrite Hcount. reflexivity.
Qed.

(** ** Registration and ticks *)



Lemma Qabs_self_sub x : (Qabs (x - x) == 0)%Q.
Proof.
  apply Qabs_case; intros; lra.
Qed.

Lemma atPosition_self K pos :
  (0 < EPSILON K)%Q -> System.atPosition K pos pos = true.
Proof.
  intros He. unfold System.atPosition. apply fltb_lt.
  unfold HAddAbs, Float3_sub. cbn [f3X f3Y f3Z].
  rewrite !Qabs_self_sub. lra.
Qed.







(** ** A tick that does not move the grid *)

Lemma setUpCloudLinks_nil clouds : System.setUpCloudLinks clouds [] = [].
Proof.
  apply length_zero_iff_nil.
  rewrite (roster_length _ _ (roster_setUpCloudLinks clouds [])). reflexivity.
Qed.

Lemma applyNew_nothing K s :
  m_managedClouds s = [] -> m_cloudTypes s = [] ->
  System.applyNewCloudPositioning K s
  = mkSystem [] [] (m_cloudGridCenter s) [] (nextEntity s) (logged s).
Proof.
  intros Hm Ht. unfold System.applyNewCloudPositioning.
  rewrite Hm, Ht. cbn [length System.collectFarAway].
  unfold System.moveFarClouds, System.groupStarts. rewrite Ht.
  cbn [length strideFrom foldl]. unfold System.reportUnmoved.
  cbn [take foldl]. rewrite setUpCloudLinks_nil, app_nil_r.
  f_equal.
  destruct (m_tooFarAwayClouds s) as [|o l]; reflexivity.
Qed.

Lemma doSpawnCycle_nothing K s playerPos :
  m_managedClouds s = [] -> m_cloudTypes s = [] ->
  System.doSpawnCycle K s playerPos
  = Done (mkSystem [] []
            (if Float3_neq (mkFloat3 0 0 0)
                  (calculateGridCenterForPlayerPos K playerPos)
             then calculateGridCenterForPlayerPos K playerPos
             else mkFloat3 0 0 0)
            [] (nextEntity s) (logged s)).
Proof.
  intros Hm Ht. unfold System.doSpawnCycle, System.initialSpawn.
  rewrite Hm. unfold System.groupStarts.
  cbn [m_cloudTypes setCloudGridCenter]. rewrite Ht.
  cbn [length strideFrom forEachO mbind Outcome_bind].
  rewrite applyNew_nothing by assumption.
  cbn [m_cloudGridCenter nextEntity logged setCloudGridCenter].
  rewrite recenter_ok by reflexivity.
  cbn [m_cloudGridCenter].
  destruct (Float3_neq _ _); [|reflexivity].
  rewrite applyNew_nothing by reflexivity. reflexivity.
Qed.

Lemma groups_of_no_tiles s :
  System.expectedCloudCount s = 0%nat -> m_cloudTypes s = [].
Proof.
  unfold System.expectedCloudCount. intros H.
  destruct (m_cloudTypes s) as [|c l]; [reflexivity|]. exfalso.
  cbn [length] in H.
  replace (S (length l) + 4 - 1)%nat with (length l + 1 * 4)%nat in H by lia.
  rewrite Nat.div_add in H by lia.
  rewrite Nat.div_mul in H by lia. lia.
Qed.

(** A spawn cycle that ends normally leaves the system settled; if it
    leaves no tiles, there were none and there are no cloud types. *)
Lemma doSpawnCycle_post K s playerPos s' :
  System.doSpawnCycle K s playerPos = Done s' ->
  settled K s' playerPos /\
  (m_managedClouds s' = [] -> m_managedClouds s = [] /\ m_cloudTypes s = []).
Proof.
  intros Hrun.
  destruct (m_managedClouds s) as [|e rest] eqn:E.
  - destruct (doSpawnCycle_populates K s playerPos E)
      as (s2 & Hrun2 & Hlen & Ht & _ & Hs).
    rewrite Hrun2 in Hrun. inversion Hrun; subst s2.
    split; [exact Hs|]. intros Hnil. split; [reflexivity|].
    apply groups_of_no_tiles. rewrite <- Hlen, Hnil. reflexivity.
  - assert (m_managedClouds s <> []) as Hne by (rewrite E; discriminate).
    destruct (Nat.eq_dec (length (m_managedClouds s))
                (System.expectedCloudCount s)) as [Hc|Hc].
    + rewrite (doSpawnCycle_keeps K s playerPos Hne Hc) in Hrun.
      inversion Hrun as [Hs']. clear Hrun. split.
      * apply retarget_settled. assumption.
      * intros Hnil. exfalso.
        destruct (retarget_frame K s playerPos) as [_ Hr]. cbv zeta in Hr.
        apply roster_length in Hr.
        rewrite Hnil, E in Hr. discriminate.
    + rewrite (doSpawnCycle_deviation K s playerPos Hne Hc) in Hrun.
      discriminate.
Qed.

Lemma same_center_spawn_cycle (K : Constants)
  (getVelocityAt : Float2 -> Float2) (s0 s1 : CompoundCloudSystem)
  (p1 p2 : Float3) :
  System.Run K getVelocityAt s0 p1 = Done s1 ->
  calculateGridCenterForPlayerPos K p2 = calculateGridCenterForPlayerPos K p1 ->
  System.doSpawnCycle K s1 p2 = Done s1.
Proof.
  intros Hrun Hsame. unfold System.Run in Hrun.
  destruct (System.doSpawnCycle K s0 p1) as [s1a|] eqn:E1;
    cbn [mbind Outcome_bind] in Hrun; [|discriminate].
  match type of Hrun with
  | context [forEachO ?f ?m ?l] =>
      destruct (forEachO f m l) as [m'|] eqn:E2;
        cbn [mbind Outcome_bind] in Hrun; [|discriminate]
  end.
  inversion Hrun as [Hs1]. clear Hrun.
  apply process_all_roster in E2.
  destruct (doSpawnCycle_post K s0 p1 s1a E1) as [[Hcount Hcenter] Hnil].
  assert (m' = [] \/ m' <> []) as [Em|Em]
    by (destruct m'; [left; reflexivity|right; discriminate]).
  - subst m'.
    assert (m_managedClouds s1a = []) as Hm.
    { apply roster_length in E2. apply length_zero_iff_nil.
      rewrite <- E2. reflexivity. }
    destruct (Hnil Hm) as [Hm0 Ht0].
    rewrite (doSpawnCycle_nothing K s0 p1 Hm0 Ht0) in E1.
    inversion E1 as [Hs1a]. cbn [setManagedClouds m_cloudTypes
      m_cloudGridCenter m_tooFarAwayClouds nextEntity logged].
    rewrite doSpawnCycle_nothing by reflexivity.
    cbn [nextEntity logged]. rewrite Hsame. reflexivity.
  - assert (length (m_managedClouds (setManagedClouds m' s1a))
            = System.expectedCloudCount (setManagedClouds m' s1a)) as Hc.
    { cbn [m_managedClouds setManagedClouds].
      rewrite (roster_length _ _ E2). exact Hcount. }
    rewrite doSpawnCycle_keeps; [|exact Em|exact Hc].
    cbn [m_cloudGridCenter setManagedClouds]. rewrite Hsame, Hcenter.
    reflexivity.
Qed.

(** C8.  After a tick, the spawn cycle of a tick whose player position
    snaps to the same grid centre returns the system as it is: no tile is
    moved, recycled or relinked, nothing is logged.  The solver of that
    tick changes neither the position nor the links of any tile. *)
Theorem same_center_tick_is_idle (K : Constants)
  (getVelocityAt : Float2 -> Float2) (s0 s1 : CompoundCloudSystem)
  (p1 p2 : Float3) :
  System.Run K getVelocityAt s0 p1 = Done s1 ->
  calculateGridCenterForPlayerPos K p2 = calculateGridCenterForPlayerPos K p1 ->
  System.doSpawnCycle K s1 p2 = Done s1
  /\ (forall s2,
        System.Run K getVelocityAt s1 p2 = Done s2 ->
        tileView m_position (m_managedClouds s2)
        = tileView m_position (m_managedClouds s1)
        /\ tileView linksOf (m_managedClouds s2)
           = tileView linksOf (m_managedClouds s1)
        /\ m_cloudGridCenter s2 = m_cloudGridCenter s1
        /\ m_tooFarAwayClouds s2 = m_tooFarAwayClouds s1
        /\ logged s2 = logged s1).
Proof.
  intros Hrun Hsame.
  pose proof (same_center_spawn_cycle K getVelocityAt s0 s1 p1 p2 Hrun Hsame)
    as Hidle.
  split; [exact Hidle|].
  intros s2 Hrun2. unfold System.Run in Hrun2. rewrite Hidle in Hrun2.
  cbn [mbind Outcome_bind] in Hrun2.
  match type of Hrun2 with
  | context [forEachO ?f ?m ?l] =>
      destruct (forEachO f m l) as [m'|] eqn:E;
        cbn [mbind Outcome_bind] in Hrun2; [|discriminate]
  end.
  inversion Hrun2 as [Hs2]. cbn [m_managedClouds setManagedClouds
    m_cloudGridCenter m_tooFarAwayClouds logged].
  split; [|split; [|repeat split]].
  - eapply process_all_view; [|exact E]. intros l c. reflexivity.
  - eapply process_all_view; [|exact E]. intros l c. reflexivity.
Qed.

(** ** The small world: witnesses and counterexamples *)

(** C1, counterexample.  In the small world with 8 units in the cell at
    the origin, one pass with [dt = 5] and rate [0.007] writes
    [8 * 0.965 = 193/25] at that cell; the formula on the history values
    gives [0]. *)
Lemma diffuse_ignores_history_of_cell :
  (System.readOld
     (System.diffuse Example.K (7 # 1000) 5%Z 0 5%Z
        (m_managedClouds Example.fed)) 5%Z 0 1 1 == 193 # 25)%Q
  /\ (historyDiffusionValue Example.K (inject_Z 5 * (7 # 1000))
        (m_managedClouds Example.fed) 5%Z 0 1 1 == 0)%Q
  /\ ~ (System.readOld
          (System.diffuse Example.K (7 # 1000) 5%Z 0 5%Z
             (m_managedClouds Example.fed)) 5%Z 0 1 1
        == historyDiffusionValue Example.K (inject_Z 5 * (7 # 1000))
             (m_managedClouds Example.fed) 5%Z 0 1 1)%Q.
Proof.
  split; [vm_compute; reflexivity|].
  split; [vm_compute; reflexivity|].
  vm_compute. discriminate.
Qed.

Lemma centreTile_cells (x y : nat) :
  (x < CLOUD_SIMULATION_WIDTH Example.K)%nat ->
  (y < CLOUD_SIMULATION_HEIGHT Example.K)%nat ->
  oldCell (Example.centreTile Example.fed) 0 x y.
Proof.
  intros Hx Hy.
  destruct x as [|[|x]]; [| |cbn in Hx; lia];
    (destruct y as [|[|y]]; [| |cbn in Hy; lia]);
    (eexists; split; [vm_compute; reflexivity|];
     eexists; split; [vm_compute; reflexivity|cbn; lia]).
Defined.

(** C1, witness: entity 5 of the small world, slot 0, cell [(1, 1)]. *)
Lemma diffuse_witness :
  System.readOld
    (System.diffuse Example.K (7 # 1000) 5%Z 0 5%Z
       (m_managedClouds Example.fed)) 5%Z 0 1 1
  = inPlaceDiffusionValue Example.K (inject_Z 5 * (7 # 1000))
      (m_managedClouds Example.fed)
      (System.diffuse Example.K (7 # 1000) 5%Z 0 5%Z
         (m_managedClouds Example.fed))
      5%Z 0 (Example.centreTile Example.fed) 1 1.
Proof.
  exact (proj1 (diffuse_writes_history_in_place Example.K (7 # 1000) 5%Z
                  (m_managedClouds Example.fed) 5%Z 0
                  (Example.centreTile Example.fed) 1 1
                  ltac:(vm_compute; reflexivity) centreTile_cells
                  ltac:(vm_compute; discriminate)
                  ltac:(vm_compute; discriminate)
                  ltac:(vm_compute; discriminate)
                  ltac:(vm_compute; discriminate)
                  ltac:(cbn; lia) ltac:(cbn; lia))).
Defined.

(** C2, what the code does.  After [registerCloudTypes] in the small
    world the tile at grid coordinate [(0, 0)] (entity 5) has as left
    neighbour the tile at [(0, -1)] (entity 2), its upper neighbour, and
    as right neighbour the tile at [(0, 1)] (entity 8), its lower
    neighbour; the tiles at [(-1, 0)] and [(1, 0)] are entities 4 and 6.
    The tile at [(0, -1)] has no left neighbour although it is not on
    the left edge. *)
Theorem setUpCloudLinks_left_is_upper :
  exists s,
    System.registerCloudTypes Example.K emptySystem [Example.compoundA]
    = Done s
    /\ m_position <$> deref (m_managedClouds s) 5%Z = Some (mkFloat3 0 0 0)
    /\ m_position <$> deref (m_managedClouds s) 2%Z
       = Some (mkFloat3 0 0 (0 + inject_Z (-1) * 4))
    /\ m_position <$> deref (m_managedClouds s) 4%Z
       = Some (mkFloat3 (0 + inject_Z (-1) * 4) 0 0)
    /\ m_position <$> deref (m_managedClouds s) 6%Z
       = Some (mkFloat3 (0 + inject_Z 1 * 4) 0 0)
    /\ m_position <$> deref (m_managedClouds s) 8%Z
       = Some (mkFloat3 0 0 (0 + inject_Z 1 * 4))
    /\ deref (m_managedClouds s) 5%Z ≫= m_upperCloud = Some 2%Z
    /\ deref (m_managedClouds s) 5%Z ≫= m_lowerCloud = Some 8%Z
    /\ deref (m_managedClouds s) 5%Z ≫= m_leftCloud = Some 2%Z
    /\ deref (m_managedClouds s) 5%Z ≫= m_rightCloud = Some 8%Z
    /\ deref (m_managedClouds s) 2%Z ≫= m_leftCloud = None.
Proof.
  eexists. split; [vm_compute; reflexivity|].
  repeat split; vm_compute; reflexivity.
Qed.





(** C5, witness: the tiles centred at [(0, 0, 0)] and [(4, 0, 0)], a
    point inside the first and a point on their shared boundary. *)
Lemma containsPosition_witness :
  cloudContainsPosition Example.K (mkFloat3 0 0 0) (mkFloat3 1 0 1) = true
  /\ cloudContainsPosition Example.K (mkFloat3 4 0 0) (mkFloat3 1 0 1) = false
  /\ cloudContainsPosition Example.K (mkFloat3 0 0 0) (mkFloat3 2 0 1) = false
  /\ cloudContainsPosition Example.K (mkFloat3 4 0 0) (mkFloat3 2 0 1) = true.
Proof.
  pose proof (containsPosition_half_open_exclusive Example.K
                ltac:(vm_compute; reflexivity) ltac:(vm_compute; reflexivity))
    as (_ & Hexcl & Hedge & _).
  split; [vm_compute; reflexivity|]. split.
  - apply (Hexcl (mkFloat3 0 0 0) (mkFloat3 4 0 0) (mkFloat3 1 0 1) 1%Z).
    + discriminate.
    + left. vm_compute. reflexivity.
    + vm_compute. reflexivity.
  - apply (Hedge (mkFloat3 0 0 0) (mkFloat3 4 0 0) (mkFloat3 2 0 1));
      vm_compute; solve [reflexivity | discriminate].
Defined.




(** C8, witness: a tick with the player at [(1, 0, 0)], then one at
    [(3/2, 0, -1)]; both snap to the origin. *)
Lemma same_center_tick_witness :
  System.doSpawnCycle Example.K Example.ticked (mkFloat3 (3 # 2) 0 (-1))
  = Done Example.ticked
  /\ (forall s2,
        System.Run Example.K Example.drift Example.ticked
          (mkFloat3 (3 # 2) 0 (-1)) = Done s2 ->
        tileView m_position (m_managedClouds s2)
        = tileView m_position (m_managedClouds Example.ticked)
        /\ tileView linksOf (m_managedClouds s2)
           = tileView linksOf (m_managedClouds Example.ticked)
        /\ m_cloudGridCenter s2 = m_cloudGridCenter Example.ticked
        /\ m_tooFarAwayClouds s2 = m_tooFarAwayClouds Example.ticked
        /\ logged s2 = logged Example.ticked).
Proof.
  exact (same_center_tick_is_idle Example.K Example.drift Example.fed
           Example.ticked (mkFloat3 1 0 0) (mkFloat3 (3 # 2) 0 (-1))
           ltac:(vm_compute; reflexivity) ltac:(vm_compute; reflexivity)).
Defined.

(** C9, what the code does.  [addCloud] with the empty sentinel as
    compound id succeeds on the tile at the origin and adds the amount to
    its second slot, whose id is the sentinel and whose density was 0. *)
Theorem addCloud_fills_empty_slot :
  exists s',
    System.addCloud Example.K Example.started (NULL_COMPOUND Example.K) 5
      Example.origin = Done (true, s')
    /\ cloud_id <$> (deref (m_managedClouds s') 5%Z
                     ≫= (fun c => clouds c !! 1%nat))
       = Some (NULL_COMPOUND Example.K)
    /\ System.readDensity (m_managedClouds Example.started) 5%Z 1 1 1 = 0%Q
    /\ System.readDensity (m_managedClouds s') 5%Z 1 1 1 = (0 + 5)%Q.
Proof.
  eexists. split; [vm_compute; reflexivity|].
  repeat split; vm_compute; reflexivity.
Qed.

(** C10, witness: in [fed] the cell at the origin has live density 8 and
    history value 0; after [advect] its live density is 0. *)
Lemma advect_witness :
  System.readDensity (m_managedClouds Example.fed) 5%Z 0 1 1 = 8%Q
  /\ System.readDensity
       (System.advect Example.K Example.drift 5%Z 0 5%Z (mkFloat2 0 0)
          (m_managedClouds Example.fed)) 5%Z 0 1 1 = 0%Q.
Proof.
  split; [vm_compute; reflexivity|].
  refine (proj2 (proj2 (proj2
            (advect_deposits_only_above_one Example.K Example.drift 5%Z 0 5%Z
               (mkFloat2 0 0) (m_managedClouds Example.fed))))
            _ 1%nat 1%nat ltac:(cbn; lia) ltac:(cbn; lia) _).
  - intros x y Hx Hy.
    destruct x as [|[|x]]; [| |cbn in Hx; lia];
      (destruct y as [|[|y]]; [| |cbn in Hy; lia]);
      vm_compute; discriminate.
  - eexists. split; [vm_compute; reflexivity|].
    eexists. split; [vm_compute; reflexivity|].
    eexists. split; [vm_compute; reflexivity|cbn; lia].
Defined.

(** * Further properties of the code *)

(** ** Containment and conversion *)






(** X2.  Where [convertWorldToCloudLocal] yields a cell,
    [convertWorldToCloudLocalForGrab] yields the same two coordinates as
    [float]s. *)
Theorem convertWorldToCloudLocalForGrab_agrees (K : Constants)
  (c p : Float3) (x y : nat) :
  convertWorldToCloudLocal K c p = Some (x, y) ->
  convertWorldToCloudLocalForGrab K c p
  = (inject_Z (Z.of_nat x), inject_Z (Z.of_nat y)).
Proof.
  unfold convertWorldToCloudLocal, convertWorldToCloudLocalForGrab. cbv zeta.
  set (fx := std_floor _). set (fz := std_floor _).
  destruct (Z.ltb_spec fx 0); [discriminate|].
  destruct (Z.ltb_spec fz 0); [discriminate|].
  cbn [orb].
  destruct (_ || _); [discriminate|].
  intros [= <- <-]. rewrite !Z2Nat.id by lia. reflexivity.
Qed.

(** X2, witness: the position [(5, 0, -1)] in the tile at [(4, 0, 0)]
    is in cell [(1, 0)]. *)
Lemma convertWorldToCloudLocalForGrab_witness :
  convertWorldToCloudLocalForGrab Example.K (mkFloat3 4 0 0)
    (mkFloat3 5 0 (-1))
  = (inject_Z (Z.of_nat 1), inject_Z (Z.of_nat 0)).
Proof.
  exact (convertWorldToCloudLocalForGrab_agrees Example.K (mkFloat3 4 0 0)
           (mkFloat3 5 0 (-1)) 1 0 ltac:(reflexivity)).
Defined.




(** ** The test with a radius *)

Lemma cloudContainsPositionWithRadius_spec K c p r :
  cloudContainsPositionWithRadius K c p r = true <->
  (f3X c - CLOUD_WIDTH K <= f3X p + r)%Q /\
  (f3X p - r < f3X c + CLOUD_WIDTH K)%Q /\
  (f3Z c - CLOUD_HEIGHT K <= f3Z p + r)%Q /\
  (f3Z p - r < f3Z c + CLOUD_HEIGHT K)%Q.
Proof.
  unfold cloudContainsPositionWithRadius.
  rewrite negb_true_iff, !orb_false_iff, !fltb_ge, !fleb_gt. tauto.
Qed.

(** X4.  [cloudContainsPositionWithRadius] holds exactly when the
    square of half side [radius] around the position meets the tile: some
    point that the tile contains is within [radius] of the position on
    both axes (radius not negative, half extents positive). *)
Theorem cloudContainsPositionWithRadius_meets (K : Constants)
  (c p : Float3) (r : Q) :
  (0 <= r)%Q -> (0 < CLOUD_WIDTH K)%Q -> (0 < CLOUD_HEIGHT K)%Q ->
  cloudContainsPositionWithRadius K c p r = true <->
  exists q,
    cloudContainsPosition K c q = true /\
    (Qabs (f3X q - f3X p) <= r)%Q /\ (Qabs (f3Z q - f3Z p) <= r)%Q.
Proof.
  intros Hr HW HH.
  rewrite cloudContainsPositionWithRadius_spec. split.
  - intros (H1 & H2 & H3 & H4).
    exists (mkFloat3
              (if Qlt_le_dec (f3X c - CLOUD_WIDTH K) (f3X p - r)
               then f3X p - r else f3X c - CLOUD_WIDTH K)
              0
              (if Qlt_le_dec (f3Z c - CLOUD_HEIGHT K) (f3Z p - r)
               then f3Z p - r else f3Z c - CLOUD_HEIGHT K)).
    rewrite cloudContainsPosition_spec. cbn [f3X f3Z].
    destruct (Qlt_le_dec (f3X c - CLOUD_WIDTH K) (f3X p - r));
      destruct (Qlt_le_dec (f3Z c - CLOUD_HEIGHT K) (f3Z p - r));
      repeat split; try lra; apply Qabs_Qle_condition; split; lra.
  - intros (q & Hin & Hx & Hz).
    apply cloudContainsPosition_spec in Hin.
    apply Qabs_Qle_condition in Hx, Hz. lra.
Qed.

(** X4, witness: the tile at [(4, 0, 0)], the position
    [(13/2, 0, -3)] outside of it, and radius 1. *)
Lemma cloudContainsPositionWithRadius_witness :
  cloudContainsPositionWithRadius Example.K (mkFloat3 4 0 0)
    (mkFloat3 (13 # 2) 0 (-3)) 1 = true <->
  exists q,
    cloudContainsPosition Example.K (mkFloat3 4 0 0) q = true /\
    (Qabs (f3X q - f3X (mkFloat3 (13 # 2) 0 (-3))) <= 1)%Q /\
    (Qabs (f3Z q - f3Z (mkFloat3 (13 # 2) 0 (-3))) <= 1)%Q.
Proof.
  exact (cloudContainsPositionWithRadius_meets Example.K (mkFloat3 4 0 0)
           (mkFloat3 (13 # 2) 0 (-3)) 1
           ltac:(discriminate) ltac:(reflexivity) ltac:(reflexivity)).
Defined.

(** ** The grid centre *)










(** ** Slots of a tile *)

(** X7.  [getSlotForCompound] returns the first of the four slots whose
    id is the compound, and throws exactly when [handlesCompound] is
    false, that is when none of the four slots has the id. *)
Theorem getSlotForCompound_first_match (c : CompoundCloudComponent)
  (compound : CompoundId) :
  match Component.getSlotForCompound c compound with
  | Done slot =>
      Component.handlesCompound c compound = true /\
      (slot < CLOUDS_IN_ONE)%nat /\
      cloud_id <$> clouds c !! slot = Some compound /\
      (forall i, (i < slot)%nat ->
                 cloud_id <$> clouds c !! i <> Some compound)
  | Aborted why =>
      why = RuntimeError /\
      Component.handlesCompound c compound = false /\
      (forall i, (i < CLOUDS_IN_ONE)%nat ->
                 cloud_id <$> clouds c !! i <> Some compound)
  end.
Proof.
  unfold Component.getSlotForCompound, Component.handlesCompound.
  destruct (list_find (fun cd => compound = cloud_id cd)
              (take CLOUDS_IN_ONE (clouds c))) as [[i cd]|] eqn:E.
  - apply list_find_Some in E. destruct E as (Hi & Hcd & Hfirst).
    pose proof (lookup_lt_Some _ _ _ Hi) as Hlt. rewrite length_take in Hlt.
    rewrite lookup_take_lt in Hi by lia.
    split; [|split; [lia|split]].
    + apply existsb_exists. exists cd. split.
      * apply list_elem_of_In. apply (list_elem_of_lookup_2 _ i).
        rewrite lookup_take_lt by lia. exact Hi.
      * apply Z.eqb_eq. exact Hcd.
    + rewrite Hi. cbn. congruence.
    + intros j Hj Hc.
      destruct (clouds c !! j) as [cd'|] eqn:Ej; [|discriminate].
      cbn in Hc. apply (Hfirst j cd'); [|lia|congruence].
      rewrite lookup_take_lt by lia. exact Ej.
  - apply list_find_None in E. rewrite Forall_forall in E.
    split; [reflexivity|split].
    + apply not_true_is_false. intros H. apply existsb_exists in H.
      destruct H as (cd & Hin & Heq). apply Z.eqb_eq in Heq.
      apply (E cd); [apply list_elem_of_In; exact Hin|exact Heq].
    + intros i Hi Hc.
      destruct (clouds c !! i) as [cd|] eqn:Ei; [|discriminate].
      cbn in Hc. apply (E cd); [|congruence].
      apply (list_elem_of_lookup_2 _ i). rewrite lookup_take_lt by exact Hi.
      exact Ei.
Qed.

(** ** The queries never throw *)

Lemma queries_agree K m compound pos rate :
  exists amount msgs1 m' msgs2,
    System.amountAvailableScan K m compound pos rate = Done (amount, msgs1) /\
    System.takeCompoundScan K m compound pos rate
    = Done (amount, m', msgs2).
Proof.
  induction m as [|[e c] m IH].
  - exists 0%Q, [], [], []. split; reflexivity.
  - cbn [System.amountAvailableScan System.takeCompoundScan].
    destruct (cloudContainsPosition K (m_position c) pos
              && Component.handlesCompound c compound) eqn:E.
    + apply andb_true_iff in E. destruct E as [_ Hh].
      destruct (handlesCompound_slot c compound Hh) as (slot & cd & Hslot & _).
      destruct (convertWorldToCloudLocal K (m_position c) pos) as [[x y]|].
      * unfold Component.amountAvailable, Component.takeCompound.
        rewrite Hslot. cbn. repeat eexists.
      * repeat eexists.
    + destruct IH as (amount & msgs1 & m' & msgs2 & H1 & H2).
      rewrite H1, H2. cbn. repeat eexists.
Qed.

Lemma logs_keep_tiles msgs s :
  m_managedClouds (fold_left (fun s msg => log msg s) msgs s)
  = m_managedClouds s.
Proof.
  revert s. induction msgs as [|msg msgs IH]; intros s; [reflexivity|].
  cbn [fold_left]. rewrite IH. reflexivity.
Qed.

(** X8.  The two queries never throw (the guard [handlesCompound] keeps
    [getSlotForCompound] from throwing), [amountAvailable] leaves the tiles
    as they are, and it returns the amount that [takeCompound] returns for
    the same arguments. *)
Theorem amountAvailable_predicts_takeCompound (K : Constants)
  (s : CompoundCloudSystem) (compound : CompoundId) (pos : Float3)
  (rate : Q) :
  exists amount s1 s2,
    System.amountAvailable K s compound pos rate = Done (amount, s1) /\
    m_managedClouds s1 = m_managedClouds s /\
    System.takeCompound K s compound pos rate = Done (amount, s2).
Proof.
  destruct (queries_agree K (m_managedClouds s) compound pos rate)
    as (amount & msgs1 & m' & msgs2 & H1 & H2).
  unfold System.amountAvailable, System.takeCompound. rewrite H1, H2.
  cbn. eexists _, _, _. split; [reflexivity|].
  split; [apply logs_keep_tiles|reflexivity].
Qed.

(** ** Adding to a cloud *)




(** *** What was added is available *)













(** ** Taking within the bounds *)



(** ** What is available at a position *)

Lemma getCompoundsAt_In K c x y result e :
  In e (Component.getCompoundsAt K c x y result) <->
  In e result \/
  exists cd,
    In cd (clouds c) /\ cloud_id cd <> NULL_COMPOUND K /\
    (0 < fieldGet (density cd) x y)%Q /\
    e = (cloud_id cd, fieldGet (density cd) x y).
Proof.
  unfold Component.getCompoundsAt. generalize (clouds c). intros l.
  revert result. induction l as [|cd l IH]; intros result.
  - cbn. split; [auto|]. intros [H|(cd & [] & _)]. exact H.
  - cbn [foldl]. rewrite IH. clear IH.
    destruct (Z.eqb_spec (cloud_id cd) (NULL_COMPOUND K)) as [Hnull|Hnn];
      cbn [negb].
    + split.
      * intros [H|(cd' & Hin & Hrest)]; [left; exact H|].
        right. exists cd'. split; [right; exact Hin|exact Hrest].
      * intros [H|(cd' & [<-|Hin] & Hid & Hrest)]; [left; exact H| |].
        -- contradiction.
        -- right. exists cd'. split; [exact Hin|]. split; assumption.
    + destruct (fltb 0 (fieldGet (density cd) x y)) eqn:E.
      * apply fltb_lt in E. split.
        -- intros [H|(cd' & Hin & Hrest)].
           ++ apply in_app_or in H. destruct H as [H|[<-|[]]].
              ** left; exact H.
              ** right. exists cd. split; [left; reflexivity|].
                 split; [exact Hnn|]. split; [exact E|reflexivity].
           ++ right. exists cd'. split; [right; exact Hin|exact Hrest].
        -- intros [H|(cd' & [<-|Hin] & Hid & Hpos & ->)].
           ++ left. apply in_or_app. left; exact H.
           ++ left. apply in_or_app. right. left. reflexivity.
           ++ right. exists cd'. split; [exact Hin|].
              split; [exact Hid|]. split; [exact Hpos|reflexivity].
      * apply fltb_ge in E. split.
        -- intros [H|(cd' & Hin & Hrest)]; [left; exact H|].
           right. exists cd'. split; [right; exact Hin|exact Hrest].
        -- intros [H|(cd' & [<-|Hin] & Hid & Hpos & ->)].
           ++ left; exact H.
           ++ exfalso. lra.
           ++ right. exists cd'. split; [exact Hin|].
              split; [exact Hid|]. split; [exact Hpos|reflexivity].
Qed.

Lemma getAllAvailableAt_fold K pos m acc e :
  let step :=
    fun (acc : list (CompoundId * Q) * CompoundCloudSystem)
        (entry : ObjectID * CompoundCloudComponent) =>
      let c := snd entry in
      if cloudContainsPosition K (m_position c) pos
      then
        match convertWorldToCloudLocal K (m_position c) pos with
        | Some (x, y) => (Component.getCompoundsAt K c x y (fst acc), snd acc)
        | None =>
            (fst acc,
             log "CompoundCloudSystem: can't get available compounds from cloud because the cloud math is wrong"
               (snd acc))
        end
      else acc in
  (In e (fst (foldl step acc m)) <->
   In e (fst acc) \/
   exists p c x y cd,
     In (p, c) m /\
     cloudContainsPosition K (m_position c) pos = true /\
     convertWorldToCloudLocal K (m_position c) pos = Some (x, y) /\
     In cd (clouds c) /\ cloud_id cd <> NULL_COMPOUND K /\
     (0 < fieldGet (density cd) x y)%Q /\
     e = (cloud_id cd, fieldGet (density cd) x y)) /\
  m_managedClouds (snd (foldl step acc m)) = m_managedClouds (snd acc).
Proof.
  intros step. revert acc. induction m as [|[p c] m IH]; intros acc.
  - cbn. split; [|reflexivity]. split; [auto|].
    intros [H|(p & c & x & y & cd & [] & _)]. exact H.
  - cbn [foldl]. destruct (IH (step acc (p, c))) as [IH1 IH2].
    rewrite IH1, IH2. clear IH IH1 IH2. unfold step. cbn [snd].
    destruct (cloudContainsPosition K (m_position c) pos) eqn:Hin.
    + destruct (convertWorldToCloudLocal K (m_position c) pos)
        as [[x y]|] eqn:Hconv; cbn [fst snd].
      * split; [|reflexivity]. rewrite getCompoundsAt_In. split.
        -- intros [[H|(cd & Hcd & Hid & Hpos & ->)]|
                   (p' & c' & x' & y' & cd & Hi & Hrest)].
           ++ left; exact H.
           ++ right. exists p, c, x, y, cd. split; [left; reflexivity|].
              repeat split; assumption.
           ++ right. exists p', c', x', y', cd. split; [right; exact Hi|].
              exact Hrest.
        -- intros [H|(p' & c' & x' & y' & cd & [Heq|Hi] & Hc & Hcv & Hrest)].
           ++ left; left; exact H.
           ++ injection Heq as <- <-. rewrite Hconv in Hcv.
              injection Hcv as <- <-. left. right. exists cd. exact Hrest.
           ++ right. exists p', c', x', y', cd. split; [exact Hi|].
              split; [exact Hc|]. split; [exact Hcv|exact Hrest].
      * split; [|reflexivity]. split.
        -- intros [H|(p' & c' & x' & y' & cd & Hi & Hrest)];
             [left; exact H|].
           right. exists p', c', x', y', cd. split; [right; exact Hi|].
           exact Hrest.
        -- intros [H|(p' & c' & x' & y' & cd & [Heq|Hi] & Hc & Hcv & Hrest)].
           ++ left; exact H.
           ++ injection Heq as <- <-. congruence.
           ++ right. exists p', c', x', y', cd. split; [exact Hi|].
              split; [exact Hc|]. split; [exact Hcv|exact Hrest].
    + split; [|reflexivity]. split.
      * intros [H|(p' & c' & x' & y' & cd & Hi & Hrest)]; [left; exact H|].
        right. exists p', c', x', y', cd. split; [right; exact Hi|].
        exact Hrest.
      * intros [H|(p' & c' & x' & y' & cd & [Heq|Hi] & Hc & Hcv & Hrest)].
        -- left; exact H.
        -- injection Heq as <- <-. congruence.
        -- right. exists p', c', x', y', cd. split; [exact Hi|].
           split; [exact Hc|]. split; [exact Hcv|exact Hrest].
Qed.

(** X12.  [getAllAvailableAt] lists exactly the pairs of id and density
    of the slots that carry a compound (not [NULL_COMPOUND]) and have a
    positive density at the cell of the position, over the tiles that
    contain the position; it leaves the tiles as they are. *)
Theorem getAllAvailableAt_lists_what_is_there (K : Constants)
  (s : CompoundCloudSystem) (pos : Float3) :
  (forall e,
     In e (fst (System.getAllAvailableAt K s pos)) <->
     exists p c x y cd,
       In (p, c) (m_managedClouds s) /\
       cloudContainsPosition K (m_position c) pos = true /\
       convertWorldToCloudLocal K (m_position c) pos = Some (x, y) /\
       In cd (clouds c) /\ cloud_id cd <> NULL_COMPOUND K /\
       (0 < fieldGet (density cd) x y)%Q /\
       e = (cloud_id cd, fieldGet (density cd) x y)) /\
  m_managedClouds (snd (System.getAllAvailableAt K s pos))
  = m_managedClouds s.
Proof.
  unfold System.getAllAvailableAt.
  split.
  - intros e.
    destruct (getAllAvailableAt_fold K pos (m_managedClouds s) ([], s) e)
      as [H _].
    cbv zeta in H. rewrite H. cbn [fst]. split.
    + intros [[]|H']. exact H'.
    + intros H'. right. exact H'.
  - destruct (getAllAvailableAt_fold K pos (m_managedClouds s) ([], s)
                (0%Z, 0%Q)) as [_ H].
    exact H.
Qed.

(** ** Clearing a tile *)

Lemma inField_fieldCells f x y : In (x, y) (fieldCells f) <-> inField f x y.
Proof.
  unfold fieldCells, inField. rewrite in_flat_map. split.
  - intros (x' & Hx & Hin). apply in_map_iff in Hin.
    destruct Hin as (y' & [= <- <-] & Hy). apply in_seq in Hx, Hy.
    destruct (lookup_lt_is_Some_2 f x') as [col Hcol]; [lia|].
    rewrite Hcol in Hy. cbn in Hy. exists col. split; [exact Hcol|lia].
  - intros (col & Hcol & Hy). exists x. split.
    + apply in_seq. pose proof (lookup_lt_Some _ _ _ Hcol). lia.
    + apply in_map. rewrite Hcol. cbn. apply in_seq. lia.
Qed.

Lemma fieldGet_outside f x y : ~ inField f x y -> fieldGet f x y = 0%Q.
Proof.
  unfold inField, fieldGet. intros H.
  destruct (f !! x) as [col|] eqn:Ex; [|reflexivity]. cbn.
  destruct (col !! y) as [v|] eqn:Ey; [|reflexivity].
  exfalso. apply H. exists col. split; [reflexivity|].
  apply (lookup_lt_Some _ _ _ Ey).
Qed.

Lemma clearFields_cells dens old :
  clearFields dens old
  = foldl (fun fs c => (fieldSet (fst fs) (fst c) (snd c) 0%Q,
                        fieldSet (snd fs) (fst c) (snd c) 0%Q))
          (dens, old) (fieldCells dens).
Proof.
  unfold clearFields, fieldCells. generalize (dens, old) as fs.
  generalize (seq 0 (length dens)) as xs.
  induction xs as [|x xs IH]; intros fs; [reflexivity|].
  cbn [foldl flat_map]. rewrite foldl_app, IH. f_equal.
  rewrite foldl_map. reflexivity.
Qed.

Lemma zeroed_split l (a b : Field) :
  foldl (fun fs (c : nat * nat) =>
           (fieldSet (fst fs) (fst c) (snd c) 0%Q,
            fieldSet (snd fs) (fst c) (snd c) 0%Q)) (a, b) l
  = (foldl (fun f c => fieldSet f (fst c) (snd c) 0%Q) a l,
     foldl (fun f c => fieldSet f (fst c) (snd c) 0%Q) b l).
Proof.
  revert a b. induction l as [|c l IH]; intros a b; [reflexivity|].
  cbn [foldl fst snd]. apply IH.
Qed.

Lemma inField_zeroed l f x y :
  inField (foldl (fun f (c : nat * nat) => fieldSet f (fst c) (snd c) 0%Q) f l)
          x y
  <-> inField f x y.
Proof.
  revert f. induction l as [|c l IH]; intros f; [reflexivity|].
  cbn [foldl]. rewrite IH. apply inField_fieldSet.
Qed.

Lemma inField_or_not f x y : inField f x y \/ ~ inField f x y.
Proof.
  unfold inField. destruct (f !! x) as [col|] eqn:Ex.
  - destruct (lt_dec y (length col)) as [Hy|Hy].
    + left. exists col. split; [reflexivity|exact Hy].
    + right. intros (col' & [= <-] & Hlt). contradiction.
  - right. intros (col' & [=] & _).
Qed.

Lemma fieldGet_zeroed l f x y :
  (In (x, y) l ->
   fieldGet (foldl (fun f (c : nat * nat) => fieldSet f (fst c) (snd c) 0%Q)
               f l) x y = 0%Q) /\
  (~ In (x, y) l ->
   fieldGet (foldl (fun f (c : nat * nat) => fieldSet f (fst c) (snd c) 0%Q)
               f l) x y = fieldGet f x y).
Proof.
  revert f. induction l as [|[cx cy] l IH]; intros f.
  - cbn. split; [contradiction|reflexivity].
  - cbn [foldl fst snd]. destruct (IH (fieldSet f cx cy 0%Q)) as [IH1 IH2].
    split.
    + intros [Heq|Hin].
      * injection Heq as -> ->.
        destruct (in_dec (fun a b : nat * nat => decide (a = b)) (x, y) l)
          as [Hin|Hout]; [apply IH1; exact Hin|].
        rewrite IH2 by exact Hout.
        destruct (inField_or_not f x y) as [Hf|Hf].
        -- apply fieldGet_fieldSet_eq. exact Hf.
        -- apply fieldGet_outside. rewrite inField_fieldSet. exact Hf.
      * apply IH1. exact Hin.
    + intros Hout. rewrite IH2 by (intros H; apply Hout; right; exact H).
      apply fieldGet_fieldSet_ne. intros Heq. apply Hout. left. exact Heq.
Qed.

Lemma clearFields_density dens old x y :
  fieldGet (fst (clearFields dens old)) x y = 0%Q.
Proof.
  rewrite clearFields_cells, zeroed_split. cbn [fst].
  destruct (fieldGet_zeroed (fieldCells dens) dens x y) as [H1 H2].
  destruct (inField_or_not dens x y) as [Hf|Hf].
  - apply H1. apply inField_fieldCells. exact Hf.
  - rewrite H2 by (rewrite inField_fieldCells; exact Hf).
    apply fieldGet_outside. exact Hf.
Qed.

Lemma clearFields_oldDensity dens old x y :
  fieldGet (snd (clearFields dens old)) x y
  = 0%Q \/
  (~ inField dens x y /\
   fieldGet (snd (clearFields dens old)) x y = fieldGet old x y).
Proof.
  rewrite clearFields_cells, zeroed_split. cbn [snd].
  destruct (fieldGet_zeroed (fieldCells dens) old x y) as [H1 H2].
  destruct (inField_or_not dens x y) as [Hf|Hf].
  - left. apply H1. apply inField_fieldCells. exact Hf.
  - right. split; [exact Hf|]. apply H2. rewrite inField_fieldCells. exact Hf.
Qed.

Lemma fieldSized_fieldSet K f x y v :
  fieldSized K (fieldSet f x y v) = fieldSized K f.
Proof.
  unfold fieldSized, fieldSet. rewrite length_alter. f_equal.
  revert x. induction f as [|col f IH]; intros [|x]; try reflexivity.
  - cbn. rewrite length_insert. reflexivity.
  - cbn. rewrite (IH x). reflexivity.
Qed.

Lemma fieldSized_zeroed K l f :
  fieldSized K
    (foldl (fun f (c : nat * nat) => fieldSet f (fst c) (snd c) 0%Q) f l)
  = fieldSized K f.
Proof.
  revert f. induction l as [|c l IH]; intros f; [reflexivity|].
  cbn [foldl]. rewrite IH. apply fieldSized_fieldSet.
Qed.

Lemma clearFields_sized K dens old :
  fieldSized K (fst (clearFields dens old)) = fieldSized K dens /\
  fieldSized K (snd (clearFields dens old)) = fieldSized K old.
Proof.
  rewrite clearFields_cells, zeroed_split. cbn [fst snd].
  split; apply fieldSized_zeroed.
Qed.

Lemma clearCloudData_sized K cd :
  fieldSized K (density (Component.clearCloudData K cd))
  = fieldSized K (density cd) /\
  fieldSized K (oldDensity (Component.clearCloudData K cd))
  = fieldSized K (oldDensity cd).
Proof.
  unfold Component.clearCloudData.
  destruct (negb _); [|split; reflexivity].
  cbn [density oldDensity]. apply clearFields_sized.
Qed.

Lemma clearCloudData_nothing K cd x y :
  cloud_id cd <> NULL_COMPOUND K ->
  fieldGet (density (Component.clearCloudData K cd)) x y = 0%Q.
Proof.
  intros Hid. unfold Component.clearCloudData.
  destruct (Z.eqb_spec (cloud_id cd) (NULL_COMPOUND K)); [contradiction|].
  cbn [negb density]. apply clearFields_density.
Qed.

Lemma cleared_holdsNothing K (l : list CloudData) c :
  holdsNothing K (setClouds (map (Component.clearCloudData K) l) c).
Proof.
  intros cd Hin Hid x y. cbn [clouds setClouds] in Hin.
  apply in_map_iff in Hin. destruct Hin as (cd0 & <- & _).
  rewrite clearCloudData_id in Hid. apply clearCloudData_nothing. exact Hid.
Qed.

Lemma holdsNothing_getCompoundsAt K c x y result :
  holdsNothing K c -> Component.getCompoundsAt K c x y result = result.
Proof.
  intros Hc. unfold Component.getCompoundsAt.
  assert (forall cd, In cd (clouds c) ->
            cloud_id cd <> NULL_COMPOUND K ->
            fieldGet (density cd) x y = 0%Q) as H
    by (intros cd Hin Hid; apply Hc; assumption).
  revert H. generalize (clouds c). intros l. revert result.
  induction l as [|cd l IH]; intros result H; [reflexivity|].
  cbn [foldl].
  destruct (Z.eqb_spec (cloud_id cd) (NULL_COMPOUND K)) as [Hn|Hn]; cbn [negb].
  - apply IH. intros cd' Hin. apply H. right. exact Hin.
  - rewrite (H cd (or_introl eq_refl) Hn). cbn.
    apply IH. intros cd' Hin. apply H. right. exact Hin.
Qed.

Lemma tileSized_cleared K l c :
  tileSized K (setClouds (map (Component.clearCloudData K) l) c)
  = forallb (fun cd => fieldSized K (density cd)
                       && fieldSized K (oldDensity cd)) l.
Proof.
  unfold tileSized. cbn [clouds setClouds].
  induction l as [|cd l IH]; [reflexivity|].
  cbn [map forallb]. rewrite IH.
  destruct (clearCloudData_sized K cd) as [-> ->]. reflexivity.
Qed.

(** X13.  [recycleToPosition] moves the tile and empties it: the position
    is the new one, the slot ids, links and initialised flag are kept, the
    field sizes are kept, every slot that carries a compound reads 0 in
    its live field (and in its history field, at the cells of the live
    field), a slot with [NULL_COMPOUND] is not touched, and
    [getCompoundsAt] finds nothing. *)
Theorem recycleToPosition_empties (K : Constants) (newPosition : Float3)
  (c : CompoundCloudComponent) :
  m_position (Component.recycleToPosition K newPosition c) = newPosition /\
  map cloud_id (clouds (Component.recycleToPosition K newPosition c))
  = map cloud_id (clouds c) /\
  linksOf (Component.recycleToPosition K newPosition c) = linksOf c /\
  m_initialized (Component.recycleToPosition K newPosition c)
  = m_initialized c /\
  tileSized K (Component.recycleToPosition K newPosition c) = tileSized K c /\
  (forall slot x y,
     cloud_id <$> clouds c !! slot <> Some (NULL_COMPOUND K) ->
     Component.slotDensity (Component.recycleToPosition K newPosition c)
       slot x y = 0%Q /\
     (densityCell c slot x y ->
      Component.slotOldDensity (Component.recycleToPosition K newPosition c)
        slot x y = 0%Q)) /\
  (forall slot,
     cloud_id <$> clouds c !! slot = Some (NULL_COMPOUND K) ->
     clouds (Component.recycleToPosition K newPosition c) !! slot
     = clouds c !! slot) /\
  (forall x y result,
     Component.getCompoundsAt K (Component.recycleToPosition K newPosition c)
       x y result = result).
Proof.
  unfold Component.recycleToPosition.
  split; [reflexivity|]. split.
  { cbn [clouds setClouds setPosition]. rewrite map_map.
    apply map_ext. intros cd. apply clearCloudData_id. }
  split; [reflexivity|]. split; [reflexivity|]. split.
  { rewrite tileSized_cleared. reflexivity. }
  split; [|split].
  - intros slot x y Hid.
    unfold Component.slotDensity, Component.slotOldDensity.
    cbn [clouds setClouds setPosition].
    change (map (Component.clearCloudData K) (clouds c))
      with (Component.clearCloudData K <$> clouds c).
    rewrite list_lookup_fmap.
    destruct (clouds c !! slot) as [cd|] eqn:Ecd; cbn; [|auto].
    assert (cloud_id cd <> NULL_COMPOUND K) as Hcd
      by (intros Heq; apply Hid; cbn; congruence).
    split; [apply clearCloudData_nothing; exact Hcd|].
    intros (cd' & Hcd' & Hcell). rewrite Ecd in Hcd'. injection Hcd' as <-.
    unfold Component.clearCloudData.
    destruct (Z.eqb_spec (cloud_id cd) (NULL_COMPOUND K)); [contradiction|].
    cbn [negb oldDensity].
    destruct (clearFields_oldDensity (density cd) (oldDensity cd) x y)
      as [H|[H _]]; [exact H|contradiction].
  - intros slot Hid. cbn [clouds setClouds setPosition].
    change (map (Component.clearCloudData K) (clouds c))
      with (Component.clearCloudData K <$> clouds c).
    rewrite list_lookup_fmap.
    destruct (clouds c !! slot) as [cd|] eqn:Ecd; cbn; [|reflexivity].
    cbn in Hid. injection Hid as Hid. unfold Component.clearCloudData.
    rewrite Hid, Z.eqb_refl. reflexivity.
  - intros x y result. apply holdsNothing_getCompoundsAt.
    apply cleared_holdsNothing.
Qed.

(** ** Properties of every tile that the spawn cycle keeps *)

Section TileInvariant.
Variable K : Constants.
Variable P : CompoundCloudComponent -> Prop.
Hypothesis P_links : forall u l le r c, P c -> P (setLinks u l le r c).
Hypothesis P_recycle :
  forall pos c, P c -> P (Component.recycleToPosition K pos c).

Lemma all_update f p (m : Store) :
  (forall c, P c -> P (f c)) ->
  Forall (fun e => P (snd e)) m -> Forall (fun e => P (snd e)) (update f p m).
Proof.
  intros Hf Hm. unfold update. apply Forall_forall. intros e Hin.
  apply list_elem_of_In in Hin. apply in_map_iff in Hin.
  destruct Hin as (e0 & <- & Hin0).
  rewrite Forall_forall in Hm. specialize (Hm e0).
  assert (P (snd e0)) as H0 by (apply Hm; apply list_elem_of_In; exact Hin0).
  destruct (Z.eqb (fst e0) p); cbn [snd]; [apply Hf|]; exact H0.
Qed.

Lemma all_setUpCloudLinks clouds (m : Store) :
  Forall (fun e => P (snd e)) m ->
  Forall (fun e => P (snd e)) (System.setUpCloudLinks clouds m).
Proof.
  unfold System.setUpCloudLinks. generalize (map_to_list clouds).
  intros l. revert m. induction l as [|entry l IH]; intros m Hm; cbn [foldl];
    [exact Hm|].
  apply IH. apply all_update; [|exact Hm]. intros c. apply P_links.
Qed.

Lemma all_fillPositions required g idx st :
  Forall (fun e => P (snd e)) (fst (fst (fst st))) ->
  Forall (fun e => P (snd e))
         (fst (fst (fst (System.fillPositions K required g idx st)))).
Proof.
  revert st. induction required as [|r required IH]; intros st Hst;
    cbn [System.fillPositions]; [exact Hst|].
  destruct st as [[[m clouds] tooFar] msgs]. cbn [fst] in Hst.
  destruct (System.hasCloud K m g (snd r)).
  - apply IH. exact Hst.
  - destruct (System.findCandidate K m tooFar idx g) as [[k p]|].
    + apply IH. cbn [fst]. apply all_update; [|exact Hst].
      intros c. apply P_recycle.
    + exact Hst.
Qed.

Lemma all_moveFarClouds s required idx st :
  Forall (fun e => P (snd e)) (fst (fst (fst st))) ->
  Forall (fun e => P (snd e))
         (fst (fst (fst (System.moveFarClouds K s required idx st)))).
Proof.
  unfold System.moveFarClouds. generalize (System.groupStarts s) as starts.
  intros starts. revert st.
  induction starts as [|c starts IH]; intros st Hst; cbn [foldl]; [exact Hst|].
  apply IH. destruct (m_cloudTypes s !! c); [|exact Hst].
  apply all_fillPositions. exact Hst.
Qed.

Lemma all_applyNew s :
  Forall (fun e => P (snd e)) (m_managedClouds s) ->
  Forall (fun e => P (snd e))
         (m_managedClouds (System.applyNewCloudPositioning K s)).
Proof.
  intros Hs. unfold System.applyNewCloudPositioning. cbv zeta.
  destruct (System.collectFarAway K _ _ _ _ _ _)
    as [[[clouds1 tooFar1] idx] msgs1].
  pose proof (all_moveFarClouds s
                (calculateGridPositions K (m_cloudGridCenter s)) idx
                (m_managedClouds s, clouds1, tooFar1, msgs1) Hs) as Hr.
  destruct (System.moveFarClouds K s _ idx _) as [[[m2 clouds2] tooFar2] msgs2].
  cbn [fst] in Hr. cbn [m_managedClouds].
  apply all_setUpCloudLinks. exact Hr.
Qed.

Lemma all_recenter s playerPos s' :
  System.recenter K s playerPos = Done s' ->
  Forall (fun e => P (snd e)) (m_managedClouds s) ->
  Forall (fun e => P (snd e)) (m_managedClouds s').
Proof.
  unfold System.recenter. intros Hrun Hs.
  destruct (negb _); [discriminate|].
  destruct (Float3_neq _ _); injection Hrun as <-; [|exact Hs].
  apply all_applyNew. exact Hs.
Qed.

Hypothesis P_spawn :
  forall first second third fourth pos cloud,
    Component.create K first second third fourth = Done cloud ->
    P (System.initializeCloud K (setPosition pos cloud)).

Lemma all_spawnCloud s pos i s' :
  System._spawnCloud K s pos i = Done s' ->
  Forall (fun e => P (snd e)) (m_managedClouds s) ->
  Forall (fun e => P (snd e)) (m_managedClouds s').
Proof.
  unfold System._spawnCloud. intros Hrun Hs.
  destruct (Component.create K _ _ _ _) as [cloud|] eqn:Ecreate;
    [|discriminate].
  cbn in Hrun. injection Hrun as <-. cbn [m_managedClouds].
  apply Forall_app. split; [exact Hs|].
  constructor; [|constructor]. cbn [snd].
  eapply P_spawn. exact Ecreate.
Qed.

Lemma all_spawnRow i poss s s' :
  forEachO (fun s (pos : Int2 * Float3) => System._spawnCloud K s (snd pos) i)
    s poss = Done s' ->
  Forall (fun e => P (snd e)) (m_managedClouds s) ->
  Forall (fun e => P (snd e)) (m_managedClouds s').
Proof.
  revert s. induction poss as [|pos poss IH]; intros s Hrun Hs;
    cbn [forEachO] in Hrun.
  - injection Hrun as <-. exact Hs.
  - destruct (System._spawnCloud K s (snd pos) i) as [s1|] eqn:E1;
      [|discriminate].
    cbn [mbind Outcome_bind] in Hrun.
    apply (IH s1 Hrun). eapply all_spawnCloud; eassumption.
Qed.

Lemma all_spawnAll poss starts s s' :
  forEachO
    (fun s i =>
       forEachO (fun s (pos : Int2 * Float3) =>
                   System._spawnCloud K s (snd pos) i) s poss)
    s starts = Done s' ->
  Forall (fun e => P (snd e)) (m_managedClouds s) ->
  Forall (fun e => P (snd e)) (m_managedClouds s').
Proof.
  revert s. induction starts as [|i starts IH]; intros s Hrun Hs;
    cbn [forEachO] in Hrun.
  - injection Hrun as <-. exact Hs.
  - match type of Hrun with
    | context [forEachO ?f s poss] =>
        destruct (forEachO f s poss) as [s1|] eqn:E1; [|discriminate]
    end.
    cbn [mbind Outcome_bind] in Hrun.
    apply (IH s1 Hrun). eapply all_spawnRow; eassumption.
Qed.

Lemma all_doSpawnCycle s playerPos s' :
  System.doSpawnCycle K s playerPos = Done s' ->
  Forall (fun e => P (snd e)) (m_managedClouds s) ->
  Forall (fun e => P (snd e)) (m_managedClouds s').
Proof.
  unfold System.doSpawnCycle. intros Hrun Hs.
  destruct (m_managedClouds s) as [|e m] eqn:Em.
  - unfold System.initialSpawn in Hrun. cbv zeta in Hrun.
    match type of Hrun with
    | context [forEachO ?f ?s0 ?l] =>
        destruct (forEachO f s0 l) as [s1|] eqn:E1; [|discriminate]
    end.
    cbn [mbind Outcome_bind] in Hrun.
    eapply all_recenter; [exact Hrun|].
    apply all_applyNew. eapply all_spawnAll; [exact E1|].
    cbn [m_managedClouds setCloudGridCenter]. rewrite Em. constructor.
  - cbn [mbind Outcome_bind] in Hrun.
    eapply all_recenter; [exact Hrun|]. rewrite Em. exact Hs.
Qed.
End TileInvariant.

(** ** A system that was just registered *)







(** ** Properties of every tile that the solver keeps *)

Section SolverInvariant.
Variable P : CompoundCloudComponent -> Prop.
Hypothesis P_density :
  forall slot x y v c, P c -> P (Component.setSlotDensity slot x y v c).
Hypothesis P_old :
  forall slot x y v c, P c -> P (Component.setSlotOldDensity slot x y v c).

Lemma all_writeOld (m : Store) p slot x y v :
  Forall (fun e => P (snd e)) m ->
  Forall (fun e => P (snd e)) (System.writeOld m p slot x y v).
Proof. apply all_update. intros c. apply P_old. Qed.

Lemma all_writeDensity (m : Store) p slot x y v :
  Forall (fun e => P (snd e)) m ->
  Forall (fun e => P (snd e)) (System.writeDensity m p slot x y v).
Proof. apply all_update. intros c. apply P_density. Qed.

Lemma all_forCells w h (body : Store -> nat -> nat -> Store) (m : Store) :
  (forall m x y, Forall (fun e => P (snd e)) m ->
                 Forall (fun e => P (snd e)) (body m x y)) ->
  Forall (fun e => P (snd e)) m ->
  Forall (fun e => P (snd e)) (forCells w h body m).
Proof.
  intros Hbody. rewrite forCells_cellsOf.
  generalize (cellsOf w h) as l. intros l. revert m.
  induction l as [|c l IH]; intros m Hm; cbn [foldl]; [exact Hm|].
  apply IH. apply Hbody. exact Hm.
Qed.

Lemma all_diffuse K r p slot dt (m : Store) :
  Forall (fun e => P (snd e)) m ->
  Forall (fun e => P (snd e)) (System.diffuse K r p slot dt m).
Proof.
  unfold System.diffuse. apply all_forCells.
  intros m' x y. unfold System.diffuseCell. apply all_writeOld.
Qed.

Lemma all_addCloudDensity K p slot x y v (m : Store) :
  Forall (fun e => P (snd e)) m ->
  Forall (fun e => P (snd e)) (System.addCloudDensity K p slot x y v m).
Proof.
  intros Hm. unfold System.addCloudDensity.
  repeat (match goal with
          | |- context [if ?b then _ else _] => destruct b
          end; cbv beta iota zeta);
    repeat (match goal with
            | |- context [match ?o with Some _ => _ | None => _ end] =>
                destruct o; cbv beta iota zeta
            end);
    try exact Hm; apply all_writeDensity; exact Hm.
Qed.

Lemma all_advect K vel p slot dt pos (m : Store) :
  Forall (fun e => P (snd e)) m ->
  Forall (fun e => P (snd e)) (System.advect K vel p slot dt pos m).
Proof.
  intros Hm. unfold System.advect, System.clearDensity.
  apply all_forCells.
  - intros m' x y Hm'. unfold System.advectCell.
    destruct (fltb 1 _); [|exact Hm']. cbv zeta.
    repeat apply all_addCloudDensity. exact Hm'.
  - apply all_forCells; [|exact Hm]. intros m' x y. apply all_writeDensity.
Qed.

Lemma all_processCloud K vel cloud renderTime (m : Store) :
  Forall (fun e => P (snd e)) m ->
  Forall (fun e => P (snd e)) (System.processCloud K vel cloud renderTime m).
Proof.
  unfold System.processCloud.
  generalize (seq 0 (default 0%nat
                       ((fun c => length (clouds c)) <$> deref m cloud))).
  intros l. revert m. induction l as [|slot l IH]; intros m Hm; cbn [foldl];
    [exact Hm|].
  apply IH.
  destruct (deref m cloud) as [c|]; [|exact Hm].
  destruct (clouds c !! slot) as [cd|]; [|exact Hm].
  destruct (negb _); [|exact Hm].
  apply all_advect. apply all_diffuse. exact Hm.
Qed.

Lemma all_process_all K vel rt (todo : Store) (m m' : Store) :
  forEachO
    (fun m (value : ObjectID * CompoundCloudComponent) =>
       match deref m (fst value) with
       | Some c =>
           if m_initialized c
           then Done (System.processCloud K vel (fst value) rt m)
           else Aborted AssertionFailed
       | None => Done m
       end) m todo = Done m' ->
  Forall (fun e => P (snd e)) m -> Forall (fun e => P (snd e)) m'.
Proof.
  revert m. induction todo as [|[e c0] todo IH]; intros m; cbn [forEachO].
  - intros H. inversion H. auto.
  - cbn [fst]. destruct (deref m e) as [c|] eqn:Ec.
    + destruct (m_initialized c); cbn; [|discriminate].
      intros H Hm. apply (IH _ H). apply all_processCloud. exact Hm.
    + cbn. apply IH.
Qed.
End SolverInvariant.

(** ** The size of the fields *)

Lemma storeSized_Forall K (m : Store) :
  storeSized K m = true <-> Forall (fun e => tileSized K (snd e) = true) m.
Proof.
  unfold storeSized. rewrite forallb_forall, Forall_forall. split.
  - intros H e He. apply H. apply list_elem_of_In. exact He.
  - intros H e He. apply H. apply list_elem_of_In. exact He.
Qed.

Lemma tileSized_alter K f slot c :
  (forall cd, fieldSized K (density (f cd)) = fieldSized K (density cd) /\
              fieldSized K (oldDensity (f cd)) = fieldSized K (oldDensity cd)) ->
  tileSized K (alterSlot f slot c) = tileSized K c.
Proof.
  intros Hf. unfold tileSized, alterSlot. cbn [clouds setClouds].
  generalize (clouds c). intros l. revert slot.
  induction l as [|cd l IH]; intros [|slot]; try reflexivity.
  - cbn. destruct (Hf cd) as [-> ->]. reflexivity.
  - cbn. rewrite (IH slot). reflexivity.
Qed.

Lemma tileSized_setSlotDensity K slot x y v c :
  tileSized K (Component.setSlotDensity slot x y v c) = tileSized K c.
Proof.
  apply tileSized_alter. intros cd. cbn [density oldDensity setDensity].
  split; [apply fieldSized_fieldSet|reflexivity].
Qed.

Lemma tileSized_setSlotOldDensity K slot x y v c :
  tileSized K (Component.setSlotOldDensity slot x y v c) = tileSized K c.
Proof.
  apply tileSized_alter. intros cd. cbn [density oldDensity setOldDensity].
  split; [reflexivity|apply fieldSized_fieldSet].
Qed.

Lemma fieldSized_zeroField K :
  fieldSized K (zeroField (CLOUD_SIMULATION_WIDTH K)
                  (CLOUD_SIMULATION_HEIGHT K)) = true.
Proof.
  unfold fieldSized, zeroField. rewrite length_replicate, Nat.eqb_refl.
  cbn [andb]. apply forallb_forall. intros col Hin.
  apply list_elem_of_In in Hin. apply elem_of_replicate in Hin.
  destruct Hin as [-> _]. rewrite length_replicate. apply Nat.eqb_refl.
Qed.

Lemma tileSized_spawn K first second third fourth pos cloud :
  Component.create K first second third fourth = Done cloud ->
  tileSized K (System.initializeCloud K (setPosition pos cloud)) = true.
Proof.
  unfold Component.create. destruct first as [c1|]; [|discriminate].
  intros [= <-]. unfold System.initializeCloud.
  cbn [clouds setPosition setInitialized setClouds].
  change (tileSized K
            (setClouds
               (map (Component.clearCloudData K)
                  (map (fun aux : option Compound =>
                          match aux with
                          | Some c =>
                              mkCloudData (compound_id c)
                                (compound_viscosity c)
                                (density (Component.emptyCloudData K))
                                (oldDensity (Component.emptyCloudData K))
                          | None => Component.emptyCloudData K
                          end) [Some c1; second; third; fourth]))
               (mkComponent [] pos true None None None None)) = true).
  rewrite tileSized_cleared. cbn [map forallb].
  pose proof (fieldSized_zeroField K) as Hz.
  destruct second, third, fourth; cbn [density oldDensity Component.emptyCloudData];
    rewrite !Hz; reflexivity.
Qed.

Lemma addCloudScan_sized K m compound dens pos r :
  System.addCloudScan K m compound dens pos = Done r ->
  storeSized K m = true -> storeSized K (snd (fst r)) = true.
Proof.
  revert r. induction m as [|[e c] m IH]; intros r Hrun Hm.
  - injection Hrun as <-. reflexivity.
  - cbn [System.addCloudScan] in Hrun.
    cbn [storeSized forallb snd] in Hm. apply andb_true_iff in Hm.
    destruct Hm as [Hc Hm].
    destruct (_ && _).
    + destruct (convertWorldToCloudLocal K (m_position c) pos) as [[x y]|].
      * unfold Component.addCloud in Hrun.
        destruct (Component.getSlotForCompound c compound) as [slot|];
          [|discriminate].
        cbn in Hrun. injection Hrun as <-. cbn [fst snd storeSized forallb].
        rewrite tileSized_setSlotDensity, Hc. exact Hm.
      * injection Hrun as <-. cbn [fst snd storeSized forallb].
        rewrite Hc. exact Hm.
    + destruct (System.addCloudScan K m compound dens pos) as [r1|];
        [|discriminate].
      cbn in Hrun. injection Hrun as <-. cbn [fst snd storeSized forallb].
      rewrite Hc. apply (IH r1 eq_refl Hm).
Qed.

Lemma takeCompoundScan_sized K m compound pos rate r :
  System.takeCompoundScan K m compound pos rate = Done r ->
  storeSized K m = true -> storeSized K (snd (fst r)) = true.
Proof.
  revert r. induction m as [|[e c] m IH]; intros r Hrun Hm.
  - injection Hrun as <-. reflexivity.
  - cbn [System.takeCompoundScan] in Hrun.
    cbn [storeSized forallb snd] in Hm. apply andb_true_iff in Hm.
    destruct Hm as [Hc Hm].
    destruct (_ && _).
    + destruct (convertWorldToCloudLocal K (m_position c) pos) as [[x y]|].
      * unfold Component.takeCompound in Hrun.
        destruct (Component.getSlotForCompound c compound) as [slot|];
          [|discriminate].
        cbn [mbind Outcome_bind] in Hrun. cbv zeta in Hrun.
        injection Hrun as <-. cbn [fst snd storeSized forallb].
        destruct (fltb _ 1); rewrite ?tileSized_setSlotDensity, Hc; exact Hm.
      * injection Hrun as <-. cbn [fst snd storeSized forallb].
        rewrite Hc. exact Hm.
    + destruct (System.takeCompoundScan K m compound pos rate) as [r1|];
        [|discriminate].
      cbn in Hrun. injection Hrun as <-. cbn [fst snd storeSized forallb].
      rewrite Hc. apply (IH r1 eq_refl Hm).
Qed.

Lemma Run_sized K vel s pos s' :
  System.Run K vel s pos = Done s' ->
  storeSized K (m_managedClouds s) = true ->
  storeSized K (m_managedClouds s') = true.
Proof.
  unfold System.Run. intros Hrun Hs.
  destruct (System.doSpawnCycle K s pos) as [s1|] eqn:E1; [|discriminate].
  cbn [mbind Outcome_bind] in Hrun.
  match type of Hrun with
  | context [forEachO ?f ?m ?l] =>
      destruct (forEachO f m l) as [m'|] eqn:E2; [|discriminate]
  end.
  cbn [mbind Outcome_bind] in Hrun. injection Hrun as <-.
  cbn [m_managedClouds setManagedClouds]. apply storeSized_Forall.
  eapply (all_process_all (fun c => tileSized K c = true)); [| |exact E2|].
  - intros slot x y v c. rewrite tileSized_setSlotDensity. auto.
  - intros slot x y v c. rewrite tileSized_setSlotOldDensity. auto.
  - eapply (all_doSpawnCycle K (fun c => tileSized K c = true));
      [| | |exact E1|apply storeSized_Forall; exact Hs].
    + intros u l le r c H. exact H.
    + intros p c H. unfold Component.recycleToPosition.
      rewrite tileSized_cleared. exact H.
    + apply tileSized_spawn.
Qed.

(** X15.  No operation resizes a field: if every field of every tile has
    [CLOUD_SIMULATION_WIDTH] by [CLOUD_SIMULATION_HEIGHT] cells, so it is
    after [Run], [addCloud] and [takeCompound].  (For a tile that [Run]
    spawns, the size is the one of the default fields.) *)
Theorem field_sizes_are_kept (K : Constants) (s : CompoundCloudSystem) :
  storeSized K (m_managedClouds s) = true ->
  (forall getVelocityAt position s',
     System.Run K getVelocityAt s position = Done s' ->
     storeSized K (m_managedClouds s') = true) /\
  (forall compound dens pos r,
     System.addCloud K s compound dens pos = Done r ->
     storeSized K (m_managedClouds (snd r)) = true) /\
  (forall compound pos rate r,
     System.takeCompound K s compound pos rate = Done r ->
     storeSized K (m_managedClouds (snd r)) = true).
Proof.
  intros Hs. split; [|split].
  - intros vel pos s' Hrun. eapply Run_sized; eassumption.
  - intros compound dens pos r Hrun. unfold System.addCloud in Hrun.
    destruct (System.addCloudScan K _ compound dens pos) as [r1|] eqn:E;
      [|discriminate].
    cbn in Hrun. injection Hrun as <-. cbn [snd].
    rewrite logs_keep_tiles. cbn [m_managedClouds setManagedClouds].
    eapply addCloudScan_sized; eassumption.
  - intros compound pos rate r Hrun. unfold System.takeCompound in Hrun.
    destruct (System.takeCompoundScan K _ compound pos rate) as [r1|] eqn:E;
      [|discriminate].
    cbn in Hrun. injection Hrun as <-. cbn [snd].
    rewrite logs_keep_tiles. cbn [m_managedClouds setManagedClouds].
    eapply takeCompoundScan_sized; eassumption.
Qed.

(** X15, witness: the system [fed]. *)
Lemma field_sizes_are_kept_witness :
  (forall getVelocityAt position s',
     System.Run Example.K getVelocityAt Example.fed position = Done s' ->
     storeSized Example.K (m_managedClouds s') = true) /\
  (forall compound dens pos r,
     System.addCloud Example.K Example.fed compound dens pos = Done r ->
     storeSized Example.K (m_managedClouds (snd r)) = true) /\
  (forall compound pos rate r,
     System.takeCompound Example.K Example.fed compound pos rate = Done r ->
     storeSized Example.K (m_managedClouds (snd r)) = true).
Proof.
  exact (field_sizes_are_kept Example.K Example.fed
           ltac:(vm_compute; reflexivity)).
Defined.

(** ** A pass stays in its tile *)







(** ** Densities stay non-negative *)

Lemma fieldNonNegative_get f x y :
  fieldNonNegative f = true -> (0 <= fieldGet f x y)%Q.
Proof.
  unfold fieldNonNegative, fieldGet. intros H.
  destruct (f !! x) as [col|] eqn:Ex; cbn; [|lra].
  destruct (col !! y) as [v|] eqn:Ey; cbn; [|lra].
  rewrite forallb_forall in H. specialize (H col).
  rewrite forallb_forall in H. apply Qle_bool_iff. apply H.
  - apply list_elem_of_In. apply (list_elem_of_lookup_2 _ x). exact Ex.
  - apply list_elem_of_In. apply (list_elem_of_lookup_2 _ y). exact Ey.
Qed.

Lemma column_insert_nonneg (col : list Q) y v :
  forallb (Qle_bool 0) col = true ->
  (0 <= v)%Q \/ (length col <= y)%nat ->
  forallb (Qle_bool 0) (<[y := v]> col) = true.
Proof.
  revert y. induction col as [|a col IH]; intros y Hcol Hv; [reflexivity|].
  cbn in Hcol. apply andb_true_iff in Hcol. destruct Hcol as [Ha Hcol].
  destruct y as [|y]; cbn.
  - destruct Hv as [Hv|Hv]; [|cbn in Hv; lia].
    rewrite Hcol, andb_true_r. apply Qle_bool_iff. exact Hv.
  - rewrite Ha. cbn. apply IH; [exact Hcol|].
    destruct Hv as [Hv|Hv]; [left; exact Hv|right; cbn in Hv; lia].
Qed.

Lemma fieldNonNegative_set f x y v :
  fieldNonNegative f = true ->
  (0 <= v)%Q \/ ~ inField f x y ->
  fieldNonNegative (fieldSet f x y v) = true.
Proof.
  unfold fieldNonNegative, fieldSet, inField.
  revert x. induction f as [|col f IH]; intros x Hf Hv; [reflexivity|].
  cbn in Hf. apply andb_true_iff in Hf. destruct Hf as [Hcol Hf].
  destruct x as [|x]; cbn.
  - rewrite Hf, andb_true_r. apply column_insert_nonneg; [exact Hcol|].
    destruct Hv as [Hv|Hv]; [left; exact Hv|right].
    destruct (le_lt_dec (length col) y) as [Hle|Hlt]; [exact Hle|].
    exfalso. apply Hv. exists col. split; [reflexivity|exact Hlt].
  - rewrite Hcol. cbn. apply IH; [exact Hf|].
    destruct Hv as [Hv|Hv]; [left; exact Hv|right]. exact Hv.
Qed.

Lemma tileNonNegative_alter f slot c :
  tileNonNegative c = true ->
  (forall cd, clouds c !! slot = Some cd ->
              fieldNonNegative (density cd) = true ->
              fieldNonNegative (oldDensity cd) = true ->
              fieldNonNegative (density (f cd)) = true /\
              fieldNonNegative (oldDensity (f cd)) = true) ->
  tileNonNegative (alterSlot f slot c) = true.
Proof.
  unfold tileNonNegative, alterSlot. cbn [clouds setClouds].
  generalize (clouds c). intros l. revert slot.
  induction l as [|cd l IH]; intros slot Hl Hf; [reflexivity|].
  cbn in Hl. apply andb_true_iff in Hl. destruct Hl as [Hcd Hl].
  apply andb_true_iff in Hcd. destruct Hcd as [Hd Ho].
  destruct slot as [|slot]; cbn.
  - destruct (Hf cd eq_refl Hd Ho) as [-> ->]. exact Hl.
  - rewrite Hd, Ho. cbn. apply IH; [exact Hl|].
    intros cd' Hcd'. apply Hf. exact Hcd'.
Qed.

Lemma tileNonNegative_setSlotDensity slot x y v c :
  tileNonNegative c = true ->
  (0 <= v)%Q \/ ~ densityCell c slot x y ->
  tileNonNegative (Component.setSlotDensity slot x y v c) = true.
Proof.
  intros Hc Hv. apply tileNonNegative_alter; [exact Hc|].
  intros cd Hcd Hd Ho. cbn [density oldDensity setDensity].
  split; [|exact Ho]. apply fieldNonNegative_set; [exact Hd|].
  destruct Hv as [Hv|Hv]; [left; exact Hv|right].
  intros Hin. apply Hv. exists cd. split; assumption.
Qed.


Lemma tileNonNegative_reads c slot x y :
  tileNonNegative c = true ->
  (0 <= Component.slotDensity c slot x y)%Q /\
  (0 <= Component.slotOldDensity c slot x y)%Q.
Proof.
  unfold tileNonNegative, Component.slotDensity, Component.slotOldDensity.
  intros H. destruct (clouds c !! slot) as [cd|] eqn:E; [|split; lra].
  rewrite forallb_forall in H. specialize (H cd).
  rewrite andb_true_iff in H. destruct H as [Hd Ho].
  { apply list_elem_of_In. apply (list_elem_of_lookup_2 _ slot). exact E. }
  split; apply fieldNonNegative_get; assumption.
Qed.





















(** *** The queries *)

Lemma addCloudScan_nonneg K m compound dens pos r :
  (0 <= dens)%Q ->
  System.addCloudScan K m compound dens pos = Done r ->
  storeNonNegative m = true -> storeNonNegative (snd (fst r)) = true.
Proof.
  intros Hdens. revert r. induction m as [|[e c] m IH]; intros r Hrun Hm.
  - injection Hrun as <-. reflexivity.
  - cbn [System.addCloudScan] in Hrun.
    cbn [storeNonNegative forallb snd] in Hm. apply andb_true_iff in Hm.
    destruct Hm as [Hc Hm].
    destruct (_ && _).
    + destruct (convertWorldToCloudLocal K (m_position c) pos) as [[x y]|].
      * unfold Component.addCloud in Hrun.
        destruct (Component.getSlotForCompound c compound) as [slot|];
          [|discriminate].
        cbn in Hrun. injection Hrun as <-.
        cbn [fst snd storeNonNegative forallb].
        rewrite tileNonNegative_setSlotDensity; [exact Hm|exact Hc|].
        left. pose proof (proj1 (tileNonNegative_reads c slot x y Hc)). lra.
      * injection Hrun as <-. cbn [fst snd storeNonNegative forallb].
        rewrite Hc. exact Hm.
    + destruct (System.addCloudScan K m compound dens pos) as [r1|];
        [|discriminate].
      cbn in Hrun. injection Hrun as <-.
      cbn [fst snd storeNonNegative forallb].
      rewrite Hc. apply (IH r1 eq_refl Hm).
Qed.

Lemma densityCell_or_not c slot x y :
  densityCell c slot x y \/ ~ densityCell c slot x y.
Proof.
  unfold densityCell. destruct (clouds c !! slot) as [cd|] eqn:E.
  - destruct (inField_or_not (density cd) x y) as [H|H].
    + left. exists cd. split; [reflexivity|exact H].
    + right. intros (cd' & [= <-] & H'). contradiction.
  - right. intros (cd' & [=] & _).
Qed.

Lemma slotDensity_no_cell c slot x y :
  ~ densityCell c slot x y -> Component.slotDensity c slot x y = 0%Q.
Proof.
  intros H. unfold Component.slotDensity.
  destruct (clouds c !! slot) as [cd|] eqn:E; [|reflexivity].
  apply fieldGet_outside. intros Hin. apply H. exists cd.
  split; [exact E|exact Hin].
Qed.

Lemma takeCompound_nonneg c compound x y rate r :
  Component.takeCompound c compound x y rate = Done r ->
  tileNonNegative c = true -> tileNonNegative (snd r) = true.
Proof.
  unfold Component.takeCompound.
  destruct (Component.getSlotForCompound c compound) as [slot|];
    [|discriminate].
  cbn [mbind Outcome_bind]. cbv zeta. intros [= <-] Hc. cbn [snd].
  set (d := Component.slotDensity c slot x y).
  set (v := (d - inject_Z (static_cast_int (d * rate)))%Q).
  set (c1 := Component.setSlotDensity slot x y v c).
  destruct (densityCell_or_not c slot x y) as [Hcell|Hno].
  - assert (Component.slotDensity c1 slot x y = v) as H1
      by (apply slotDensity_setDensity_eq; exact Hcell).
    rewrite H1. destruct (fltb v 1) eqn:E.
    + unfold c1, Component.setSlotDensity, alterSlot.
      cbn [clouds setClouds]. rewrite list_alter_alter_eq.
      apply (tileNonNegative_alter _ slot c Hc).
      intros cd Hcd Hd Ho. cbn [density oldDensity setDensity compose].
      split; [|exact Ho].
      unfold fieldSet. rewrite list_alter_alter_eq.
      assert (alter (<[y:=0%Q]> ∘ <[y:=v]>) x (density cd)
              = alter (<[y:=0%Q]>) x (density cd)) as ->.
      { apply list_alter_ext; [|reflexivity].
        intros col _ . cbn. apply list_insert_insert_eq. }
      apply (fieldNonNegative_set (density cd) x y 0 Hd). left; lra.
    + apply fltb_ge in E. apply tileNonNegative_setSlotDensity; [exact Hc|].
      left; lra.
  - assert (tileNonNegative c1 = true) as Hc1
      by (apply tileNonNegative_setSlotDensity; [exact Hc|right; exact Hno]).
    destruct (fltb _ 1); [|exact Hc1].
    apply tileNonNegative_setSlotDensity; [exact Hc1|left; lra].
Qed.

Lemma takeCompoundScan_nonneg K m compound pos rate r :
  System.takeCompoundScan K m compound pos rate = Done r ->
  storeNonNegative m = true -> storeNonNegative (snd (fst r)) = true.
Proof.
  revert r. induction m as [|[e c] m IH]; intros r Hrun Hm.
  - injection Hrun as <-. reflexivity.
  - cbn [System.takeCompoundScan] in Hrun.
    cbn [storeNonNegative forallb snd] in Hm. apply andb_true_iff in Hm.
    destruct Hm as [Hc Hm].
    destruct (_ && _).
    + destruct (convertWorldToCloudLocal K (m_position c) pos) as [[x y]|].
      * destruct (Component.takeCompound c compound x y rate) as [r1|] eqn:E;
          [|discriminate].
        cbn in Hrun. injection Hrun as <-.
        cbn [fst snd storeNonNegative forallb].
        rewrite (takeCompound_nonneg c compound x y rate r1 E Hc). exact Hm.
      * injection Hrun as <-. cbn [fst snd storeNonNegative forallb].
        rewrite Hc. exact Hm.
    + destruct (System.takeCompoundScan K m compound pos rate) as [r1|];
        [|discriminate].
      cbn in Hrun. injection Hrun as <-.
      cbn [fst snd storeNonNegative forallb].
      rewrite Hc. apply (IH r1 eq_refl Hm).
Qed.

(** X18.  [addCloud] of an amount that is not negative and [takeCompound]
    at any rate keep every density non-negative. *)
Theorem queries_keep_densities_nonnegative (K : Constants)
  (s : CompoundCloudSystem) :
  storeNonNegative (m_managedClouds s) = true ->
  (forall compound dens pos r,
     (0 <= dens)%Q ->
     System.addCloud K s compound dens pos = Done r ->
     storeNonNegative (m_managedClouds (snd r)) = true) /\
  (forall compound pos rate r,
     System.takeCompound K s compound pos rate = Done r ->
     storeNonNegative (m_managedClouds (snd r)) = true).
Proof.
  intros Hs. split.
  - intros compound dens pos r Hdens Hrun. unfold System.addCloud in Hrun.
    destruct (System.addCloudScan K _ compound dens pos) as [r1|] eqn:E;
      [|discriminate].
    cbn in Hrun. injection Hrun as <-. cbn [snd].
    rewrite logs_keep_tiles. cbn [m_managedClouds setManagedClouds].
    eapply addCloudScan_nonneg; eassumption.
  - intros compound pos rate r Hrun. unfold System.takeCompound in Hrun.
    destruct (System.takeCompoundScan K _ compound pos rate) as [r1|] eqn:E;
      [|discriminate].
    cbn in Hrun. injection Hrun as <-. cbn [snd].
    rewrite logs_keep_tiles. cbn [m_managedClouds setManagedClouds].
    eapply takeCompoundScan_nonneg; eassumption.
Qed.

(** X18, witness: the system [fed]. *)
Lemma queries_keep_densities_nonnegative_witness :
  (forall compound dens pos r,
     (0 <= dens)%Q ->
     System.addCloud Example.K Example.fed compound dens pos = Done r ->
     storeNonNegative (m_managedClouds (snd r)) = true) /\
  (forall compound pos rate r,
     System.takeCompound Example.K Example.fed compound pos rate = Done r ->
     storeNonNegative (m_managedClouds (snd r)) = true).
Proof.
  exact (queries_keep_densities_nonnegative Example.K Example.fed
           ltac:(vm_compute; reflexivity)).
Defined.

(** ** Advection conserves the mass it moves *)











(** ** Tiles that are destroyed *)

Lemma deref_absent (m : Store) p :
  ~ In p (map fst m) -> deref m p = None.
Proof.
  induction m as [|[e c] m IH]; intros Hno; [reflexivity|].
  unfold deref. cbn [find fst].
  destruct (Z.eqb_spec e p) as [->|Hne].
  - exfalso. apply Hno. left. reflexivity.
  - apply IH. intros Hin. apply Hno. right. exact Hin.
Qed.

Lemma deref_cons (m : Store) e c q :
  deref ((e, c) :: m) q = if Z.eqb e q then Some c else deref m q.
Proof. unfold deref. cbn [find fst]. destruct (Z.eqb e q); reflexivity. Qed.

Lemma eraseCloud_spec cloud (m : Store) :
  NoDup (map fst m) ->
  match System.eraseCloud cloud m with
  | Some m' =>
      is_Some (deref m cloud) /\
      deref m' cloud = None /\
      S (length m') = length m /\
      (forall q, q <> cloud -> deref m' q = deref m q)
  | None => deref m cloud = None
  end.
Proof.
  induction m as [|[e c] m IH]; intros Hnd; [reflexivity|].
  cbn [map fst] in Hnd. apply NoDup_cons in Hnd. destruct Hnd as [Hfresh Hnd].
  cbn [System.eraseCloud fst]. rewrite deref_cons.
  destruct (Z.eqb_spec e cloud) as [->|Hne].
  - split; [eexists; reflexivity|]. split.
    + apply deref_absent. rewrite <- list_elem_of_In. exact Hfresh.
    + split; [reflexivity|]. intros q Hq. rewrite deref_cons.
      destruct (Z.eqb_spec cloud q); [congruence|reflexivity].
  - specialize (IH Hnd).
    destruct (System.eraseCloud cloud m) as [m'|];
      cbn [fmap option_fmap option_map].
    + destruct IH as (H1 & H2 & H3 & H4). split; [exact H1|]. split.
      * rewrite deref_cons. destruct (Z.eqb_spec e cloud);
          [contradiction|exact H2].
      * split; [cbn; lia|]. intros q Hq. rewrite !deref_cons.
        destruct (Z.eqb e q); [reflexivity|apply H4; exact Hq].
    + exact IH.
Qed.

(** X20.  [cloudReportDestroyed] of a registered tile takes exactly this
    tile out of [m_managedClouds] and logs nothing; for a tile that is not
    registered it changes no tile and logs the warning.  (The keys of the
    map are distinct.) *)
Theorem cloudReportDestroyed_unregisters (s : CompoundCloudSystem)
  (cloud : ObjectID) :
  NoDup (map fst (m_managedClouds s)) ->
  (is_Some (deref (m_managedClouds s) cloud) ->
   deref (m_managedClouds (System.cloudReportDestroyed s cloud)) cloud = None
   /\ S (length (m_managedClouds (System.cloudReportDestroyed s cloud)))
      = length (m_managedClouds s)
   /\ (forall q, q <> cloud ->
         deref (m_managedClouds (System.cloudReportDestroyed s cloud)) q
         = deref (m_managedClouds s) q)
   /\ logged (System.cloudReportDestroyed s cloud) = logged s)
  /\ (deref (m_managedClouds s) cloud = None ->
      m_managedClouds (System.cloudReportDestroyed s cloud)
      = m_managedClouds s
      /\ logged (System.cloudReportDestroyed s cloud)
         = logged s
           ++ ["CompoundCloudSystem: non-registered CompoundCloudComponent reported that it was destroyed"%string]).
Proof.
  intros Hnd. pose proof (eraseCloud_spec cloud (m_managedClouds s) Hnd) as H.
  unfold System.cloudReportDestroyed.
  destruct (System.eraseCloud cloud (m_managedClouds s)) as [m'|].
  - destruct H as (H1 & H2 & H3 & H4). split.
    + intros _. cbn [m_managedClouds setManagedClouds logged]. auto.
    + intros Hnone. rewrite Hnone in H1. destruct H1 as [? [=]].
  - split.
    + intros [c Hc]. congruence.
    + intros _. split; reflexivity.
Qed.

(** X20, witness: tile 5 of [started]. *)
Lemma cloudReportDestroyed_unregisters_witness :
  (is_Some (deref (m_managedClouds Example.started) 5%Z) ->
   deref (m_managedClouds (System.cloudReportDestroyed Example.started 5%Z))
     5%Z = None
   /\ S (length (m_managedClouds
                   (System.cloudReportDestroyed Example.started 5%Z)))
      = length (m_managedClouds Example.started)
   /\ (forall q, q <> 5%Z ->
         deref (m_managedClouds
                  (System.cloudReportDestroyed Example.started 5%Z)) q
         = deref (m_managedClouds Example.started) q)
   /\ logged (System.cloudReportDestroyed Example.started 5%Z)
      = logged Example.started)
  /\ (deref (m_managedClouds Example.started) 5%Z = None ->
      m_managedClouds (System.cloudReportDestroyed Example.started 5%Z)
      = m_managedClouds Example.started
      /\ logged (System.cloudReportDestroyed Example.started 5%Z)
         = logged Example.started
           ++ ["CompoundCloudSystem: non-registered CompoundCloudComponent reported that it was destroyed"%string]).
Proof.
  refine (cloudReportDestroyed_unregisters Example.started 5%Z _).
  vm_compute. repeat constructor; cbn; intros H;
    repeat (apply elem_of_cons in H; destruct H as [H|H]; [discriminate|]);
    inversion H.
Defined.

(** ** A tile that was not initialised *)

Lemma initialized_view_deref (m m' : Store) e :
  roster m' = roster m ->
  m_initialized <$> deref m' e = m_initialized <$> deref m e.
Proof.
  unfold roster, tileView. revert m'.
  induction m as [|[e0 c0] m IH]; intros [|[e1 c1] m'] H; try discriminate;
    [reflexivity|].
  cbn in H. injection H as <- Hinit Hrest. rewrite !deref_cons.
  destruct (Z.eqb e1 e); [cbn; congruence|]. apply IH. exact Hrest.
Qed.

Lemma process_all_asserts K vel rt (todo : Store) (m : Store) e c :
  In e (map fst todo) ->
  deref m e = Some c -> m_initialized c = false ->
  forEachO
    (fun m (value : ObjectID * CompoundCloudComponent) =>
       match deref m (fst value) with
       | Some c =>
           if m_initialized c
           then Done (System.processCloud K vel (fst value) rt m)
           else Aborted AssertionFailed
       | None => Done m
       end) m todo = Aborted AssertionFailed.
Proof.
  revert m c. induction todo as [|[e0 c0] todo IH]; intros m c Hin Hc Hinit;
    [destruct Hin|].
  cbn [forEachO fst].
  destruct (Z.eq_dec e0 e) as [->|Hne].
  - rewrite Hc, Hinit. reflexivity.
  - destruct Hin as [Heq|Hin]; [cbn in Heq; contradiction|].
    destruct (deref m e0) as [c1|] eqn:E1.
    + destruct (m_initialized c1); [|reflexivity].
      cbn [mbind Outcome_bind].
      pose proof (initialized_view_deref m
                    (System.processCloud K vel e0 rt m) e
                    (roster_processCloud K vel e0 rt m)) as Hv.
      rewrite Hc in Hv. cbn in Hv.
      destruct (deref (System.processCloud K vel e0 rt m) e) as [c'|] eqn:E';
        [|discriminate].
      cbn in Hv. injection Hv as Hv.
      apply (IH _ c' Hin E'). congruence.
    + cbn [mbind Outcome_bind]. apply (IH _ c Hin Hc Hinit).
Qed.

Lemma deref_key (m : Store) e c : deref m e = Some c -> In e (map fst m).
Proof.
  intros H. apply deref_In in H. apply in_map_iff. exists (e, c).
  split; [reflexivity|exact H].
Qed.

(** X21.  [Run] on a system that holds a tile with [m_initialized] false
    ends in the failed assertion, whatever the player position. *)
Theorem Run_asserts_initialized (K : Constants)
  (getVelocityAt : Float2 -> Float2) (s : CompoundCloudSystem)
  (position : Float3) (e : ObjectID) (c : CompoundCloudComponent) :
  deref (m_managedClouds s) e = Some c -> m_initialized c = false ->
  System.Run K getVelocityAt s position = Aborted AssertionFailed.
Proof.
  intros Hc Hinit. unfold System.Run.
  assert (m_managedClouds s <> []) as Hne
    by (intros H; rewrite H in Hc; discriminate).
  destruct (Nat.eq_dec (length (m_managedClouds s))
              (System.expectedCloudCount s)) as [Hcount|Hcount].
  - rewrite (doSpawnCycle_keeps K s position Hne Hcount).
    cbn [mbind Outcome_bind].
    destruct (retarget_frame K s position) as [_ Hr]. cbv zeta in Hr.
    set (s1 := if Float3_neq _ _ then _ else s) in *.
    pose proof (initialized_view_deref _ _ e Hr) as Hv.
    rewrite Hc in Hv. cbn in Hv.
    destruct (deref (m_managedClouds s1) e) as [c1|] eqn:E1; [|discriminate].
    cbn in Hv. injection Hv as Hv.
    rewrite (process_all_asserts K getVelocityAt (TICKSPEED K)
               (m_managedClouds s1) (m_managedClouds s1) e c1).
    + reflexivity.
    + eapply deref_key. exact E1.
    + exact E1.
    + congruence.
  - rewrite (doSpawnCycle_deviation K s position Hne Hcount). reflexivity.
Qed.

(** X21, witness: [fed] with the flag of tile 3 cleared. *)
Lemma Run_asserts_initialized_witness :
  System.Run Example.K Example.drift
    (setManagedClouds
       (update (setInitialized false) 3%Z (m_managedClouds Example.fed))
       Example.fed)
    (mkFloat3 1 0 0)
  = Aborted AssertionFailed.
Proof.
  exact (Run_asserts_initialized Example.K Example.drift
           (setManagedClouds
              (update (setInitialized false) 3%Z
                 (m_managedClouds Example.fed)) Example.fed)
           (mkFloat3 1 0 0) 3%Z
           (setInitialized false
              (default (Example.centreTile Example.fed)
                 (deref (m_managedClouds Example.fed) 3%Z)))
           ltac:(vm_compute; reflexivity) ltac:(reflexivity)).
Defined.

(** ** The texture *)

Lemma fillCloudChannel_cells std_atan cd index rowBytes (pDest : list Z) :
  System.fillCloudChannel std_atan cd index rowBytes pDest
  = foldl (fun pDest (c : nat * nat) =>
             <[(rowBytes * snd c
                + fst c * OGRE_CLOUD_TEXTURE_BYTES_PER_ELEMENT + index)%nat
               := static_cast_uint8
                    (System.cellIntensity std_atan
                       (fieldGet (density cd) (fst c) (snd c)))]> pDest)
          pDest (fieldCells (density cd)).
Proof.
  unfold System.fillCloudChannel, fieldCells.
  generalize (seq 0 (length (density cd))) as xs. revert pDest.
  intros pDest xs. revert pDest.
  induction xs as [|x xs IH]; intros pDest; [reflexivity|].
  cbn [foldl flat_map]. rewrite foldl_app, IH. f_equal.
  rewrite foldl_map. reflexivity.
Qed.

Section Writes.
Context {A : Type}.
Variable off : A -> nat.
Variable val : A -> Z.

Lemma writes_length (l : list A) (p : list Z) :
  length (foldl (fun p c => <[off c := val c]> p) p l) = length p.
Proof.
  revert p. induction l as [|a l IH]; intros p; [reflexivity|].
  cbn [foldl]. rewrite IH. apply length_insert.
Qed.

Lemma writes_elsewhere (l : list A) (p : list Z) o :
  (forall c, In c l -> off c <> o) ->
  foldl (fun p c => <[off c := val c]> p) p l !! o = p !! o.
Proof.
  revert p. induction l as [|a l IH]; intros p H; [reflexivity|].
  cbn [foldl]. rewrite IH by (intros c Hc; apply H; right; exact Hc).
  apply list_lookup_insert_ne. apply H. left. reflexivity.
Qed.

Lemma writes_values (l : list A) (p : list Z) o v :
  foldl (fun p c => <[off c := val c]> p) p l !! o = Some v ->
  p !! o = Some v \/ exists c, In c l /\ off c = o /\ v = val c.
Proof.
  revert p. induction l as [|a l IH]; intros p H; [left; exact H|].
  cbn [foldl] in H. destruct (IH _ H) as [H1|(c & Hc & Ho & Hv)].
  - destruct (Nat.eq_dec (off a) o) as [Heq|Hne].
    + right. exists a. split; [left; reflexivity|]. split; [exact Heq|].
      rewrite Heq in H1.
      apply list_lookup_insert_Some in H1.
      destruct H1 as [(_ & ? & _)|(? & _)]; congruence.
    + left. rewrite list_lookup_insert_ne in H1 by exact Hne. exact H1.
  - right. exists c. split; [right; exact Hc|]. split; assumption.
Qed.

Lemma writes_here (l : list A) (p : list Z) c :
  (forall c', In c' l -> off c' = off c -> val c' = val c) ->
  In c l -> (off c < length p)%nat ->
  foldl (fun p c => <[off c := val c]> p) p l !! off c = Some (val c).
Proof.
  revert p c.
  induction l as [|a l IH]; intros p c Hagree Hin Hlt; [destruct Hin|].
  cbn [foldl].
  destruct (in_dec Nat.eq_dec (off c) (map off l)) as [Hlater|Hnot].
  - apply in_map_iff in Hlater. destruct Hlater as (c' & Hoff & Hc').
    rewrite <- Hoff. rewrite <- (Hagree c' (or_intror Hc') Hoff).
    apply IH.
    + intros c'' Hc'' Ho''.
      rewrite (Hagree c'' (or_intror Hc'')) by congruence.
      symmetry. apply Hagree; [right; exact Hc'|exact Hoff].
    + exact Hc'.
    + rewrite length_insert, Hoff. exact Hlt.
  - rewrite writes_elsewhere.
    + destruct Hin as [->|Hin].
      * apply list_lookup_insert_eq. exact Hlt.
      * exfalso. apply Hnot. apply in_map. exact Hin.
    + intros c' Hc' Heq. apply Hnot. rewrite <- Heq. apply in_map. exact Hc'.
Qed.
End Writes.

Lemma cellIntensity_byte std_atan d :
  (0 <= System.cellIntensity std_atan d <= 255)%Z.
Proof.
  unfold System.cellIntensity, std_clamp_int. cbv zeta.
  set (v := static_cast_int _).
  destruct (Z.ltb_spec v 0); [lia|].
  destruct (Z.ltb_spec 255 v); lia.
Qed.

Lemma cellIntensity_cast std_atan d :
  static_cast_uint8 (System.cellIntensity std_atan d)
  = System.cellIntensity std_atan d.
Proof.
  unfold static_cast_uint8. apply Z.mod_small.
  pose proof (cellIntensity_byte std_atan d). lia.
Qed.

(** X22.  [fillCloudChannel] keeps the length of the buffer, changes no
    byte of another channel (the rows being whole pixels), and every
    byte it writes is between 0 and 255. *)
Theorem fillCloudChannel_stays_in_channel (std_atan : Q -> Q)
  (cloudData : CloudData) (index rowBytes : nat) (pDest : list Z) :
  (index < OGRE_CLOUD_TEXTURE_BYTES_PER_ELEMENT)%nat ->
  (rowBytes mod OGRE_CLOUD_TEXTURE_BYTES_PER_ELEMENT = 0)%nat ->
  length (System.fillCloudChannel std_atan cloudData index rowBytes pDest)
  = length pDest /\
  (forall o,
     (o mod OGRE_CLOUD_TEXTURE_BYTES_PER_ELEMENT <> index)%nat ->
     System.fillCloudChannel std_atan cloudData index rowBytes pDest !! o
     = pDest !! o) /\
  (forall o v,
     System.fillCloudChannel std_atan cloudData index rowBytes pDest !! o
     = Some v ->
     pDest !! o = Some v \/ (0 <= v <= 255)%Z).
Proof.
  intros Hindex Hrow. rewrite fillCloudChannel_cells.
  split; [apply writes_length|]. split.
  - intros o Ho. apply writes_elsewhere. intros [i j] _ Heq. apply Ho.
    rewrite <- Heq. cbn [fst snd].
    unfold OGRE_CLOUD_TEXTURE_BYTES_PER_ELEMENT in *.
    apply Nat.Div0.mod_divides in Hrow. destruct Hrow as [k ->].
    replace (4 * k * j + i * 4 + index)%nat
      with (index + (k * j + i) * 4)%nat by lia.
    rewrite Nat.Div0.mod_add. apply Nat.mod_small. exact Hindex.
  - intros o v H. apply writes_values in H.
    destruct H as [H|(c & _ & _ & ->)]; [left; exact H|right].
    rewrite cellIntensity_cast. apply cellIntensity_byte.
Qed.

(** X23.  After [fillCloudChannel] the byte of cell [(i, j)] in the
    channel holds the intensity of that cell, when a row holds at least
    the width of the field in pixels and the byte is inside the
    buffer. *)
Theorem fillCloudChannel_texel (std_atan : Q -> Q) (cloudData : CloudData)
  (index rowBytes : nat) (pDest : list Z) (i j : nat) :
  (index < OGRE_CLOUD_TEXTURE_BYTES_PER_ELEMENT)%nat ->
  (OGRE_CLOUD_TEXTURE_BYTES_PER_ELEMENT * length (density cloudData)
   <= rowBytes)%nat ->
  inField (density cloudData) i j ->
  (rowBytes * j + i * OGRE_CLOUD_TEXTURE_BYTES_PER_ELEMENT + index
   < length pDest)%nat ->
  System.fillCloudChannel std_atan cloudData index rowBytes pDest
    !! (rowBytes * j + i * OGRE_CLOUD_TEXTURE_BYTES_PER_ELEMENT + index)%nat
  = Some (System.cellIntensity std_atan (fieldGet (density cloudData) i j)).
Proof.
  intros Hindex Hrow Hcell Hlen. rewrite fillCloudChannel_cells.
  rewrite <- cellIntensity_cast.
  apply (writes_here
           (fun c : nat * nat =>
              (rowBytes * snd c
               + fst c * OGRE_CLOUD_TEXTURE_BYTES_PER_ELEMENT + index)%nat)
           (fun c : nat * nat =>
              static_cast_uint8
                (System.cellIntensity std_atan
                   (fieldGet (density cloudData) (fst c) (snd c))))
           (fieldCells (density cloudData)) pDest (i, j)).
  - intros [i' j'] Hin Heq. cbn [fst snd] in *.
    apply inField_fieldCells in Hin.
    assert (i' < length (density cloudData))%nat as Hi'.
    { destruct Hin as (col & Hcol & _). apply (lookup_lt_Some _ _ _ Hcol). }
    assert (i < length (density cloudData))%nat as Hi.
    { destruct Hcell as (col & Hcol & _). apply (lookup_lt_Some _ _ _ Hcol). }
    unfold OGRE_CLOUD_TEXTURE_BYTES_PER_ELEMENT in *.
    assert (j' = j) as -> by nia. assert (i' = i) as -> by lia.
    reflexivity.
  - apply inField_fieldCells. exact Hcell.
  - exact Hlen.
Qed.

(** X22, witness: a field of 2 x 2 cells, channel 2 and
    rows of two pixels. *)
Lemma fillCloudChannel_stays_in_channel_witness :
  length (System.fillCloudChannel (fun q => q)
            (mkCloudData 1%Z 1 [[0; 0]; [0; 8]] [[0; 0]; [0; 0]])%Q 2 8
            (replicate 16 7%Z))
  = length (replicate 16 7%Z) /\
  (forall o,
     (o mod OGRE_CLOUD_TEXTURE_BYTES_PER_ELEMENT <> 2)%nat ->
     System.fillCloudChannel (fun q => q)
       (mkCloudData 1%Z 1 [[0; 0]; [0; 8]] [[0; 0]; [0; 0]])%Q 2 8
       (replicate 16 7%Z) !! o
     = replicate 16 7%Z !! o) /\
  (forall o v,
     System.fillCloudChannel (fun q => q)
       (mkCloudData 1%Z 1 [[0; 0]; [0; 8]] [[0; 0]; [0; 0]])%Q 2 8
       (replicate 16 7%Z) !! o
     = Some v ->
     replicate 16 7%Z !! o = Some v \/ (0 <= v <= 255)%Z).
Proof.
  exact (fillCloudChannel_stays_in_channel (fun q => q)
           (mkCloudData 1%Z 1 [[0; 0]; [0; 8]] [[0; 0]; [0; 0]])%Q 2 8
           (replicate 16 7%Z) ltac:(vm_compute; lia) ltac:(reflexivity)).
Defined.

(** X23, witness: cell [(1, 1)] with density 8. *)
Lemma fillCloudChannel_texel_witness :
  System.fillCloudChannel (fun q => q)
    (mkCloudData 1%Z 1 [[0; 0]; [0; 8]] [[0; 0]; [0; 0]])%Q 2 8
    (replicate 16 7%Z)
    !! (8 * 1 + 1 * OGRE_CLOUD_TEXTURE_BYTES_PER_ELEMENT + 2)%nat
  = Some (System.cellIntensity (fun q => q)
            (fieldGet
               (density (mkCloudData 1%Z 1 [[0; 0]; [0; 8]]
                           [[0; 0]; [0; 0]])%Q) 1 1)).
Proof.
  refine (fillCloudChannel_texel (fun q => q)
            (mkCloudData 1%Z 1 [[0; 0]; [0; 8]] [[0; 0]; [0; 0]])%Q 2 8
            (replicate 16 7%Z) 1 1 ltac:(vm_compute; lia) ltac:(vm_compute; lia) _
            ltac:(vm_compute; lia)).
  eexists. split; [reflexivity|cbn; lia].
Defined.

(** ** Spawning a tile *)

(** X24.  [_spawnCloud] with a start index inside [m_cloudTypes] appends
    one tile under a new entity: at the given position, initialised,
    without links, holding nothing, its slots carrying the id and the
    viscosity of the up to four types from the start index on.  With a
    start index outside, the constructor throws. *)
Theorem spawnCloud_adds_one_tile (K : Constants) (s : CompoundCloudSystem)
  (pos : Float3) (startIndex : nat) :
  (is_Some (m_cloudTypes s !! startIndex) ->
   exists tile,
     System._spawnCloud K s pos startIndex
     = Done (setNextEntity (nextEntity s + 1)%Z
               (setManagedClouds
                  (m_managedClouds s ++ [(nextEntity s, tile)]) s))
     /\ m_position tile = pos
     /\ m_initialized tile = true
     /\ linksOf tile = (None, None, None, None)
     /\ (forall i t,
           (i < CLOUDS_IN_ONE)%nat ->
           m_cloudTypes s !! (startIndex + i)%nat = Some t ->
           exists cd,
             clouds tile !! i = Some cd
             /\ cloud_id cd = compound_id t
             /\ cloud_viscosity cd = compound_viscosity t)
     /\ holdsNothing K tile)
  /\ (m_cloudTypes s !! startIndex = None ->
      System._spawnCloud K s pos startIndex = Aborted RuntimeError).
Proof.
  split.
  - intros [first Hfirst]. unfold System._spawnCloud, Component.create.
    rewrite Nat.add_0_r, Hfirst. cbn [mbind Outcome_bind].
    eexists. split; [reflexivity|].
    split; [reflexivity|]. split; [reflexivity|]. split; [reflexivity|].
    split.
    + intros i t Hi Ht. unfold System.initializeCloud.
      cbn [clouds setPosition setInitialized setClouds map].
      unfold CLOUDS_IN_ONE in Hi.
      destruct i as [|[|[|[|i]]]]; [| | | |lia]; cbn [lookup list_lookup];
        eexists; (split; [reflexivity|]);
        rewrite ?Nat.add_0_r in Ht; try rewrite Hfirst in Ht;
        try rewrite Ht;
        try (injection Ht as <-);
        unfold Component.clearCloudData;
        match goal with
        | |- context [if ?b then _ else _] => destruct b
        end; split; reflexivity.
    + unfold System.initializeCloud.
      intros cd Hin. cbn [clouds setInitialized] in Hin.
      eapply (cleared_holdsNothing K). exact Hin.
  - intros Hnone. unfold System._spawnCloud, Component.create.
    rewrite Nat.add_0_r, Hnone. reflexivity.
Qed.

(** ** After a spawn cycle *)

(** X25.  After a spawn cycle that ends normally the number of tiles is
    the expected one, the grid centre is the one computed for the player
    position, and the cloud types are unchanged. *)
Theorem doSpawnCycle_settles (K : Constants) (s s' : CompoundCloudSystem)
  (playerPos : Float3) :
  System.doSpawnCycle K s playerPos = Done s' ->
  length (m_managedClouds s') = System.expectedCloudCount s' /\
  Float3_neq (m_cloudGridCenter s')
    (calculateGridCenterForPlayerPos K playerPos) = false /\
  m_cloudTypes s' = m_cloudTypes s.
Proof.
  intros Hrun. destruct (doSpawnCycle_post K s playerPos s' Hrun)
    as [[Hcount Hcentre] _].
  split; [exact Hcount|]. split; [exact Hcentre|].
  destruct (m_managedClouds s) as [|e m] eqn:Em.
  - destruct (doSpawnCycle_populates K s playerPos Em)
      as (s1 & Hrun1 & _ & Ht & _). congruence.
  - assert (m_managedClouds s <> []) as Hne by (rewrite Em; discriminate).
    destruct (Nat.eq_dec (length (m_managedClouds s))
                (System.expectedCloudCount s)) as [Hc|Hc].
    + rewrite (doSpawnCycle_keeps K s playerPos Hne Hc) in Hrun.
      injection Hrun as <-. apply (retarget_frame K s playerPos).
    + rewrite (doSpawnCycle_deviation K s playerPos Hne Hc) in Hrun.
      discriminate.
Qed.

(** X25, witness: [fed] with the player at [(5, 0, 0)], which moves the
    grid centre to [(4, 0, 0)]. *)
Lemma doSpawnCycle_settles_witness :
  length (m_managedClouds Example.moved)
  = System.expectedCloudCount Example.moved /\
  Float3_neq (m_cloudGridCenter Example.moved)
    (calculateGridCenterForPlayerPos Example.K (mkFloat3 5 0 0))
  = false /\
  m_cloudTypes Example.moved = m_cloudTypes Example.fed.
Proof.
  exact (doSpawnCycle_settles Example.K Example.fed Example.moved
           (mkFloat3 5 0 0) ltac:(vm_compute; reflexivity)).
Defined.

(** ** Recycling fills the grid *)

(** *** Keys and lookups *)

Lemma update_keys f p (m : Store) : map fst (update f p m) = map fst m.
Proof.
  unfold update. rewrite map_map. apply map_ext. intros [e c]. cbn.
  destruct (Z.eqb e p); reflexivity.
Qed.

Lemma deref_unique (m : Store) p c :
  NoDup (map fst m) -> In (p, c) m -> deref m p = Some c.
Proof.
  induction m as [|[e c0] m IH]; intros Hnd Hin; [destruct Hin|].
  cbn [map fst] in Hnd. apply NoDup_cons in Hnd. destruct Hnd as [Hfresh Hnd].
  unfold deref. cbn [find fst]. destruct Hin as [[= -> ->]|Hin].
  - rewrite Z.eqb_refl. reflexivity.
  - destruct (Z.eqb_spec e p) as [->|Hne].
    + exfalso. apply Hfresh. apply list_elem_of_In. apply in_map_iff.
      exists (p, c). split; [reflexivity|exact Hin].
    + apply IH; assumption.
Qed.

Lemma In_update f p (m : Store) e c :
  In (e, c) (update f p m) ->
  (e <> p /\ In (e, c) m) \/ (e = p /\ exists c0, In (p, c0) m /\ c = f c0).
Proof.
  unfold update. intros H. apply in_map_iff in H.
  destruct H as ([e0 c0] & Heq & Hin). cbn [fst snd] in Heq.
  destruct (Z.eqb_spec e0 p) as [->|Hne]; injection Heq as <- <-.
  - right. split; [reflexivity|]. exists c0. split; [exact Hin|reflexivity].
  - left. split; assumption.
Qed.

Lemma update_In_other f p (m : Store) e c :
  e <> p -> In (e, c) m -> In (e, c) (update f p m).
Proof.
  intros Hne Hin. unfold update. apply in_map_iff. exists (e, c).
  cbn [fst snd]. destruct (Z.eqb_spec e p); [contradiction|].
  split; [reflexivity|exact Hin].
Qed.

Lemma update_In_here f p (m : Store) c :
  In (p, c) m -> In (p, f c) (update f p m).
Proof.
  intros Hin. unfold update. apply in_map_iff. exists (p, c).
  cbn [fst snd]. rewrite Z.eqb_refl. split; [reflexivity|exact Hin].
Qed.

(** *** Required positions *)

Lemma isStray_find K required c :
  isStray K required c = true <->
  find (fun r : Int2 * Float3 => System.atPosition K (m_position c) (snd r))
       required = None.
Proof.
  unfold isStray. induction required as [|r required IH]; cbn [forallb find].
  - split; reflexivity.
  - destruct (System.atPosition K (m_position c) (snd r)); cbn [negb andb].
    + split; discriminate.
    + exact IH.
Qed.

Lemma isStray_at K required c r :
  isStray K required c = true -> In r required ->
  System.atPosition K (m_position c) (snd r) = false.
Proof.
  unfold isStray. intros H Hin. rewrite forallb_forall in H.
  apply negb_true_iff. apply H. exact Hin.
Qed.

(** *** The first loop: the strays are collected in order *)

Lemma collectFarAway_strays K required MAX todo clouds tooFar idx :
  (idx + length todo <= MAX)%nat -> length tooFar = MAX ->
  exists clouds' tooFar',
    System.collectFarAway K required MAX todo clouds tooFar idx
    = (clouds', tooFar',
       (idx + length (List.filter (fun e => isStray K required (snd e)) todo))%nat,
       [])
    /\ length tooFar' = MAX
    /\ take (idx + length (List.filter (fun e => isStray K required (snd e))
                             todo)) tooFar'
       = take idx tooFar
         ++ map (fun e => Some (fst e))
              (List.filter (fun e => isStray K required (snd e)) todo).
Proof.
  revert clouds tooFar idx.
  induction todo as [|[e c] todo IH]; intros clouds tooFar idx Hfit Hlen.
  - cbn. exists clouds, tooFar. rewrite Nat.add_0_r, app_nil_r. auto.
  - cbn [System.collectFarAway List.filter snd]. cbn [length] in Hfit.
    destruct (isStray K required c) eqn:Es.
    + apply isStray_find in Es. rewrite Es.
      destruct (Nat.leb_spec MAX idx) as [Hle|Hlt]; [lia|].
      destruct (IH clouds (<[idx := Some e]> tooFar) (S idx))
        as (clouds' & tooFar' & Hrun & Hlen' & Htake);
        [lia|rewrite length_insert; exact Hlen|].
      exists clouds', tooFar'. cbn [length map fst].
      rewrite Nat.add_succ_r. split; [exact Hrun|]. split; [exact Hlen'|].
      cbn [Nat.add] in Htake. rewrite Htake.
      rewrite (take_S_r _ idx (Some e)).
      * rewrite take_insert_ge by lia. rewrite <- app_assoc. reflexivity.
      * apply list_lookup_insert_eq. lia.
    + destruct (find _ required) as [r|] eqn:Ef.
      * apply (IH _ tooFar idx); [lia|exact Hlen].
      * apply isStray_find in Ef. congruence.
Qed.

(** *** Counting *)

Lemma filter_length_le {A} (P Q : A -> bool) (l : list A) :
  (forall a, In a l -> Q a = true -> P a = true) ->
  (length (List.filter Q l) <= length (List.filter P l))%nat.
Proof.
  induction l as [|a l IH]; intros H; [reflexivity|]. cbn [List.filter].
  assert (length (List.filter Q l) <= length (List.filter P l))%nat as IH'
    by (apply IH; intros b Hb; apply H; right; exact Hb).
  destruct (Q a) eqn:EQ.
  - rewrite (H a (or_introl eq_refl) EQ). cbn. lia.
  - destruct (P a); cbn; lia.
Qed.

Lemma filter_length_lt {A} (P Q : A -> bool) (l : list A) (x : A) :
  (forall a, In a l -> Q a = true -> P a = true) ->
  In x l -> P x = true -> Q x = false ->
  (S (length (List.filter Q l)) <= length (List.filter P l))%nat.
Proof.
  induction l as [|a l IH]; intros H Hx HP HQ; [destruct Hx|].
  cbn [List.filter].
  assert (forall b, In b l -> Q b = true -> P b = true) as H'
    by (intros b Hb; apply H; right; exact Hb).
  destruct Hx as [->|Hx].
  - rewrite HP, HQ. cbn. pose proof (filter_length_le P Q l H'). lia.
  - specialize (IH H' Hx HP HQ). destruct (Q a) eqn:EQ.
    + rewrite (H a (or_introl eq_refl) EQ). cbn. lia.
    + destruct (P a); cbn; lia.
Qed.

Lemma filter_all {A} (P : A -> bool) (l : list A) :
  (forall a, In a l -> P a = true) -> List.filter P l = l.
Proof.
  induction l as [|a l IH]; intros H; [reflexivity|]. cbn.
  rewrite (H a (or_introl eq_refl)), IH; [reflexivity|].
  intros b Hb. apply H. right. exact Hb.
Qed.

Lemma count_without (P : Z -> bool) (l : list Z) (p : Z) :
  NoDup l ->
  (length (List.filter P l)
   <= length (List.filter P (List.filter (fun q => negb (Z.eqb q p)) l))
      + (if P p then 1 else 0))%nat.
Proof.
  induction l as [|a l IH]; intros Hnd; [cbn; lia|].
  apply NoDup_cons in Hnd. destruct Hnd as [Hfresh Hnd]. specialize (IH Hnd).
  cbn [List.filter]. destruct (Z.eqb_spec a p) as [->|Hne]; cbn [negb].
  - rewrite (filter_all (fun q => negb (Z.eqb q p)) l).
    + destruct (P p); cbn; lia.
    + intros b Hb. apply negb_true_iff. apply Z.eqb_neq. intros ->.
      apply Hfresh. apply list_elem_of_In. exact Hb.
  - cbn [List.filter]. destruct (P a); cbn; lia.
Qed.

(** *** The list of strays and its entries *)

Lemma omap_without (l : list (option ObjectID)) k p :
  l !! k = Some (Some p) -> NoDup (omap id l) ->
  omap id (<[k := None]> l)
  = List.filter (fun q => negb (Z.eqb q p)) (omap id l).
Proof.
  revert k. induction l as [|a l IH]; intros k Hk Hnd; [discriminate|].
  destruct k as [|k]; cbn in Hk.
  - injection Hk as ->. cbn. cbn in Hnd.
    apply NoDup_cons in Hnd. destruct Hnd as [Hfresh _].
    rewrite Z.eqb_refl. cbn. symmetry. apply filter_all.
    intros b Hb. apply negb_true_iff. apply Z.eqb_neq. intros ->.
    apply Hfresh. apply list_elem_of_In. exact Hb.
  - destruct a as [q|].
    + change (omap id (<[S k := None]> (Some q :: l)))
        with (q :: omap id (<[k := None]> l)).
      change (omap id (Some q :: l)) with (q :: omap id l) in Hnd |- *.
      apply NoDup_cons in Hnd. destruct Hnd as [Hfresh Hnd].
      rewrite (IH k Hk Hnd). cbn [List.filter].
      destruct (Z.eqb_spec q p) as [->|Hne]; [|reflexivity].
      exfalso. apply Hfresh. apply list_elem_of_omap.
      exists (Some p). split; [|reflexivity].
      apply (list_elem_of_lookup_2 _ k). exact Hk.
    + change (omap id (<[S k := None]> (None :: l)))
        with (omap id (<[k := None]> l)).
      change (omap id (None :: l)) with (omap id l) in Hnd |- *.
      apply IH; assumption.
Qed.

Lemma findCandidateFrom_found K (m : Store) g n (l : list (option ObjectID)) p :
  In p (omap id l) -> System.groupOf K m p = g ->
  exists k q,
    System.findCandidateFrom K m g n l = Some ((n + k)%nat, q) /\
    l !! k = Some (Some q) /\ System.groupOf K m q = g.
Proof.
  revert n. induction l as [|a l IH]; intros n Hin Hg; [destruct Hin|].
  cbn [System.findCandidateFrom]. destruct a as [q|].
  - destruct (Z.eqb_spec (System.groupOf K m q) g) as [Hq|Hq].
    + exists 0%nat, q. rewrite Nat.add_0_r. auto.
    + cbn in Hin. destruct Hin as [->|Hin]; [contradiction|].
      destruct (IH (S n) Hin Hg) as (k & q' & Hrun & Hk & Hq').
      exists (S k), q'. rewrite Nat.add_succ_r. auto.
  - cbn in Hin. destruct (IH (S n) Hin Hg) as (k & q' & Hrun & Hk & Hq').
    exists (S k), q'. rewrite Nat.add_succ_r. auto.
Qed.

Lemma firstCloudId_recycle K pos c :
  firstCloudId K (Component.recycleToPosition K pos c) = firstCloudId K c.
Proof.
  unfold firstCloudId, Component.recycleToPosition.
  cbn [clouds setClouds setPosition].
  change (map (Component.clearCloudData K) (clouds c))
    with (Component.clearCloudData K <$> clouds c).
  rewrite list_lookup_fmap.
  destruct (clouds c !! 0%nat) as [cd|]; cbn; [|reflexivity].
  apply clearCloudData_id.
Qed.

Lemma groupOf_recycle K pos p (m : Store) q :
  System.groupOf K (update (Component.recycleToPosition K pos) p m) q
  = System.groupOf K m q.
Proof.
  unfold System.groupOf. f_equal. apply deref_update_proj.
  intros c. apply firstCloudId_recycle.
Qed.

Lemma hasCloud_exists K (m : Store) g r :
  System.hasCloud K m g r = true <->
  exists e c, In (e, c) m /\ System.atPosition K (m_position c) r = true
              /\ firstCloudId K c = g.
Proof.
  unfold System.hasCloud. rewrite existsb_exists. split.
  - intros ([e c] & Hin & Hp). cbn [snd] in Hp.
    apply andb_true_iff in Hp. destruct Hp as [Hat Hg].
    apply Z.eqb_eq in Hg. exists e, c. auto.
  - intros (e & c & Hin & Hat & Hg). exists (e, c). split; [exact Hin|].
    cbn [snd]. rewrite Hat. cbn. apply Z.eqb_eq. congruence.
Qed.

(** *** The second loop: every gap finds a stray *)

Section Recycling.
Variable K : Constants.
Variable R : list (Int2 * Float3).
Variable idx : nat.
Hypothesis Heps : (0 < EPSILON K)%Q.

Lemma recycle_step g r (m : Store) tooFar k p :
  In r R -> straysListed K R idx m tooFar ->
  take idx tooFar !! k = Some (Some p) -> System.groupOf K m p = g ->
  System.hasCloud K m g (snd r) = false ->
  straysListed K R idx
    (update (Component.recycleToPosition K (snd r)) p m)
    (<[k := None]> tooFar)
  /\ System.hasCloud K
       (update (Component.recycleToPosition K (snd r)) p m) g (snd r) = true
  /\ (forall g' r', In r' R ->
        System.hasCloud K m g' (snd r') = true ->
        System.hasCloud K
          (update (Component.recycleToPosition K (snd r)) p m) g' (snd r')
        = true)
  /\ (forall g',
        (length (gaps K R m g') <= length (candidates K idx m tooFar g'))%nat ->
        (length (gaps K R
                   (update (Component.recycleToPosition K (snd r)) p m) g')
         <= length (candidates K idx
                      (update (Component.recycleToPosition K (snd r)) p m)
                      (<[k := None]> tooFar) g'))%nat)
  /\ (forall q c, deref m q = Some c -> isStray K R c = false ->
        deref (update (Component.recycleToPosition K (snd r)) p m) q
        = Some c).
Proof.
  intros Hr (Hkeys & Hnd & Hstray) Hk Hg Hgap.
  set (m' := update (Component.recycleToPosition K (snd r)) p m).
  assert (k < idx)%nat as Hkidx.
  { pose proof (lookup_lt_Some _ _ _ Hk) as H. rewrite length_take in H. lia. }
  assert (In p (omap id (take idx tooFar))) as Hp.
  { apply list_elem_of_In. apply list_elem_of_omap. exists (Some p).
    split; [|reflexivity]. apply (list_elem_of_lookup_2 _ k). exact Hk. }
  destruct (Hstray p Hp) as (c0 & Hc0 & Hs0).
  assert (forall c, In (p, c) m -> c = c0) as Hp_unique.
  { intros c Hin. pose proof (deref_unique m p c Hkeys Hin). congruence. }
  assert (omap id (take idx (<[k := None]> tooFar))
          = List.filter (fun q => negb (Z.eqb q p))
              (omap id (take idx tooFar))) as HF.
  { rewrite take_insert_lt by exact Hkidx. apply omap_without; assumption. }
  (* a tile found at a required position before is still there *)
  assert (forall g' r', In r' R ->
            System.hasCloud K m g' (snd r') = true ->
            System.hasCloud K m' g' (snd r') = true) as Hmono.
  { intros g' r' Hr' H. apply hasCloud_exists in H.
    destruct H as (e & c & Hin & Hat & Hid). apply hasCloud_exists.
    exists e, c. split; [|auto]. apply update_In_other; [|exact Hin].
    intros ->. rewrite (Hp_unique c Hin) in Hat.
    rewrite (isStray_at K R c0 r' Hs0 Hr') in Hat. discriminate. }
  split; [|split; [|split; [|split]]].
  - split; [|split].
    + unfold m'. rewrite update_keys. exact Hkeys.
    + rewrite HF. apply NoDup_ListNoDup. apply List.NoDup_filter.
      apply NoDup_ListNoDup. exact Hnd.
    + intros q Hq. rewrite HF in Hq. apply filter_In in Hq.
      destruct Hq as [Hq Hne]. apply negb_true_iff, Z.eqb_neq in Hne.
      destruct (Hstray q Hq) as (c & Hc & Hs). exists c. split; [|exact Hs].
      unfold m'. rewrite deref_update. destruct (Z.eqb_spec q p);
        [contradiction|exact Hc].
  - apply hasCloud_exists.
    exists p, (Component.recycleToPosition K (snd r) c0).
    split; [apply update_In_here; apply deref_In; exact Hc0|].
    split.
    + cbn [m_position Component.recycleToPosition setClouds setPosition].
      apply atPosition_self. exact Heps.
    + rewrite firstCloudId_recycle. unfold System.groupOf in Hg.
      rewrite Hc0 in Hg. exact Hg.
  - exact Hmono.
  - intros g' Hle. unfold candidates. rewrite HF.
    pose proof (count_without (fun q => Z.eqb (System.groupOf K m q) g')
                  (omap id (take idx tooFar)) p Hnd) as Hcount.
    cbv beta in Hcount. rewrite Hg in Hcount.
    rewrite (filter_ext (fun q => Z.eqb (System.groupOf K m' q) g')
                        (fun q => Z.eqb (System.groupOf K m q) g'))
      by (intros q; unfold m'; rewrite groupOf_recycle; reflexivity).
    destruct (Z.eqb_spec g g') as [<-|Hne].
    + assert (S (length (gaps K R m' g)) <= length (gaps K R m g))%nat.
      { unfold gaps. apply (filter_length_lt _ _ R r).
        - intros r' Hr' H. apply negb_true_iff in H. apply negb_true_iff.
          destruct (System.hasCloud K m g (snd r')) eqn:E; [|reflexivity].
          rewrite (Hmono g r' Hr' E) in H. discriminate.
        - exact Hr.
        - rewrite Hgap. reflexivity.
        - apply negb_false_iff. apply hasCloud_exists.
          exists p, (Component.recycleToPosition K (snd r) c0).
          split; [apply update_In_here; apply deref_In; exact Hc0|].
          split.
          + cbn [m_position Component.recycleToPosition setClouds
                 setPosition].
            apply atPosition_self. exact Heps.
          + rewrite firstCloudId_recycle. unfold System.groupOf in Hg.
            rewrite Hc0 in Hg. exact Hg. }
      cbv iota in Hcount. unfold candidates, ObjectID in *. lia.
    + assert (length (gaps K R m' g') <= length (gaps K R m g'))%nat.
      { unfold gaps. apply filter_length_le.
        intros r' Hr' H. apply negb_true_iff in H. apply negb_true_iff.
        destruct (System.hasCloud K m g' (snd r')) eqn:E; [|reflexivity].
        rewrite (Hmono g' r' Hr' E) in H. discriminate. }
      cbv iota in Hcount. unfold candidates, ObjectID in *. lia.
  - intros q c Hc Hs. unfold m'. rewrite deref_update.
    destruct (Z.eqb_spec q p) as [->|Hne]; [|exact Hc]. congruence.
Qed.
End Recycling.

Lemma fillPositions_fills K R idx g rest st :
  (0 < EPSILON K)%Q ->
  (forall r, In r rest -> In r R) ->
  straysListed K R idx (fst (fst (fst st))) (snd (fst st)) ->
  (length (gaps K R (fst (fst (fst st))) g)
   <= length (candidates K idx (fst (fst (fst st))) (snd (fst st)) g))%nat ->
  straysListed K R idx
    (fst (fst (fst (System.fillPositions K rest g idx st))))
    (snd (fst (System.fillPositions K rest g idx st)))
  /\ (forall r, In r rest ->
        System.hasCloud K
          (fst (fst (fst (System.fillPositions K rest g idx st))))
          g (snd r) = true)
  /\ (forall g' r', In r' R ->
        System.hasCloud K (fst (fst (fst st))) g' (snd r') = true ->
        System.hasCloud K
          (fst (fst (fst (System.fillPositions K rest g idx st))))
          g' (snd r') = true)
  /\ (forall g',
        (length (gaps K R (fst (fst (fst st))) g')
         <= length (candidates K idx (fst (fst (fst st))) (snd (fst st)) g'))%nat ->
        (length (gaps K R
                   (fst (fst (fst (System.fillPositions K rest g idx st))))
                   g')
         <= length (candidates K idx
                      (fst (fst (fst (System.fillPositions K rest g idx st))))
                      (snd (fst (System.fillPositions K rest g idx st)))
                      g'))%nat)
  /\ (forall q c, deref (fst (fst (fst st))) q = Some c ->
        isStray K R c = false ->
        deref (fst (fst (fst (System.fillPositions K rest g idx st)))) q
        = Some c)
  /\ snd (System.fillPositions K rest g idx st) = snd st.
Proof.
  intros Heps. revert st.
  induction rest as [|r rest IH]; intros st Hsub Hlisted Hle.
  - cbn [System.fillPositions].
    split; [exact Hlisted|]. split; [intros r []|]. auto.
  - destruct st as [[[m clouds] tooFar] msgs]. cbn [fst snd] in *.
    cbn [System.fillPositions].
    assert (In r R) as Hr by (apply Hsub; left; reflexivity).
    assert (forall r', In r' rest -> In r' R) as Hsub'
      by (intros r' Hr'; apply Hsub; right; exact Hr').
    destruct (System.hasCloud K m g (snd r)) eqn:Ehas.
    + destruct (IH (m, clouds, tooFar, msgs) Hsub' Hlisted Hle)
        as (H1 & H2 & H3 & H4 & H5 & H6).
      cbn [fst snd] in *.
      split; [exact H1|]. split; [|auto].
      intros r' [<-|Hr']; [|apply H2; exact Hr'].
      apply H3; assumption.
    + assert (In r (gaps K R m g)) as Hgap.
      { unfold gaps. apply filter_In. split; [exact Hr|].
        rewrite Ehas. reflexivity. }
      destruct (candidates K idx m tooFar g) as [|p0 rest0] eqn:Ec.
      { destruct (gaps K R m g); [destruct Hgap|cbn in Hle; lia]. }
      assert (In p0 (candidates K idx m tooFar g)) as Hp0
        by (rewrite Ec; left; reflexivity).
      unfold candidates in Hp0. apply filter_In in Hp0.
      destruct Hp0 as [Hp0 Hg0]. apply Z.eqb_eq in Hg0.
      destruct (findCandidateFrom_found K m g 0 (take idx tooFar) p0 Hp0 Hg0)
        as (k & p & Hfind & Hk & Hg).
      cbn [Nat.add] in Hfind. unfold System.findCandidate. rewrite Hfind.
      rewrite <- Ec in Hle.
      destruct (recycle_step K R idx Heps g r m tooFar k p Hr Hlisted Hk Hg
                  Ehas) as (S1 & S2 & S3 & S4 & S5).
      match goal with
      | |- context [System.fillPositions K rest g idx ?st1] =>
          destruct (IH st1 Hsub' S1 (S4 g Hle))
            as (H1 & H2 & H3 & H4 & H5 & H6)
      end.
      cbn [fst snd] in *.
      split; [exact H1|]. split; [|split; [|split; [|split]]].
      * intros r' [<-|Hr']; [|apply H2; exact Hr'].
        apply H3; assumption.
      * intros g' r' Hr' H. apply H3; [exact Hr'|]. apply S3; assumption.
      * intros g' H. apply H4. apply S4. exact H.
      * intros q c Hc Hs. apply H5; [|exact Hs]. apply S5; assumption.
      * exact H6.
Qed.

Lemma moveFarClouds_fills K s R idx st :
  (0 < EPSILON K)%Q ->
  straysListed K R idx (fst (fst (fst st))) (snd (fst st)) ->
  (forall c compound,
     In c (System.groupStarts s) -> m_cloudTypes s !! c = Some compound ->
     (length (gaps K R (fst (fst (fst st))) (compound_id compound))
      <= length (candidates K idx (fst (fst (fst st))) (snd (fst st))
                   (compound_id compound)))%nat) ->
  (forall c compound r,
     In c (System.groupStarts s) -> m_cloudTypes s !! c = Some compound ->
     In r R ->
     System.hasCloud K
       (fst (fst (fst (System.moveFarClouds K s R idx st))))
       (compound_id compound) (snd r) = true)
  /\ (forall g' r', In r' R ->
        System.hasCloud K (fst (fst (fst st))) g' (snd r') = true ->
        System.hasCloud K
          (fst (fst (fst (System.moveFarClouds K s R idx st))))
          g' (snd r') = true)
  /\ (forall q c, deref (fst (fst (fst st))) q = Some c ->
        isStray K R c = false ->
        deref (fst (fst (fst (System.moveFarClouds K s R idx st)))) q
        = Some c)
  /\ snd (System.moveFarClouds K s R idx st) = snd st.
Proof.
  intros Heps. unfold System.moveFarClouds.
  generalize (System.groupStarts s) as starts. intros starts. revert st.
  induction starts as [|c0 starts IH]; intros st Hlisted Hle.
  - cbn [foldl]. split; [intros c compound r []|]. auto.
  - cbn [foldl].
    assert (forall c compound,
              In c starts -> m_cloudTypes s !! c = Some compound ->
              (length (gaps K R (fst (fst (fst st))) (compound_id compound))
               <= length (candidates K idx (fst (fst (fst st)))
                            (snd (fst st)) (compound_id compound)))%nat)
      as Hle' by (intros c compound Hc; apply Hle; right; exact Hc).
    destruct (m_cloudTypes s !! c0) as [compound0|] eqn:E0.
    + destruct (fillPositions_fills K R idx (compound_id compound0) R st Heps
                  (fun r H => H) Hlisted
                  (Hle c0 compound0 (or_introl eq_refl) E0))
        as (F1 & F2 & F3 & F4 & F5 & F6).
      match goal with
      | |- context [foldl ?f ?st1 starts] =>
          destruct (IH st1 F1) as (H1 & H2 & H3 & H4)
      end.
      { intros c compound Hc Ht. apply F4. apply (Hle' c compound Hc Ht). }
      split; [|split; [|split]].
      * intros c compound r [<-|Hc] Ht Hr.
        -- rewrite E0 in Ht. injection Ht as <-.
           apply H2; [exact Hr|]. apply F2. exact Hr.
        -- apply (H1 c compound r Hc Ht Hr).
      * intros g' r' Hr' H. apply H2; [exact Hr'|]. apply F3; assumption.
      * intros q c Hc Hs. apply H3; [|exact Hs]. apply F5; assumption.
      * rewrite H4. exact F6.
    + destruct (IH st Hlisted Hle') as (H1 & H2 & H3 & H4).
      split; [|split; [|split]]; try assumption.
      intros c compound r [<-|Hc] Ht Hr; [congruence|].
      apply (H1 c compound r Hc Ht Hr).
Qed.

(** *** The whole of [applyNewCloudPositioning] *)

Lemma hasCloud_update K f p (m : Store) g r :
  (forall c, m_position (f c) = m_position c) ->
  (forall c, firstCloudId K (f c) = firstCloudId K c) ->
  System.hasCloud K (update f p m) g r = System.hasCloud K m g r.
Proof.
  intros Hpos Hid. unfold System.hasCloud, update.
  induction m as [|[e c] m IH]; [reflexivity|].
  cbn [map existsb fst snd]. rewrite IH. f_equal.
  destruct (Z.eqb e p); cbn [snd]; [rewrite Hpos, Hid|]; reflexivity.
Qed.

Lemma hasCloud_setUpCloudLinks K clouds (m : Store) g r :
  System.hasCloud K (System.setUpCloudLinks clouds m) g r
  = System.hasCloud K m g r.
Proof.
  unfold System.setUpCloudLinks. generalize (map_to_list clouds).
  intros l. revert m. induction l as [|entry l IH]; intros m; cbn [foldl];
    [reflexivity|].
  rewrite IH. apply hasCloud_update; reflexivity.
Qed.

Lemma content_setUpCloudLinks clouds0 (m : Store) q :
  (fun c => (clouds c, m_position c))
    <$> deref (System.setUpCloudLinks clouds0 m) q
  = (fun c => (clouds c, m_position c)) <$> deref m q.
Proof.
  unfold System.setUpCloudLinks. generalize (map_to_list clouds0).
  intros l. revert m. induction l as [|entry l IH]; intros m; cbn [foldl];
    [reflexivity|].
  rewrite IH. apply deref_update_proj. reflexivity.
Qed.

Lemma filtered_keys_NoDup (P : ObjectID * CompoundCloudComponent -> bool)
  (m : Store) :
  NoDup (map fst m) -> NoDup (map fst (List.filter P m)).
Proof.
  induction m as [|e m IH]; intros Hnd; [constructor|].
  cbn [map] in Hnd. apply NoDup_cons in Hnd. destruct Hnd as [Hfresh Hnd].
  cbn [List.filter]. destruct (P e); [|apply IH; exact Hnd].
  cbn [map]. apply NoDup_cons. split; [|apply IH; exact Hnd].
  intros Hin. apply Hfresh. apply list_elem_of_In in Hin.
  apply in_map_iff in Hin. destruct Hin as (e' & Heq & Hin).
  apply filter_In in Hin. destruct Hin as [Hin _].
  apply list_elem_of_In. apply in_map_iff. exists e'. auto.
Qed.

Lemma omap_Some_keys (l : Store) :
  omap id (map (fun e : ObjectID * CompoundCloudComponent => Some (fst e)) l)
  = map fst l.
Proof.
  induction l as [|e l IH]; [reflexivity|].
  change (omap id (map (fun e : ObjectID * CompoundCloudComponent =>
                          Some (fst e)) (e :: l)))
    with (fst e :: omap id (map (fun e : ObjectID * CompoundCloudComponent =>
                                   Some (fst e)) l)).
  rewrite IH. reflexivity.
Qed.

Lemma candidates_of_strays K R (m l : Store) g :
  NoDup (map fst m) -> (forall e, In e l -> In e m) ->
  List.filter (fun q => Z.eqb (System.groupOf K m q) g)
    (map fst (List.filter (fun e => isStray K R (snd e)) l))
  = map fst (List.filter (fun e => isStray K R (snd e)
                                   && Z.eqb (firstCloudId K (snd e)) g) l).
Proof.
  intros Hnd. induction l as [|[e c] l IH]; intros Hsub; [reflexivity|].
  assert (forall e', In e' l -> In e' m) as Hsub'
    by (intros e' H; apply Hsub; right; exact H).
  cbn [List.filter snd]. destruct (isStray K R c); cbn [andb].
  - cbn [map List.filter fst].
    assert (System.groupOf K m e = firstCloudId K c) as ->.
    { unfold System.groupOf.
      rewrite (deref_unique m e c Hnd (Hsub _ (or_introl eq_refl))).
      reflexivity. }
    destruct (Z.eqb (firstCloudId K c) g); cbn [map fst];
      rewrite (IH Hsub'); reflexivity.
  - apply IH. exact Hsub'.
Qed.

Lemma forGroups_spec s f :
  forGroups s f = true <->
  forall c compound,
    In c (System.groupStarts s) -> m_cloudTypes s !! c = Some compound ->
    f (compound_id compound) = true.
Proof.
  unfold forGroups. rewrite forallb_forall. split.
  - intros H c compound Hc Ht. specialize (H c Hc). rewrite Ht in H. exact H.
  - intros H c Hc. destruct (m_cloudTypes s !! c) as [compound|] eqn:E;
      [|reflexivity].
    apply (H c compound Hc E).
Qed.

(** X26.  Recycling fills the grid: when every group has at least as many
    tiles away from the required positions as it has required positions
    without a tile, then after [applyNewCloudPositioning] every group has a
    tile at every required position, and every tile that was at a
    required position keeps its position and its densities.  ([EPSILON] is
    positive and the keys of the map are distinct.) *)
Theorem applyNewCloudPositioning_fills_grid (K : Constants)
  (s : CompoundCloudSystem) :
  (0 < EPSILON K)%Q ->
  NoDup (map fst (m_managedClouds s)) ->
  enoughStrays K s = true ->
  gridComplete K (System.applyNewCloudPositioning K s) = true /\
  (forall q c,
     deref (m_managedClouds s) q = Some c ->
     isStray K (calculateGridPositions K (m_cloudGridCenter s)) c = false ->
     exists c',
       deref (m_managedClouds (System.applyNewCloudPositioning K s)) q
       = Some c'
       /\ clouds c' = clouds c /\ m_position c' = m_position c).
Proof.
  intros Heps Hnd Henough.
  set (R := calculateGridPositions K (m_cloudGridCenter s)) in *.
  set (m := m_managedClouds s) in *.
  unfold System.applyNewCloudPositioning. cbv zeta. fold R m.
  set (tooFar0 := if negb (length (m_tooFarAwayClouds s) =? length m)%nat
                  then resize (length m) (m_tooFarAwayClouds s)
                  else m_tooFarAwayClouds s).
  assert (length tooFar0 = length m) as Hlen0.
  { unfold tooFar0.
    destruct (Nat.eqb_spec (length (m_tooFarAwayClouds s)) (length m))
      as [He|Hne]; cbn [negb]; [exact He|].
    unfold resize. rewrite length_app, length_take, length_replicate. lia. }
  destruct (collectFarAway_strays K R (length m) m ∅ tooFar0 0)
    as (clouds1 & tooFar1 & Hrun1 & Hlen1 & Htake1); [lia|exact Hlen0|].
  cbn [Nat.add] in Hrun1, Htake1. rewrite Hrun1. rewrite take_0 in Htake1.
  cbn [app] in Htake1.
  set (idx := length (List.filter (fun e => isStray K R (snd e)) m)) in *.
  assert (omap id (take idx tooFar1)
          = map fst (List.filter (fun e => isStray K R (snd e)) m)) as HF.
  { rewrite Htake1. apply omap_Some_keys. }
  assert (straysListed K R idx m tooFar1) as Hlisted.
  { split; [exact Hnd|]. rewrite HF. split.
    - apply filtered_keys_NoDup. exact Hnd.
    - intros q Hq. apply in_map_iff in Hq. destruct Hq as ([e c] & <- & Hin).
      apply filter_In in Hin. destruct Hin as [Hin Hs]. cbn [fst snd] in *.
      exists c. split; [apply deref_unique; assumption|exact Hs]. }
  assert (forall c compound,
            In c (System.groupStarts s) ->
            m_cloudTypes s !! c = Some compound ->
            (length (gaps K R m (compound_id compound))
             <= length (candidates K idx m tooFar1 (compound_id compound)))%nat)
    as Hle.
  { intros c compound Hc Ht.
    pose proof (proj1 (forGroups_spec s _) Henough c compound Hc Ht) as H.
    cbv beta in H. apply Nat.leb_le in H. fold R m in H.
    unfold candidates. rewrite HF.
    rewrite (candidates_of_strays K R m m _ Hnd (fun e H => H)).
    exact H. }
  destruct (moveFarClouds_fills K s R idx (m, clouds1, tooFar1, [])
              Heps Hlisted Hle) as (H1 & _ & H3 & _).
  destruct (System.moveFarClouds K s R idx (m, clouds1, tooFar1, []))
    as [[[m2 clouds2] tooFar2] msgs2].
  cbn [fst snd] in H1, H3. cbn [m_managedClouds].
  split.
  - unfold gridComplete. apply forGroups_spec.
    intros c compound Hc Ht. cbn [m_managedClouds m_cloudGridCenter].
    apply forallb_forall. intros r Hr. cbv beta.
    rewrite hasCloud_setUpCloudLinks.
    apply (H1 c compound r Hc Ht Hr).
  - intros q c Hc Hs. specialize (H3 q c Hc Hs).
    pose proof (content_setUpCloudLinks clouds2 m2 q) as Hcont.
    rewrite H3 in Hcont. cbn in Hcont.
    destruct (deref (System.setUpCloudLinks clouds2 m2) q) as [c'|];
      [|discriminate].
    cbn in Hcont. injection Hcont as Hcl Hpos. exists c'. auto.
Qed.

(** X26, witness: [fed] with the grid centre moved to [(4, 0, 0)]:
    the three tiles at [x = -4] are strays, the three positions at
    [x = 8] are gaps. *)
Lemma applyNewCloudPositioning_fills_grid_witness :
  gridComplete Example.K
    (System.applyNewCloudPositioning Example.K
       (setCloudGridCenter (mkFloat3 4 0 0) Example.fed)) = true /\
  (forall q c,
     deref (m_managedClouds (setCloudGridCenter (mkFloat3 4 0 0) Example.fed))
       q = Some c ->
     isStray Example.K
       (calculateGridPositions Example.K
          (m_cloudGridCenter
             (setCloudGridCenter (mkFloat3 4 0 0) Example.fed))) c = false ->
     exists c',
       deref (m_managedClouds
                (System.applyNewCloudPositioning Example.K
                   (setCloudGridCenter (mkFloat3 4 0 0) Example.fed))) q
       = Some c'
       /\ clouds c' = clouds c /\ m_position c' = m_position c).
Proof.
  refine (applyNewCloudPositioning_fills_grid Example.K
            (setCloudGridCenter (mkFloat3 4 0 0) Example.fed)
            ltac:(reflexivity) _ ltac:(vm_compute; reflexivity)).
  vm_compute. repeat constructor; cbn; intros H;
    repeat (apply elem_of_cons in H; destruct H as [H|H]; [discriminate|]);
    inversion H.
Defined.
